(** * pg_wormhole: a shallow embedding of the client library

    The development follows the four modules of the Python package
    [wormhole]: the connection stack ([connection.py]), the dual-mode
    cursor with its placeholder translation ([query.py]), the remote
    function wrapper ([remote.py]) and the transaction scopes
    ([transaction.py]).

    Conventions of the embedding.
    - Python [str] is [list ascii]; literals are written with [lit].
    - Python [int] is [nat] where the code only counts upward from zero
      (list indices, marker numbers, the attempt counter) and [Z] where a
      caller may pass any integer ([max_retries], [size], [rowcount]).
    - A method that mutates [self] returns the new object next to its
      result; a call that may raise returns [res].
    - The database, the driver and the in-engine primitives are not part
      of the package: they are Section variables, so every statement holds
      for whatever they answer. *)

From Stdlib Require Import Ascii String.
From Stdlib Require Import List Bool Arith ZArith QArith Lia.
Import ListNotations.

Close Scope Q_scope.
Set Implicit Arguments.

(** ** Python values, strings and exceptions *)

Module Py.

Definition str := list ascii.

Definition lit (s : string) : str := list_ascii_of_string s.

Definition str_eq_dec : forall a b : str, {a = b} + {a <> b} :=
  list_eq_dec ascii_dec.

(** The handful of value shapes the package moves around without looking
    inside them. *)
Inductive value :=
| VNone
| VBool (b : bool)
| VInt (z : Z)
| VStr (s : str).

(** Exception classes that the package raises or that the interpreter's
    generator machinery raises on its behalf; [UserError] stands for any
    other subclass of [Exception], named by its class name. *)
Inductive exc_class :=
| StopIteration
| RuntimeError
| IndexError
| KeyError
| AttributeError
| TypeError
| ValueError
| TransactionRetryError
| UserError (name : str).

(** An exception instance: its class, [str(exc)], and the [__cause__] set
    by [raise ... from e].  Only instances of [Exception] are modelled
    ([KeyboardInterrupt] and the like are outside the embedding), so an
    [except Exception] clause catches every [exn]. *)
Inductive exn :=
| Exn (cls : exc_class) (msg : str)
| ExnFrom (cls : exc_class) (msg : str) (cause : exn).

Definition exn_class (e : exn) : exc_class :=
  match e with Exn c _ | ExnFrom c _ _ => c end.

(** [str(exc)] *)
Definition exn_str (e : exn) : str :=
  match e with Exn _ m | ExnFrom _ m _ => m end.

Definition exn_cause (e : exn) : option exn :=
  match e with Exn _ _ => None | ExnFrom _ _ c => Some c end.

Definition exc_class_eq_dec : forall a b : exc_class, {a = b} + {a <> b}.
Proof. decide equality; apply str_eq_dec. Defined.

Definition exn_eq_dec : forall a b : exn, {a = b} + {a <> b}.
Proof. decide equality; first [apply str_eq_dec | apply exc_class_eq_dec]. Defined.

(** [a is b] on exception objects.  The embedding has no object
    identities; two exceptions are the same object when they are equal. *)
Definition exn_is (a b : exn) : bool :=
  if exn_eq_dec a b then true else false.

Definition is_class (c : exc_class) (e : exn) : bool :=
  if exc_class_eq_dec (exn_class e) c then true else false.

(** Result of a call that may raise. *)
Inductive res (A : Type) :=
| Ok (a : A)
| Raise (e : exn).

Arguments Ok {A} a.
Arguments Raise {A} e.

Definition bind {A B} (m : res A) (k : A -> res B) : res B :=
  match m with
  | Ok a => k a
  | Raise e => Raise e
  end.

Definition is_ok {A} (m : res A) : bool :=
  match m with Ok _ => true | Raise _ => false end.

End Py.

Import Py.

Notation "x <- m ;; k" := (Py.bind m (fun x => k))
  (at level 61, m at next level, right associativity).

(** ** connection.py *)

Module Connection.

Section Stack.

(** The type of connection handles (a psycopg2 connection or a
    compatible object); the package never looks inside one. *)
Variable conn : Type.

(** [_connection_stack = threading.local()]: the state one thread sees.
    [None] is the object before its attribute [stack] exists; the list
    grows at its end, as [list.append] does. *)
Definition thread_local := option (list conn).

Definition fresh : thread_local := None.

(** [hasattr(_connection_stack, 'stack')] *)
Definition hasattr_stack (tl : thread_local) : bool :=
    match tl with Some _ => true | None => false end.

Definition set_connection (tl : thread_local) (c : conn) : thread_local :=
    let stack := match tl with
                 | None => []           (* _connection_stack.stack = [] *)
                 | Some s => s
                 end in
    Some (stack ++ [c]).                (* .stack.append(conn) *)

(** [get_connection] only reads, so it returns no new state. *)
Definition get_connection (tl : thread_local) : option conn :=
    match tl with
    | None => None
    | Some [] => None
    | Some s => nth_error s (length s - 1)     (* .stack[-1] *)
    end.

(** [pop_connection] returns the popped handle and the stack it
    leaves. *)
Definition pop_connection (tl : thread_local)
    : option conn * thread_local :=
    match tl with
    | None => (None, tl)
    | Some [] => (None, tl)
    | Some s => (nth_error s (length s - 1), Some (removelast s))  (* .stack.pop() *)
    end.

(** The handles on the stack, oldest first. *)
Definition handles (tl : thread_local) : list conn :=
    match tl with None => [] | Some s => s end.

End Stack.

End Connection.

(** ** The [str] methods the package calls *)

Module PyStr.

(** [s.startswith(p)] *)
Fixpoint startswith (p s : str) : bool :=
  match p, s with
  | [], _ => true
  | _ :: _, [] => false
  | a :: p', b :: s' => Ascii.eqb a b && startswith p' s'
  end.

(** [sub in s] *)
Fixpoint contains (sub s : str) : bool :=
  startswith sub s ||
  match s with
  | [] => false
  | _ :: s' => contains sub s'
  end.

(** [s.replace(old, new, 1)]: the leftmost occurrence only. *)
Fixpoint replace_first (old new s : str) : str :=
  if startswith old s then new ++ skipn (length old) s
  else match s with
       | [] => []
       | c :: s' => c :: replace_first old new s'
       end.

(** [s.replace(old, new)] for a non-empty [old]: scan from the left; where
    [old] occurs, emit [new] and go on after the occurrence.  The scan
    consumes at least one character a step, so [length s] steps finish
    it. *)
Fixpoint replace_scan (fuel : nat) (old new s : str) : str :=
  match fuel with
  | 0 => s
  | S fuel' =>
      if startswith old s then new ++ replace_scan fuel' old new (skipn (length old) s)
      else match s with
           | [] => []
           | c :: s' => c :: replace_scan fuel' old new s'
           end
  end.

Definition replace (old new s : str) : str :=
  replace_scan (length s) old new s.

(** [c.lower()] on one ASCII character. *)
Definition lower_char (c : ascii) : ascii :=
  let n := nat_of_ascii c in
  if (65 <=? n) && (n <=? 90) then ascii_of_nat (n + 32) else c.

(** [s.lower()] *)
Definition lower (s : str) : str := map lower_char s.

Definition digit_of (d : nat) : ascii := ascii_of_nat (48 + d).

Definition is_digit (c : ascii) : bool :=
  let n := nat_of_ascii c in (48 <=? n) && (n <=? 57).

(** [f'{n}'] for a non-negative [int]: the decimal digits, most
    significant first.  [n / 10 < n] for [n >= 10], so [S n] steps are
    enough. *)
Fixpoint decimal_digits (fuel n : nat) : str :=
  match fuel with
  | 0 => []
  | S fuel' =>
      if n <? 10 then [digit_of n]
      else decimal_digits fuel' (n / 10) ++ [digit_of (n mod 10)]
  end.

Definition decimal (n : nat) : str := decimal_digits (S n) n.

End PyStr.

Import PyStr.

(** ** query.py *)

Module Query.

(** A row as the cursor stores it: a [dict] from column name to value.
    Python dicts keep insertion order and [row.values()] follows it, so a
    row is an association list with distinct keys. *)
Definition row := list (str * value).

(** [d[k] = v] *)
Fixpoint dict_set (d : row) (k : str) (v : value) : row :=
  match d with
  | [] => [(k, v)]
  | (k', v') :: d' =>
      if str_eq_dec k' k then (k', v) :: d' else (k', v') :: dict_set d' k v
  end.

(** [dict(pairs)] *)
Definition dict (pairs : list (str * value)) : row :=
  fold_left (fun d kv => dict_set d (fst kv) (snd kv)) pairs [].

Definition keys (d : row) : list str := map fst d.

(** [tuple(d.values())] *)
Definition values (d : row) : list value := map snd d.

(** One entry of a DB-API [description]: the column name and the six
    further fields, which the package never reads. *)
Record column := { col_name : str; col_info : list value }.

(** The two placeholder loops of [WormholeCursor.execute]. *)

(** In-engine branch:
    [while '%s' in converted_sql:
         converted_sql = converted_sql.replace('%s', f'${param_num}', 1)
         param_num += 1]
    Each turn removes one ['%s'] and adds none, so the loop ends within
    [length sql] turns; [fuel] counts them. *)
Fixpoint numbered_loop (fuel : nat) (converted_sql : str) (param_num : nat) : str :=
  match fuel with
  | 0 => converted_sql
  | S fuel' =>
      if contains (lit "%s") converted_sql then
        numbered_loop fuel'
          (replace_first (lit "%s") (lit "$" ++ decimal param_num) converted_sql)
          (S param_num)
      else converted_sql
  end.

Definition to_numbered (sql : str) : str :=
  numbered_loop (length sql) sql 1.

(** External-client branch:
    [i = len(param_list)
     while i > 0:
         if f'${i}' in converted_sql:
             converted_sql = converted_sql.replace(f'${i}', '%s')
         i -= 1] *)
Fixpoint sequential_loop (i : nat) (converted_sql : str) : str :=
  match i with
  | 0 => converted_sql
  | S i' =>
      let marker := lit "$" ++ decimal i in
      sequential_loop i'
        (if contains marker converted_sql
         then replace marker (lit "%s") converted_sql
         else converted_sql)
  end.

Definition to_sequential (nparams : nat) (sql : str) : str :=
  sequential_loop nparams sql.

Section Cursor.

(** Connection handles and the driver's cursor objects. *)
Variables conn driver_cursor : Type.

(** [connection.cursor()] *)
Variable connection_cursor : conn -> res driver_cursor.

(** What the in-engine primitive [wormhole_query(sql, *args)] returns:
    a dict with key ["rows"] and, possibly, key ["nrows"]. *)
Record query_result := { rows : list row; nrows : option Z }.

Variable wormhole_query : str -> list value -> res query_result.

(** What the driver's cursor holds after its [execute]: [description],
    the rows [fetchall()] hands out, and [rowcount]. *)
Record driver_result := {
    d_description : option (list column);
    d_fetchall : list (list value);
    d_rowcount : Z
  }.

(** [real_cursor.execute(sql, parameters)] *)
Variable driver_execute : driver_cursor -> str -> list value -> res driver_result.

Record WormholeCursor := {
    connection : option conn;
    _real_cursor : option driver_cursor;
    _results : option (list row);
    _rowcount : Z;
    _description : option (list column);
    _current_index : nat
  }.

Definition no_connection_msg : str :=
    lit "No database connection set. Use set_connection() or connection_context() before creating a cursor.".

(** [WormholeCursor(connection)]; [server_side] is what
    [_is_server_side()] answers, [tl] the caller's connection stack. *)
Definition __init__ (server_side : bool) (tl : Connection.thread_local conn)
             (connection0 : option conn) : res WormholeCursor :=
    let self := {| connection := connection0;
                   _real_cursor := None;
                   _results := None;
                   _rowcount := (-1)%Z;
                   _description := None;
                   _current_index := 0 |} in
    if negb server_side then
      let connection1 := match connection0 with
                         | None => Connection.get_connection tl
                         | Some _ => connection0
                         end in
      match connection1 with
      | None => Raise (Exn RuntimeError no_connection_msg)
      | Some c =>
          rc <- connection_cursor c ;;
          Ok {| connection := connection self;
                _real_cursor := Some rc;
                _results := _results self;
                _rowcount := _rowcount self;
                _description := _description self;
                _current_index := _current_index self |}
      end
    else Ok self.

(** [execute(sql, parameters)]; the cursor it returns is [self] after
    the call.  When a primitive raises, nothing has been assigned yet
    and the caller keeps the cursor as it was. *)
Definition execute (server_side : bool) (self : WormholeCursor)
             (sql : str) (parameters : option (list value)) : res WormholeCursor :=
    let parameters := match parameters with None => [] | Some p => p end in
    if server_side then
      let param_list := parameters in
      let converted_sql := to_numbered sql in
      result <- wormhole_query converted_sql param_list ;;
      let results := rows result in
      Ok {| connection := connection self;
            _real_cursor := _real_cursor self;
            _results := Some results;
            _rowcount := match nrows result with
                         | Some n => n
                         | None => Z.of_nat (length results)
                         end;
            _description :=
              match results with
              | first_row :: _ =>
                  Some (map (fun key => {| col_name := key;
                                           col_info := repeat VNone 6 |})
                            (keys first_row))
              | [] => None
              end;
            _current_index := 0 |}
    else
      let param_list := parameters in
      let converted_sql := to_sequential (length param_list) sql in
      match _real_cursor self with
      | None =>
          Raise (Exn AttributeError (lit "'NoneType' object has no attribute 'execute'"))
      | Some real_cursor =>
          r <- driver_execute real_cursor converted_sql parameters ;;
          match d_description r with
          | Some (d :: ds) =>
              let columns := map col_name (d :: ds) in
              Ok {| connection := connection self;
                    _real_cursor := _real_cursor self;
                    _results := Some (map (fun row => dict (combine columns row))
                                          (d_fetchall r));
                    _rowcount := d_rowcount r;
                    _description := d_description r;
                    _current_index := 0 |}
          | _ =>
              Ok {| connection := connection self;
                    _real_cursor := _real_cursor self;
                    _results := Some [];
                    _rowcount := d_rowcount r;
                    _description := None;
                    _current_index := 0 |}
          end
      end.

(** [self._current_index += 1] *)
Definition advance (self : WormholeCursor) : WormholeCursor :=
    {| connection := connection self;
       _real_cursor := _real_cursor self;
       _results := _results self;
       _rowcount := _rowcount self;
       _description := _description self;
       _current_index := _current_index self + 1 |}.

Definition index_error : exn := Exn IndexError (lit "list index out of range").

(** [fetchone()]: the tuple (or [None]) and the cursor afterwards.
    [self._results[i]] raises [IndexError] outside the list. *)
Definition fetchone (self : WormholeCursor)
    : res (option (list value) * WormholeCursor) :=
    match _results self with
    | None => Ok (None, self)
    | Some results =>
        if length results <=? _current_index self then Ok (None, self)
        else match nth_error results (_current_index self) with
             | None => Raise index_error
             | Some row_dict => Ok (Some (values row_dict), advance self)
             end
    end.

(** The properties [description], [rowcount] and [arraysize]. *)
Definition description (self : WormholeCursor) : option (list column) :=
    _description self.

Definition rowcount (self : WormholeCursor) : Z := _rowcount self.

Definition arraysize (self : WormholeCursor) : Z := 1%Z.

(** [for _ in range(size)] of [fetchmany], [n] turns left. *)
Fixpoint fetchmany_loop (n : nat) (self : WormholeCursor)
           (results : list (list value))
    : res (list (list value) * WormholeCursor) :=
    match n with
    | 0 => Ok (results, self)
    | S n' =>
        r <- fetchone self ;;
        match r with
        | (None, self') => Ok (results, self')              (* break *)
        | (Some row, self') => fetchmany_loop n' self' (results ++ [row])
        end
    end.

Definition fetchmany (self : WormholeCursor) (size : option Z)
    : res (list (list value) * WormholeCursor) :=
    let size := match size with None => arraysize self | Some n => n end in
    fetchmany_loop (Z.to_nat size) self [].

(** [while self._current_index < len(self._results)] of [fetchall].
    The index grows by one a turn, so [length results] turns end the
    loop; [fuel] counts them. *)
Fixpoint fetchall_loop (fuel : nat) (results0 : list row)
           (self : WormholeCursor) (results : list (list value))
    : res (list (list value) * WormholeCursor) :=
    match fuel with
    | 0 => Ok (results, self)
    | S fuel' =>
        if _current_index self <? length results0 then
          match nth_error results0 (_current_index self) with
          | None => Raise index_error
          | Some row_dict =>
              fetchall_loop fuel' results0 (advance self)
                            (results ++ [values row_dict])
          end
        else Ok (results, self)
    end.

Definition fetchall (self : WormholeCursor)
    : res (list (list value) * WormholeCursor) :=
    match _results self with
    | None => Ok ([], self)
    | Some results0 => fetchall_loop (length results0) results0 self []
    end.

(** [fetchall_dict()]: the slice [self._results[self._current_index:]];
    the method assigns nothing. *)
Definition fetchall_dict (self : WormholeCursor)
    : res (list row * WormholeCursor) :=
    match _results self with
    | None => Ok ([], self)
    | Some results => Ok (skipn (_current_index self) results, self)
    end.

Definition fetchone_dict (self : WormholeCursor)
    : res (option row * WormholeCursor) :=
    match _results self with
    | None => Ok (None, self)
    | Some results =>
        if length results <=? _current_index self then Ok (None, self)
        else match nth_error results (_current_index self) with
             | None => Raise index_error
             | Some row_dict => Ok (Some row_dict, advance self)
             end
    end.

End Cursor.

End Query.

(** ** Calls that change the world

    The transaction scopes and the remote-function wrapper talk to a
    connection and may raise half-way.  [M W A] is a computation over a
    world [W] that ends with a value or an exception; the world it leaves
    behind is there in both cases. *)

Module Eff.

Definition M (W A : Type) : Type := W -> res A * W.

Definition ret {W A} (a : A) : M W A := fun w => (Ok a, w).

Definition raise {W A} (e : exn) : M W A := fun w => (Raise e, w).

Definition mbind {W A B} (m : M W A) (k : A -> M W B) : M W B :=
  fun w => match m w with
           | (Ok a, w') => k a w'
           | (Raise e, w') => (Raise e, w')
           end.

(** [try: m  except Exception as e: h(e)  else: k]: the handler guards
    [m] only. *)
Definition try_except {W A B} (m : M W A) (k : A -> M W B) (h : exn -> M W B)
  : M W B :=
  fun w => match m w with
           | (Ok a, w') => k a w'
           | (Raise e, w') => h e w'
           end.

End Eff.

Import Eff.

Notation "x <<- m ;; k" := (Eff.mbind m (fun x => k))
  (at level 61, m at next level, right associativity).
Notation "m ;;; k" := (Eff.mbind m (fun _ => k))
  (at level 61, right associativity).

(** ** The connection as the package sees it *)

Module Db.

Inductive db_call :=
| Rollback                                    (* conn.rollback() *)
| Commit                                      (* conn.commit() *)
| Execute (sql : str) (params : list value).  (* with conn.cursor() as cur: cur.execute(sql, params) *)

(** What happened, in order: a call on the connection with what it
    answered, a [time.sleep], the [k]-th run of a unit of work. *)
Inductive event :=
| Called (c : db_call) (r : res Query.row)
| Slept (delay : Q)
| Ran (k : nat).

Definition log := list event.

(** The connection: given what happened so far, a call raises or answers.
    For [Execute] the answer is the JSON object decoded from the first
    column of the first row, [json.loads(cur.fetchone()[0])], where the
    caller reads one; an undecodable answer is a raise. *)
Definition oracle := log -> db_call -> res Query.row.

Definition is_call (c : db_call) (e : event) : bool :=
  match e, c with
  | Called Rollback _, Rollback => true
  | Called Commit _, Commit => true
  | Called (Execute s _) _, Execute s' _ => if str_eq_dec s s' then true else false
  | _, _ => false
  end.

Definition is_ran (e : event) : bool :=
  match e with Ran _ => true | _ => false end.

Definition is_slept (e : event) : bool :=
  match e with Slept _ => true | _ => false end.

(** A commit or a rollback of the whole connection. *)
Definition is_commit_or_rollback (e : event) : bool :=
  match e with
  | Called Rollback _ | Called Commit _ => true
  | _ => false
  end.

Definition count (p : event -> bool) (l : log) : nat := length (filter p l).

End Db.

Import Db.

(** ** contextlib.contextmanager and the [with] statement

    [transaction] and [savepoint] are generator functions under
    [@contextmanager].  A generator is given by what it does when it is
    started, resumed by [next] and resumed by [throw]; each runs to the
    next [yield] (the frame it is suspended with), to its [return], or to
    an exception leaving it. *)

Module Contextlib.

Section Generators.

Variable W : Type.

Inductive gen_step (F : Type) :=
  | Yielded (frame : F)
  | Returned.

Arguments Yielded {F} frame.
Arguments Returned {F}.

Record generator (F : Type) := {
    gen_start : M W (gen_step F);
    gen_next : F -> M W (gen_step F);
    gen_throw : F -> exn -> M W (gen_step F)
  }.

(** A [StopIteration] leaving a generator's frame reaches the caller as
    [RuntimeError] with the original as its cause (PEP 479). *)
Definition leaving {F} (m : M W (gen_step F)) : M W (gen_step F) :=
    fun w => match m w with
             | (Raise e, w') =>
                 if is_class StopIteration e
                 then (Raise (ExnFrom RuntimeError (lit "generator raised StopIteration") e), w')
                 else (Raise e, w')
             | r => r
             end.

(** [_GeneratorContextManager.__enter__] *)
Definition __enter__ {F} (g : generator F) : M W F :=
    r <<- leaving (gen_start g) ;;
    match r with
    | Yielded f => ret f
    | Returned => raise (Exn RuntimeError (lit "generator didn't yield"))
    end.

(** [_GeneratorContextManager.__exit__(typ, value, traceback)]; [None]
    is the exit without an exception.  The answer [true] swallows the
    exception. *)
Definition __exit__ {F} (g : generator F) (f : F) (value : option exn)
    : M W bool :=
    match value with
    | None =>
        r <<- leaving (gen_next g f) ;;
        match r with
        | Returned => ret false
        | Yielded _ => raise (Exn RuntimeError (lit "generator didn't stop"))
        end
    | Some value =>
        try_except (leaving (gen_throw g f value))
          (fun r =>
             match r with
             | Returned => ret true
             | Yielded _ =>
                 raise (Exn RuntimeError (lit "generator didn't stop after throw()"))
             end)
          (fun exc =>
             if is_class RuntimeError exc then
               if exn_is exc value then ret false
               else if is_class StopIteration value
                       && match exn_cause exc with
                          | Some c => exn_is c value
                          | None => false
                          end
                    then ret false
                    else raise exc
             else if negb (exn_is exc value) then raise exc
                  else ret false)
    end.

(** [with g: body].  The value is [Some] of what the body returned, or
    [None] when [__exit__] swallowed the body's exception. *)
Definition with_ {F A} (g : generator F) (body : M W A) : M W (option A) :=
    f <<- __enter__ g ;;
    try_except body
      (fun a => __exit__ g f None ;;; ret (Some a))
      (fun e => swallow <<- __exit__ g f (Some e) ;;
                if swallow then ret None else raise e).

End Generators.

Arguments Yielded {F} frame.
Arguments Returned {F}.

End Contextlib.

Import Contextlib.

(** ** transaction.py *)

Module Transaction.

Definition retryable_conditions : list str :=
  [ lit "serialization failure";
    lit "deadlock detected";
    lit "cannot execute";
    lit "read-only transaction";
    lit "could not serialize" ].

Definition _is_retryable_error (exc : exn) : bool :=
  let error_msg := lower (exn_str exc) in
  existsb (fun cond => contains cond error_msg) retryable_conditions.

(** [f'{n}'] for any [int]. *)
Definition str_of_int (n : Z) : str :=
  if (n <? 0)%Z then lit "-" ++ decimal (Z.to_nat (- n)) else decimal (Z.to_nat n).

Section Scopes.

Variable conn : Type.

(** The connection behind every handle. *)
Variable db : conn -> oracle.

(** The caller's connection stack. *)
Variable tl : Connection.thread_local conn.

(** A call on the connection: it is logged with its answer. *)
Definition call (c : conn) (d : db_call) : M log Query.row :=
    fun l => let r := db c l d in (r, l ++ [Called d r]).

(** [time.sleep(delay)]; a negative delay raises [ValueError]. *)
Definition sleep (delay : Q) : M log unit :=
    fun l => if Qlt_le_dec delay 0
             then (Raise (Exn ValueError (lit "sleep length must be non-negative")), l)
             else (Ok tt, l ++ [Slept delay]).

(** *** [transaction(max_retries, retry_delay)] *)

Variable max_retries : Z.
Variable retry_delay : Q.

(** The locals of [transaction] while it is suspended at [yield]. *)
Record frame := {
    f_conn : conn;
    attempt : nat;
    last_error : option exn
  }.

(** The [except Exception as e] block; [continue_] is the loop the
    [continue] statement goes back to. *)
Definition handler (continue_ : nat -> option exn -> M log (gen_step frame))
             (c : conn) (attempt0 : nat) (last_error0 : option exn) (e : exn)
    : M log (gen_step frame) :=
    call c Rollback ;;;
    if _is_retryable_error e then
      let last_error1 := Some e in
      let attempt1 := attempt0 + 1 in
      if (Z.of_nat attempt1 <=? max_retries)%Z then
        let delay := (retry_delay * inject_Z (2 ^ (Z.of_nat attempt1 - 1)))%Q in
        sleep delay ;;;
        continue_ attempt1 last_error1
      else
        raise (ExnFrom TransactionRetryError
                 (lit "Transaction failed after " ++ str_of_int max_retries
                      ++ lit " retries: " ++ exn_str e)
                 e)
    else raise e.

(** [while attempt <= max_retries: try: conn.rollback(); yield ...],
    from the loop test up to the [yield].  Every further turn has
    raised [attempt] by one, so [fuel] turns are enough when
    [fuel + attempt > max_retries]. *)
Fixpoint loop (fuel : nat) (c : conn) (attempt0 : nat) (last_error0 : option exn)
    : M log (gen_step frame) :=
    match fuel with
    | 0 => ret Returned
    | S fuel' =>
        if (Z.of_nat attempt0 <=? max_retries)%Z then
          try_except (call c Rollback)
            (fun _ => ret (Yielded {| f_conn := c;
                                      attempt := attempt0;
                                      last_error := last_error0 |}))
            (handler (loop fuel' c) c attempt0 last_error0)
        else ret Returned
    end.

(** Turns the loop can still take from [attempt0] on. *)
Definition turns (attempt0 : nat) : nat :=
    Z.to_nat (max_retries + 1 - Z.of_nat attempt0).

Definition transaction_no_connection_msg : str :=
    lit "No database connection set. Use set_connection() or connection_context() before using transaction().".

Definition transaction : generator log frame :=
    {| gen_start :=
         match Connection.get_connection tl with
         | None => raise (Exn RuntimeError transaction_no_connection_msg)
         | Some c => loop (turns 0) c 0 None
         end;
       (* resumed after [yield]: [conn.commit(); return] inside the [try] *)
       gen_next := fun f =>
         try_except (call (f_conn f) Commit)
           (fun _ => ret Returned)
           (handler (loop (turns (attempt f + 1)) (f_conn f))
                    (f_conn f) (attempt f) (last_error f));
       (* the body's exception is thrown in at [yield], inside the [try] *)
       gen_throw := fun f e =>
         handler (loop (turns (attempt f + 1)) (f_conn f))
                 (f_conn f) (attempt f) (last_error f) e
    |}.

(** *** [savepoint(name)] *)

Variable name : str.

Definition savepoint_handler (c : conn) (e : exn) : M log (gen_step conn) :=
    call c (Execute (lit "ROLLBACK TO SAVEPOINT " ++ name) []) ;;;
    raise e.

Definition savepoint : generator log conn :=
    {| gen_start :=
         match Connection.get_connection tl with
         | None => raise (Exn RuntimeError (lit "No database connection set."))
         | Some c =>
             try_except (call c (Execute (lit "SAVEPOINT " ++ name) []))
               (fun _ => ret (Yielded c))
               (savepoint_handler c)
         end;
       gen_next := fun c =>
         try_except (call c (Execute (lit "RELEASE SAVEPOINT " ++ name) []))
           (fun _ => ret Returned)
           (savepoint_handler c);
       gen_throw := fun c e => savepoint_handler c e
    |}.

End Scopes.

(** A unit of work scripted by the outcome of each of its runs: the
    [k]-th run (counting from 0) is logged and ends as [outcomes k]. *)
Definition unit_of_work (outcomes : nat -> res value) : M log value :=
  fun l => let k := count is_ran l in (outcomes k, l ++ [Ran k]).

End Transaction.

(** ** remote.py *)

Module Remote.

(** [d.get(k)] *)
Fixpoint dict_get (d : Query.row) (k : str) : option value :=
  match d with
  | [] => None
  | (k', v) :: d' => if str_eq_dec k' k then Some v else dict_get d' k
  end.

(** Truth value of [d.get(k)]. *)
Definition truthy (v : option value) : bool :=
  match v with
  | None | Some VNone => false
  | Some (VBool b) => b
  | Some (VInt z) => negb (z =? 0)%Z
  | Some (VStr s) => match s with [] => false | _ => true end
  end.

(** One parameter of the captured signature. *)
Record arg_info := {
  arg_name : str;
  arg_type : option str;
  arg_default : option str
}.

Record signature_info := {
  sig_args : list arg_info;
  sig_returns : option str
}.

Record RemoteFunction := {
  func_name : str;
  func_id : value;            (* [None] until installed *)
  _installed : bool;
  source : str;
  signature : signature_info
}.

(** What [RemoteFunction.__init__] leaves, given the source text and the
    signature that [inspect] recovered. *)
Definition remote (name src : str) (sig : signature_info) : RemoteFunction :=
  {| func_name := name;
     func_id := VNone;
     _installed := false;
     source := src;
     signature := sig |}.

Definition install_sql : str := lit "SELECT wormhole_install(%s, %s, %s)".
Definition execute_sql : str := lit "SELECT wormhole_execute(%s, %s)".

Definition remote_no_connection_msg : str :=
  lit "No database connection. Use set_connection() before calling remote functions.".

(** The world of a remote function: what happened on the connection and
    the function object itself, which both methods assign to. *)
Record world := { w_log : log; w_self : RemoteFunction }.

Section Wrapper.

Variable conn : Type.
Variable db : conn -> oracle.

(** [json.dumps] of the signature and of a row, [repr] of a row. *)
Variable dumps_signature : signature_info -> str.
Variable repr_row : Query.row -> str.

(** The arguments of one invocation, and
    [json.dumps] of the arguments bound by [sig.bind], with defaults
    applied: the JSON text, or the [TypeError] of a call that does not
    fit the signature. *)
Variable call_args : Type.
Variable dumps_bound : signature_info -> call_args -> res str.

Definition get_self : M world RemoteFunction :=
    fun w => (Ok (w_self w), w).

Definition lift {A} (r : res A) : M world A := fun w => (r, w).

(** [with conn.cursor() as cur: cur.execute(sql, params)] and the
    decoding of its first answer. *)
Definition call (c : conn) (d : db_call) : M world Query.row :=
    fun w => let r := db c (w_log w) d in
             (r, {| w_log := w_log w ++ [Called d r]; w_self := w_self w |}).

(** [self.func_id = id; self._installed = True] *)
Definition set_installed (id : value) : M world unit :=
    fun w => (Ok tt,
              {| w_log := w_log w;
                 w_self := {| func_name := func_name (w_self w);
                              func_id := id;
                              _installed := true;
                              source := source (w_self w);
                              signature := signature (w_self w) |} |}).

Definition _install_on_server (tl : Connection.thread_local conn) : M world unit :=
    self <<- get_self ;;
    if _installed self then ret tt
    else
      match Connection.get_connection tl with
      | None => raise (Exn RuntimeError remote_no_connection_msg)
      | Some c =>
          let server_code := source self in
          result <<- call c (Execute install_sql
                               [VStr (func_name self); VStr server_code;
                                VStr (dumps_signature (signature self))]) ;;
          match dict_get result (lit "func_id") with
          | None => raise (Exn KeyError (lit "'func_id'"))
          | Some id => set_installed id
          end
      end.

Definition __call__ (tl : Connection.thread_local conn) (args : call_args)
    : M world value :=
    self <<- get_self ;;
    (if negb (_installed self) then _install_on_server tl else ret tt) ;;;
    match Connection.get_connection tl with
    | None => raise (Exn RuntimeError remote_no_connection_msg)
    | Some c =>
        self <<- get_self ;;
        call_kwargs <<- lift (dumps_bound (signature self) args) ;;
        result <<- call c (Execute execute_sql [func_id self; VStr call_kwargs]) ;;
        if negb (truthy (dict_get result (lit "success"))) then
          raise (Exn RuntimeError
                   (lit "Server-side execution failed: " ++ repr_row result))
        else
          ret (match dict_get result (lit "result") with
               | Some v => v
               | None => VNone
               end)
    end.

(** A sequence of invocations of one function object, each with the
    connection stack of its caller; a caller that gets an exception goes
    on to the next invocation. *)
Fixpoint invocations (calls : list (Connection.thread_local conn * call_args))
           (w : world) : world :=
    match calls with
    | [] => w
    | (tl, args) :: calls' => invocations calls' (snd (__call__ tl args w))
    end.

End Wrapper.

(** The install calls in a log, and those that were answered with a
    handle. *)
Definition is_install (e : event) : bool :=
  is_call (Execute install_sql []) e.

Definition is_installed_answer (e : event) : bool :=
  match e with
  | Called (Execute s _) (Ok r) =>
      (if str_eq_dec s install_sql then true else false)
      && match dict_get r (lit "func_id") with Some _ => true | None => false end
  | _ => false
  end.

End Remote.

(** ** Vocabulary of the statements

    Definitions that the source does not have but the properties talk
    about: a cursor moved to a position, several [fetchone] calls in a
    row, and SQL texts seen as literal characters and placeholders. *)

Module Vocabulary.

Import Query.

Section CursorWords.

Variables conn driver_cursor : Type.

(** The cursor [self] with its read position at [i]. *)
Definition at_index (self : WormholeCursor conn driver_cursor) (i : nat)
  : WormholeCursor conn driver_cursor :=
  {| connection := connection self;
     _real_cursor := _real_cursor self;
     _results := _results self;
     _rowcount := _rowcount self;
     _description := _description self;
     _current_index := i |}.

(** The stored result set; a cursor that never executed stores none. *)
Definition stored (self : WormholeCursor conn driver_cursor) : list row :=
  match _results self with Some rs => rs | None => [] end.

(** [m] calls of [fetchone] one after the other: what each returned, and
    the cursor after the last. *)
Fixpoint fetchone_times (m : nat) (self : WormholeCursor conn driver_cursor)
  : res (list (option (list value)) * WormholeCursor conn driver_cursor) :=
  match m with
  | 0 => Ok ([], self)
  | S m' =>
      r <- fetchone self ;;
      rest <- fetchone_times m' (snd r) ;;
      Ok (fst r :: fst rest, snd rest)
  end.

End CursorWords.

(** Stand-ins for the outside world, for statements at concrete inputs:
    a connection whose [cursor()] always works, an engine and a driver
    that answer every query with the same two rows of one column. *)
Definition two_rows : list row :=
  [ [(lit "id", VInt 1)]; [(lit "id", VInt 2)] ].

Definition cursor_ok (c : nat) : res nat := Ok c.

Definition engine_two_rows (sql : str) (args : list value) : res (query_result) :=
  Ok {| rows := two_rows; nrows := Some 2%Z |}.

Definition driver_two_rows (rc : nat) (sql : str) (args : list value)
  : res driver_result :=
  Ok {| d_description := Some [ {| col_name := lit "id"; col_info := repeat VNone 6 |} ];
        d_fetchall := [ [VInt 1]; [VInt 2] ];
        d_rowcount := 2%Z |}.

(** An in-engine cursor right after it executed a query that the engine
    answered with [two_rows]. *)
Definition cursor_with_two_rows : WormholeCursor nat nat :=
  {| connection := None;
     _real_cursor := None;
     _results := Some two_rows;
     _rowcount := 2%Z;
     _description := Some [ {| col_name := lit "id"; col_info := repeat VNone 6 |} ];
     _current_index := 0 |}.

(** A connection that answers every call with an empty object, bound as the
    only handle of the stack; a failure the classification retries and
    one it does not; a unit of work that meets the first on its first two
    runs and returns 42 afterwards. *)
Definition always_ok : nat -> Db.oracle := fun _ _ _ => Ok [].

Definition one_connection : Connection.thread_local nat :=
  Connection.set_connection (Connection.fresh nat) 1.

Definition serialization_error : exn :=
  Exn (UserError (lit "OperationalError"))
      (lit "could not serialize access due to concurrent update").

Definition division_error : exn :=
  Exn (UserError (lit "ZeroDivisionError")) (lit "division by zero").

Definition conflicts_twice (k : nat) : res value :=
  if k <? 2 then Raise serialization_error else Ok (VInt 42).

(** A connection that rejects the first install call it sees and accepts
    every later call, answering with a handle and a successful result;
    one registered function; argument binding that always fits. *)
Definition rejects_first_install : nat -> Db.oracle :=
  fun _ l c =>
    match c with
    | Db.Execute s _ =>
        if str_eq_dec s Remote.install_sql then
          if Db.count Remote.is_install l =? 0
          then Raise (Exn (UserError (lit "OperationalError"))
                          (lit "server closed the connection unexpectedly"))
          else Ok [(lit "func_id", VInt 7); (lit "cached", VBool false)]
        else Ok [(lit "success", VBool true); (lit "result", VInt 3)]
    | _ => Ok []
    end.

Definition add_function : Remote.RemoteFunction :=
  Remote.remote (lit "add") (lit "def add(x, y): return x + y")
    {| Remote.sig_args :=
         [ {| Remote.arg_name := lit "x"; Remote.arg_type := None;
              Remote.arg_default := None |};
           {| Remote.arg_name := lit "y"; Remote.arg_type := None;
              Remote.arg_default := None |} ];
       Remote.sig_returns := None |}.

Definition dumps_signature_stub (sig : Remote.signature_info) : str :=
  lit "{}".

Definition repr_row_stub (r : row) : str := lit "{...}".

Definition dumps_bound_stub (sig : Remote.signature_info) (args : list value)
  : res str :=
  Ok (lit "{}").

End Vocabulary.

(** ** SQL texts and their placeholders

    A SQL text read as literal characters and placeholders.  The same
    token list renders to the numbered form ([$1], [$2], ...) and to the
    sequential form ([%s]); the two loops of [execute] move a text from
    one rendering to the other. *)

Module Markers.

Inductive token :=
| Lit (c : ascii)
| Mark (i : nat).

(** [f'${i}'] *)
Definition numbered (i : nat) : str := lit "$" ++ decimal i.

Definition sequential : str := lit "%s".

Fixpoint render_numbered (ts : list token) : str :=
  match ts with
  | [] => []
  | Lit c :: ts' => c :: render_numbered ts'
  | Mark i :: ts' => numbered i ++ render_numbered ts'
  end.

Fixpoint render_sequential (ts : list token) : str :=
  match ts with
  | [] => []
  | Lit c :: ts' => c :: render_sequential ts'
  | Mark _ :: ts' => sequential ++ render_sequential ts'
  end.

(** The text in between: placeholders for which [is_numbered] holds are
    in numbered form, the others in sequential form. *)
Fixpoint render_mixed (is_numbered : nat -> bool) (ts : list token) : str :=
  match ts with
  | [] => []
  | Lit c :: ts' => c :: render_mixed is_numbered ts'
  | Mark i :: ts' =>
      (if is_numbered i then numbered i else sequential)
        ++ render_mixed is_numbered ts'
  end.

(** Whether the text after a token starts with a literal digit. *)
Definition digit_next (ts : list token) : bool :=
  match ts with
  | Lit c :: _ => is_digit c
  | _ => false
  end.


(** A sequential-form text read from the left: every [%s] is a
    placeholder, numbered from [n] on in the order of appearance. *)
Fixpoint read_sequential (n : nat) (sql : str) : list token :=
  match sql with
  | [] => []
  | c :: rest =>
      match rest with
      | d :: rest' =>
          if Ascii.eqb c "%" && Ascii.eqb d "s"
          then Mark n :: read_sequential (S n) rest'
          else Lit c :: read_sequential n rest
      | [] => [Lit c]
      end
  end.

(** The number of [%s] placeholders of a text. *)
Fixpoint count_markers (sql : str) : nat :=
  match sql with
  | [] => 0
  | c :: rest =>
      match rest with
      | d :: rest' =>
          if Ascii.eqb c "%" && Ascii.eqb d "s"
          then S (count_markers rest')
          else count_markers rest
      | [] => 0
      end
  end.

(** The text with its [%s] placeholders replaced, from the left, by
    [$n], [$(n+1)], ... *)
Fixpoint number_markers (n : nat) (sql : str) : str :=
  match sql with
  | [] => []
  | c :: rest =>
      match rest with
      | d :: rest' =>
          if Ascii.eqb c "%" && Ascii.eqb d "s"
          then numbered n ++ number_markers (S n) rest'
          else c :: number_markers n rest
      | [] => [c]
      end
  end.

(** The text has a numbered placeholder: a [$] followed by a digit. *)
Fixpoint has_numbered_marker (sql : str) : bool :=
  match sql with
  | [] => false
  | c :: rest =>
      (Ascii.eqb c "$" && match rest with d :: _ => is_digit d | [] => false end)
      || has_numbered_marker rest
  end.

(** Some [%s] of the text is followed by a digit. *)
Fixpoint marker_before_digit (sql : str) : bool :=
  match sql with
  | [] => false
  | c :: rest =>
      match rest with
      | d :: rest' =>
          if Ascii.eqb c "%" && Ascii.eqb d "s"
          then match rest' with x :: _ => is_digit x | [] => false end
               || marker_before_digit rest'
          else marker_before_digit rest
      | [] => false
      end
  end.

(** The number of placeholders of a token list. *)
Fixpoint count_marks (ts : list token) : nat :=
  match ts with
  | [] => 0
  | Lit _ :: ts' => count_marks ts'
  | Mark _ :: ts' => S (count_marks ts')
  end.

(** What [read_sequential n] produces: the placeholders carry [n],
    [n + 1], ... in order, and no literal [%] stands before a literal
    [s] (the two would have been read as a placeholder). *)
Fixpoint consecutive (n : nat) (ts : list token) : bool :=
  match ts with
  | [] => true
  | Lit c :: ts' =>
      negb (Ascii.eqb c "%"
            && match ts' with Lit d :: _ => Ascii.eqb d "s" | _ => false end)
      && consecutive n ts'
  | Mark i :: ts' => (i =? n) && consecutive (S n) ts'
  end.

(** The digit a digit character stands for. *)
Definition digit_value (c : ascii) : nat := nat_of_ascii c - 48.

(** The placeholder [$i] stands before a literal digit [d] and the two
    read as an index up to [k]: [$i d] is [$(10 i + d)]. *)
Definition joins_index (k i : nat) (ts : list token) : bool :=
  match ts with
  | Lit c :: _ => is_digit c && (10 * i + digit_value c <=? k)
  | _ => false
  end.

(** A text whose placeholders the client loop for [k] parameters finds
    again: as [uses_numbered], but a placeholder may stand before a
    digit when the longer index is above [k]. *)
Fixpoint reads_back (k : nat) (ts : list token) : bool :=
  match ts with
  | [] => true
  | Lit c :: ts' =>
      (if Ascii.eqb c "$" then negb (digit_next ts') else true)
      && reads_back k ts'
  | Mark i :: ts' =>
      (1 <=? i) && (i <=? k) && negb (joins_index k i ts') && reads_back k ts'
  end.

(** Some [%s] of the text, the [j]-th when the first counts as [n], is
    followed by a digit [d] with [10 j + d <= k]. *)
Fixpoint marker_joins_digit (k n : nat) (sql : str) : bool :=
  match sql with
  | [] => false
  | c :: rest =>
      match rest with
      | d :: rest' =>
          if Ascii.eqb c "%" && Ascii.eqb d "s"
          then match rest' with
               | x :: _ => is_digit x && (10 * n + digit_value x <=? k)
               | [] => false
               end
               || marker_joins_digit k (S n) rest'
          else marker_joins_digit k n rest
      | [] => false
      end
  end.


(** A query with two sequential placeholders. *)
Definition two_markers : str := lit "SELECT * FROM t WHERE a = %s AND b = %s".

(** One placeholder, followed by the digit 0. *)
Definition limit_marker : str := lit "SELECT * FROM t LIMIT %s0".

(** Ten placeholders, the first one followed by the digit 0. *)
Definition ten_markers : str :=
  lit "SELECT %s0, %s, %s, %s, %s, %s, %s, %s, %s, %s".

End Markers.

(** ** The rest of the package

    The context-manager classes, the module-level query helpers and the
    read-only scope. *)

(** [with obj as v: body] for an object with [__enter__] and [__exit__]
    methods.  The value is [Some] of what the body returned, or [None]
    when [__exit__] answered true and swallowed the body's exception. *)
Module WithStatement.

Definition with_statement {W S A : Type}
           (enter : M W S) (exit : option exn -> M W bool) (body : S -> M W A)
  : M W (option A) :=
  v <<- enter ;;
  try_except (body v)
    (fun a => exit None ;;; ret (Some a))
    (fun e => swallow <<- exit (Some e) ;;
              if swallow then ret None else raise e).

(** The [with] statement let the body's exception pass as [None]. *)
Definition swallowed {A : Type} (r : res (option A)) : bool :=
  match r with
  | Ok None => true
  | _ => false
  end.

End WithStatement.

Import WithStatement.

(** [connection_context] of connection.py: the world is the caller's
    connection stack. *)
Module ConnectionContext.

Section Context.

Variable conn : Type.

(** The object: [self.conn]. *)
Record connection_context := { cc_conn : conn }.

Definition __enter__ (self : connection_context)
  : M (Connection.thread_local conn) conn :=
  fun tl => (Ok (cc_conn self), Connection.set_connection tl (cc_conn self)).

Definition __exit__ (self : connection_context) (exc : option exn)
  : M (Connection.thread_local conn) bool :=
  fun tl => (Ok false, snd (Connection.pop_connection tl)).

(** [with connection_context(c): body] *)
Definition scope {A : Type} (c : conn)
           (body : M (Connection.thread_local conn) A)
  : M (Connection.thread_local conn) (option A) :=
  let self := {| cc_conn := c |} in
  with_statement (__enter__ self) (__exit__ self) (fun _ => body).

End Context.

End ConnectionContext.

(** The module-level helpers of query.py and the cursor's [close],
    [__enter__] and [__exit__].  The world is the cursor object the [with]
    statement holds, with a record of the calls made on it. *)
Module QueryApi.

Import Query.

Section Api.

Variables conn driver_cursor : Type.
Variable connection_cursor : conn -> res driver_cursor.
Variable wormhole_query : str -> list value -> res query_result.
Variable driver_execute : driver_cursor -> str -> list value -> res driver_result.

(** [real_cursor.close()] *)
Variable driver_close : driver_cursor -> res unit.

(** [_is_server_side()] and the caller's connection stack. *)
Variable server_side : bool.
Variable tl : Connection.thread_local conn.

Inductive api_event :=
| Executed (sql : str) (parameters : list value)   (* cur.execute(sql, args) *)
| Closed (rc : driver_cursor).                     (* real_cursor.close() *)

Record api_world := {
  w_cursor : WormholeCursor conn driver_cursor;
  w_events : list api_event
}.

(** [cur.execute(sql, args)] on the cursor of the world. *)
Definition m_execute (sql : str) (args : list value) : M api_world unit :=
  fun w =>
    let events := w_events w ++ [Executed sql args] in
    match execute wormhole_query driver_execute server_side (w_cursor w) sql (Some args) with
    | Ok self' => (Ok tt, {| w_cursor := self'; w_events := events |})
    | Raise e => (Raise e, {| w_cursor := w_cursor w; w_events := events |})
    end.

Definition m_fetchall_dict : M api_world (list row) :=
  fun w =>
    match fetchall_dict (w_cursor w) with
    | Ok (rows, self') => (Ok rows, {| w_cursor := self'; w_events := w_events w |})
    | Raise e => (Raise e, w)
    end.

Definition m_fetchone_dict : M api_world (option row) :=
  fun w =>
    match fetchone_dict (w_cursor w) with
    | Ok (r, self') => (Ok r, {| w_cursor := self'; w_events := w_events w |})
    | Raise e => (Raise e, w)
    end.

Definition m_fetchone : M api_world (option (list value)) :=
  fun w =>
    match fetchone (w_cursor w) with
    | Ok (r, self') => (Ok r, {| w_cursor := self'; w_events := w_events w |})
    | Raise e => (Raise e, w)
    end.

Definition m_rowcount : M api_world Z :=
  fun w => (Ok (rowcount (w_cursor w)), w).

(** [WormholeCursor.close]: closes the driver's cursor when there is
    one. *)
Definition close : M api_world unit :=
  fun w =>
    match _real_cursor (w_cursor w) with
    | Some rc => (driver_close rc,
                  {| w_cursor := w_cursor w; w_events := w_events w ++ [Closed rc] |})
    | None => (Ok tt, w)
    end.

(** [WormholeCursor.__enter__] returns [self]: the body finds it in the
    world. *)
Definition cursor_enter : M api_world unit := ret tt.

(** [WormholeCursor.__exit__]: [self.close(); return False] *)
Definition cursor_exit (exc : option exn) : M api_world bool :=
  close ;;; ret false.

(** [cursor(connection)] *)
Definition cursor (connection0 : option conn) : res (WormholeCursor conn driver_cursor) :=
  __init__ connection_cursor server_side tl connection0.

(** [with cursor() as cur: body]: the value (or exception) and the calls
    made.  A cursor that cannot be constructed raises before the [with]
    statement is entered. *)
Definition with_cursor {A : Type} (body : M api_world A)
  : res (option A) * list api_event :=
  match cursor None with
  | Raise e => (Raise e, [])
  | Ok cur =>
      let (r, w) := with_statement cursor_enter cursor_exit (fun _ => body)
                                   {| w_cursor := cur; w_events := [] |} in
      (r, w_events w)
  end.

(** [query(sql, *args)]: [cur.execute(sql, args); return cur.fetchall_dict()] *)
Definition query (sql : str) (args : list value)
  : res (option (list row)) * list api_event :=
  with_cursor (m_execute sql args ;;; m_fetchall_dict).

(** [query_single(sql, *args)] *)
Definition query_single (sql : str) (args : list value)
  : res (option (option row)) * list api_event :=
  with_cursor (m_execute sql args ;;; m_fetchone_dict).

(** [row[0] if row else None]: [None] for no row and for the empty
    tuple.  Python's [None] result is [VNone]. *)
Definition first_value (r : option (list value)) : value :=
  match r with
  | Some (v :: _) => v
  | _ => VNone
  end.

(** [query_value(sql, *args)] *)
Definition query_value (sql : str) (args : list value)
  : res (option value) * list api_event :=
  with_cursor (m_execute sql args ;;;
               row <<- m_fetchone ;;
               ret (first_value row)).

(** The module-level [execute(sql, *args)]: [return cur.rowcount] *)
Definition execute_statement (sql : str) (args : list value)
  : res (option Z) * list api_event :=
  with_cursor (m_execute sql args ;;; m_rowcount).

End Api.

End QueryApi.

(** [read_only_transaction] of transaction.py. *)
Module ReadOnly.

Import Transaction.

Section Scope.

Variable conn : Type.
Variable db : conn -> oracle.
Variable tl : Connection.thread_local conn.

Definition set_read_only : db_call :=
  Execute (lit "SET TRANSACTION READ ONLY") [].

(** The [except Exception as e] block: [conn.rollback(); raise] *)
Definition read_only_handler (c : conn) (e : exn) : M log (gen_step conn) :=
  call db c Rollback ;;;
  raise e.

Definition read_only_transaction : generator log conn :=
  {| gen_start :=
       match Connection.get_connection tl with
       | None => raise (Exn RuntimeError (lit "No database connection set."))
       | Some c =>
           try_except (call db c Rollback ;;; call db c set_read_only)
             (fun _ => ret (Yielded c))
             (read_only_handler c)
       end;
     gen_next := fun c =>
       try_except (call db c Commit)
         (fun _ => ret Returned)
         (read_only_handler c);
     gen_throw := fun c e => read_only_handler c e
  |}.

End Scope.

End ReadOnly.

(** Words for the statements on the rest of the package. *)
Module Words.

(** The value that the last pair for key [k] gives it, if any pair
    does. *)
Definition last_binding (pairs : list (str * value)) (k : str) : option value :=
  option_map snd
    (find (fun kv => if str_eq_dec (fst kv) k then true else false) (rev pairs)).

End Words.

(** Stand-ins for the outside world used by the statements on the rest
    of the package. *)
Module Doubles.

(** A driver cursor whose [close] works. *)
Definition close_ok (rc : nat) : res unit := Ok tt.

(** A connection whose first rollback meets a conflict and whose later
    calls succeed. *)
Definition conflict_on_first_rollback : nat -> Db.oracle :=
  fun _ l c =>
    match c, l with
    | Db.Rollback, [] => Raise Vocabulary.serialization_error
    | _, _ => Ok []
    end.

(** A connection that answers the install call with handle 7 and the
    invoke call with the result 3. *)
Definition installs_and_runs : nat -> Db.oracle :=
  fun _ l c =>
    match c with
    | Db.Execute s _ =>
        if str_eq_dec s Remote.install_sql
        then Ok [(lit "func_id", VInt 7); (lit "cached", VBool false)]
        else Ok [(lit "success", VBool true); (lit "result", VInt 3)]
    | _ => Ok []
    end.

(** A connection that refuses every statement and accepts rollback and
    commit, and one that refuses only a statement that comes first. *)
Definition refuses_statements : nat -> Db.oracle :=
  fun _ l c =>
    match c with
    | Db.Execute _ _ => Raise Vocabulary.division_error
    | _ => Ok []
    end.

Definition refuses_first_statement : nat -> Db.oracle :=
  fun _ l c =>
    match c, l with
    | Db.Execute _ _, [] => Raise Vocabulary.division_error
    | _, _ => Ok []
    end.

(** A connection whose commit raises [e] and whose other calls
    succeed. *)
Definition commit_raises (e : exn) : nat -> Db.oracle :=
  fun _ l c =>
    match c with
    | Db.Commit => Raise e
    | _ => Ok []
    end.

(** A connection on which the function is installed with handle 7 and
    whose engine reports that the function failed. *)
Definition installs_and_fails : nat -> Db.oracle :=
  fun _ l c =>
    match c with
    | Db.Execute s _ =>
        if str_eq_dec s Remote.install_sql
        then Ok [(lit "func_id", VInt 7)]
        else Ok [(lit "success", VBool false); (lit "error", VStr (lit "boom"))]
    | _ => Ok []
    end.

(** Arguments that do not fit the signature. *)
Definition dumps_bound_misfit (sig : Remote.signature_info) (args : list value)
  : res str :=
  Raise (Exn TypeError (lit "missing a required argument: 'y'")).

(** The function [add_function] before and after its installation with
    handle 7. *)
Definition uninstalled_world : Remote.world :=
  {| Remote.w_log := []; Remote.w_self := Vocabulary.add_function |}.

Definition installed_world : Remote.world :=
  {| Remote.w_log := [];
     Remote.w_self :=
       {| Remote.func_name := Remote.func_name Vocabulary.add_function;
          Remote.func_id := VInt 7;
          Remote._installed := true;
          Remote.source := Remote.source Vocabulary.add_function;
          Remote.signature := Remote.signature Vocabulary.add_function |} |}.

(** A client-mode cursor on driver cursor 0 that has not executed
    anything. *)
Definition client_cursor : Query.WormholeCursor nat nat :=
  {| Query.connection := None;
     Query._real_cursor := Some 0;
     Query._results := None;
     Query._rowcount := (-1)%Z;
     Query._description := None;
     Query._current_index := 0 |}.

(** A driver that answers one row for two columns of the same name. *)
Definition driver_same_name_twice (rc : nat) (sql : str) (args : list value)
  : res Query.driver_result :=
  Ok {| Query.d_description :=
          Some [ {| Query.col_name := lit "a"; Query.col_info := repeat VNone 6 |};
                 {| Query.col_name := lit "a"; Query.col_info := repeat VNone 6 |} ];
        Query.d_fetchall := [ [VInt 1; VInt 2] ];
        Query.d_rowcount := 1%Z |}.

End Doubles.

(** * Properties *)

(** ** The connection stack *)

Module ConnectionFacts.

Import Connection.

Section Facts.

Variable conn : Type.

Lemma top_of_app (s : list conn) (c : conn) :
    nth_error (s ++ [c]) (length (s ++ [c]) - 1) = Some c.
Proof.
    rewrite length_app; simpl.
    replace (length s + 1 - 1) with (length s) by lia.
    rewrite nth_error_app2 by lia.
    now rewrite Nat.sub_diag.
Qed.

Lemma get_connection_app (s : list conn) (c : conn) :
    get_connection (Some (s ++ [c])) = Some c.
Proof.
    unfold get_connection.
    destruct (s ++ [c]) eqn:E.
    - now destruct s.
    - rewrite <- E. apply top_of_app.
Qed.

Lemma pop_connection_app (s : list conn) (c : conn) :
    pop_connection (Some (s ++ [c])) = (Some c, Some s).
Proof.
    unfold pop_connection.
    destruct (s ++ [c]) eqn:E.
    - now destruct s.
    - rewrite <- E. now rewrite top_of_app, removelast_last.
Qed.

Lemma set_connection_handles (tl : thread_local conn) (c : conn) :
    set_connection tl c = Some (handles tl ++ [c]).
Proof. now destruct tl. Qed.

(** Every state of the stack is empty or the result of a push. *)
Lemma stack_cases (tl : thread_local conn) :
    handles tl = [] \/ exists tl' c, tl = set_connection tl' c.
Proof.
    destruct tl as [s|]; [|now left].
    destruct s as [|x s] using rev_ind; [now left|].
    right. exists (Some s), x. reflexivity.
Qed.

End Facts.

(** C9. The connection stack is last-in first-out and every operation is
    total.  After [set_connection tl c], [get_connection] answers [c] and
    leaves the stack alone (it is a pure read), and [pop_connection]
    answers [c] and leaves the handles that were there before the push.
    On a stack without handles (the attribute missing, or an empty list)
    [get_connection] and [pop_connection] answer [None] and change
    nothing.  Every stack is of one of these two shapes.  Pushing [a] then
    [b] on an empty stack, two pops give [b] then [a] and the third gives
    [None]. *)
Theorem connection_stack_lifo :
  forall (conn : Type) (tl : thread_local conn) (a b : conn),
    (* push then read / pop *)
    get_connection (set_connection tl a) = Some a
    /\ fst (pop_connection (set_connection tl a)) = Some a
    /\ handles (snd (pop_connection (set_connection tl a))) = handles tl
    /\ get_connection (snd (pop_connection (set_connection tl a))) = get_connection tl
    (* the empty stack *)
    /\ get_connection (fresh conn) = None
    /\ get_connection (Some (@nil conn)) = None
    /\ pop_connection (fresh conn) = (None, fresh conn)
    /\ pop_connection (Some (@nil conn)) = (None, Some [])
    (* there is no other shape *)
    /\ (handles tl = [] \/ exists tl' c, tl = set_connection tl' c)
    (* the scenario *)
    /\ (let s2 := set_connection (set_connection (fresh conn) a) b in
        let p1 := pop_connection s2 in
        let p2 := pop_connection (snd p1) in
        let p3 := pop_connection (snd p2) in
        fst p1 = Some b /\ fst p2 = Some a /\ fst p3 = None /\ snd p3 = snd p2).
Proof.
  intros conn tl a b.
  rewrite !set_connection_handles, pop_connection_app, get_connection_app.
  simpl fst; simpl snd.
  repeat split; try reflexivity.
  - destruct tl as [s|]; simpl; [|reflexivity].
    destruct s as [|x s]; reflexivity.
  - apply stack_cases.
Qed.

End ConnectionFacts.

(** ** The cursor's fetch operations *)

Module CursorFacts.

Import Query Vocabulary.

Section Facts.

Variables conn driver_cursor : Type.

Local Abbreviation cursor := (WormholeCursor conn driver_cursor).

Lemma advance_at_index (self : cursor) :
  advance self = at_index self (S (_current_index self)).
Proof. unfold advance, at_index. now rewrite Nat.add_1_r. Qed.

Lemma at_index_same (self : cursor) :
  at_index self (_current_index self) = self.
Proof. now destruct self. Qed.

Lemma at_index_twice (self : cursor) (i j : nat) :
  at_index (at_index self i) j = at_index self j.
Proof. reflexivity. Qed.

(** [fetchone] inside the stored rows: the row at the position, as a
    tuple, and the position moves by one. *)
Lemma fetchone_inside (self : cursor) (rs : list row) (r : row) :
  _results self = Some rs ->
  nth_error rs (_current_index self) = Some r ->
  fetchone self = Ok (Some (values r), at_index self (S (_current_index self))).
Proof.
  intros Hrs Hnth. unfold fetchone. rewrite Hrs.
  assert (_current_index self < length rs) as Hlt
      by (apply nth_error_Some; congruence).
  destruct (Nat.leb_spec (length rs) (_current_index self)); [lia|].
  now rewrite Hnth, advance_at_index.
Qed.

(** [fetchone] at or past the end: [None], and nothing moves. *)
Lemma fetchone_outside (self : cursor) (rs : list row) :
  _results self = Some rs ->
  length rs <= _current_index self ->
  fetchone self = Ok (None, self).
Proof.
  intros Hrs Hle. unfold fetchone. rewrite Hrs.
  now destruct (Nat.leb_spec (length rs) (_current_index self)); [|lia].
Qed.

Lemma fetchone_unexecuted (self : cursor) :
  _results self = None -> fetchone self = Ok (None, self).
Proof. intros H. unfold fetchone. now rewrite H. Qed.

(** The loop of [fetchall], started anywhere with enough fuel, appends
    the rest of the rows and stops at the end of the list. *)
Lemma fetchall_loop_spec (rs : list row) :
  forall fuel (self : cursor) acc,
    length rs - _current_index self <= fuel ->
    fetchall_loop fuel rs self acc
    = Ok (acc ++ map values (skipn (_current_index self) rs),
          at_index self (Nat.max (_current_index self) (length rs))).
Proof.
  induction fuel as [|fuel IH]; intros self acc Hfuel; simpl.
  - rewrite skipn_all2 by lia. rewrite Nat.max_l by lia.
    now rewrite app_nil_r, at_index_same.
  - destruct (Nat.ltb_spec (_current_index self) (length rs)) as [Hlt|Hge].
    + destruct (nth_error rs (_current_index self)) as [r|] eqn:Hnth.
      * rewrite IH by (simpl; lia).
        rewrite advance_at_index. simpl _current_index. rewrite at_index_twice.
        rewrite (Nat.max_r (_current_index self)) by lia.
        rewrite (Nat.max_r (S _)) by lia.
        f_equal. f_equal. rewrite <- app_assoc. f_equal.
        rewrite <- (firstn_skipn (_current_index self) rs) in Hnth at 1.
        rewrite nth_error_app2 in Hnth by (rewrite length_firstn; lia).
        rewrite length_firstn, Nat.min_l, Nat.sub_diag in Hnth by lia.
        destruct (skipn (_current_index self) rs) as [|x rest] eqn:Hskip;
          [discriminate|].
        simpl in Hnth. injection Hnth as ->.
        replace (S (_current_index self)) with (1 + _current_index self) by lia.
        rewrite <- skipn_skipn, Hskip. reflexivity.
      * apply nth_error_None in Hnth. lia.
    + rewrite skipn_all2 by lia. rewrite Nat.max_l by lia.
      now rewrite app_nil_r, at_index_same.
Qed.

Lemma fetchall_spec (self : cursor) (rs : list row) :
  _results self = Some rs ->
  fetchall self
  = Ok (map values (skipn (_current_index self) rs),
        at_index self (Nat.max (_current_index self) (length rs))).
Proof.
  intros Hrs. unfold fetchall. rewrite Hrs.
  now rewrite fetchall_loop_spec by lia.
Qed.

Lemma skipn_cons_nth (rs : list row) (i : nat) :
  i < length rs ->
  exists r, nth_error rs i = Some r /\ skipn i rs = r :: skipn (S i) rs.
Proof.
  revert i. induction rs as [|x rs IH]; intros i Hlt; simpl in Hlt; [lia|].
  destruct i as [|i].
  - exists x. now split.
  - destruct (IH i ltac:(lia)) as (r & Hn & Hs). exists r. now split.
Qed.

Lemma fetchone_times_spec :
  forall m (self : cursor) (rs : list row),
    _results self = Some rs ->
    _current_index self <= length rs ->
    fetchone_times m self
    = Ok (map Some (firstn m (map values (skipn (_current_index self) rs)))
            ++ repeat None (m - (length rs - _current_index self)),
          at_index self (Nat.min (_current_index self + m) (length rs))).
Proof.
  induction m as [|m IH]; intros self rs Hrs Hle.
  - simpl. rewrite Nat.add_0_r, Nat.min_l by lia. now rewrite at_index_same.
  - cbn [fetchone_times].
    destruct (Nat.eq_dec (_current_index self) (length rs)) as [Heq|Hne].
    + rewrite (fetchone_outside self Hrs) by lia. cbn [bind fst snd].
      rewrite (IH self rs Hrs Hle). cbn [bind fst snd].
      replace (m - (length rs - _current_index self)) with m by lia.
      replace (S m - (length rs - _current_index self)) with (S m) by lia.
      rewrite skipn_all2 by lia. rewrite !firstn_nil.
      rewrite !Nat.min_r by lia. reflexivity.
    + destruct (@skipn_cons_nth rs (_current_index self)) as (r & Hn & Hs); [lia|].
      rewrite (fetchone_inside self Hrs Hn). cbn [bind fst snd].
      rewrite (IH (at_index self (S (_current_index self))) rs Hrs)
        by (simpl; lia).
      cbn [bind fst snd]. simpl _current_index. rewrite at_index_twice.
      replace (S m - (length rs - _current_index self)) with
          (m - (length rs - S (_current_index self))) by lia.
      replace (S (_current_index self) + m) with (_current_index self + S m) by lia.
      rewrite Hs. reflexivity.
Qed.

Lemma fetchmany_loop_spec :
  forall n (self : cursor) (rs : list row) acc,
    _results self = Some rs ->
    _current_index self <= length rs ->
    fetchmany_loop n self acc
    = Ok (acc ++ firstn n (map values (skipn (_current_index self) rs)),
          at_index self (Nat.min (_current_index self + n) (length rs))).
Proof.
  induction n as [|n IH]; intros self rs acc Hrs Hle.
  - simpl. rewrite Nat.add_0_r, Nat.min_l by lia.
    now rewrite app_nil_r, at_index_same.
  - cbn [fetchmany_loop].
    destruct (Nat.eq_dec (_current_index self) (length rs)) as [Heq|Hne].
    + rewrite (fetchone_outside self Hrs) by lia. cbn [bind].
      rewrite skipn_all2 by lia. simpl map. rewrite firstn_nil, app_nil_r.
      rewrite Nat.min_r by lia. rewrite <- Heq. now rewrite at_index_same.
    + destruct (@skipn_cons_nth rs (_current_index self)) as (r & Hn & Hs); [lia|].
      rewrite (fetchone_inside self Hrs Hn). cbn [bind].
      rewrite (IH (at_index self (S (_current_index self))) rs _ Hrs)
        by (simpl; lia).
      simpl _current_index. rewrite at_index_twice.
      replace (S (_current_index self) + n) with (_current_index self + S n) by lia.
      rewrite Hs. cbn [map firstn]. now rewrite <- app_assoc.
Qed.

Lemma fetchmany_loop_unexecuted :
  forall n (self : cursor) acc,
    _results self = None -> fetchmany_loop n self acc = Ok (acc, self).
Proof.
  intros [|n] self acc H; [reflexivity|].
  cbn [fetchmany_loop]. now rewrite (fetchone_unexecuted self H).
Qed.

End Facts.

End CursorFacts.

Module CursorClaims.

Import Query Vocabulary CursorFacts.

(** What [__init__] leaves in the fields the fetch operations read. *)
Lemma init_fields :
  forall (conn driver_cursor : Type) (connection_cursor : conn -> res driver_cursor)
         (server_side : bool) (tl : Connection.thread_local conn)
         (connection0 : option conn) (self : WormholeCursor conn driver_cursor),
    __init__ connection_cursor server_side tl connection0 = Ok self ->
    _results self = None /\ _rowcount self = (-1)%Z
    /\ _description self = None /\ _current_index self = 0.
Proof.
  intros conn driver_cursor connection_cursor server_side tl connection0 self.
  unfold __init__. destruct server_side; simpl.
  - intros [= <-]. now repeat split.
  - destruct (match connection0 with
              | Some _ => connection0
              | None => Connection.get_connection tl
              end) as [c|]; [|discriminate].
    destruct (connection_cursor c) as [rc|e]; simpl; [|discriminate].
    intros [= <-]. now repeat split.
Qed.

(** [execute], when it returns, has stored a result set and put the read
    position at 0, in both modes. *)
Lemma execute_resets :
  forall (conn driver_cursor : Type)
         (wormhole_query : str -> list value -> res query_result)
         (driver_execute : driver_cursor -> str -> list value -> res driver_result)
         (server_side : bool) (self self' : WormholeCursor conn driver_cursor)
         (sql : str) (parameters : option (list value)),
    execute wormhole_query driver_execute server_side self sql parameters = Ok self' ->
    _current_index self' = 0 /\ exists rs, _results self' = Some rs.
Proof.
  intros conn driver_cursor wq de server_side self self' sql parameters.
  unfold execute. destruct server_side.
  - destruct (wq _ _) as [result|e]; simpl; [|discriminate].
    intros [= <-]. simpl. eauto.
  - destruct (_real_cursor self) as [rc|]; [|discriminate].
    destruct (de rc _ _) as [r|e]; simpl; [|discriminate].
    destruct (d_description r) as [[|d ds]|]; intros [= <-]; simpl; eauto.
Qed.

(** C10. A cursor that was constructed (in either mode, with or without
    an explicit connection) and has not executed anything: [fetchone] and
    [fetchone_dict] return [None], [fetchall], [fetchall_dict] and
    [fetchmany] of any size return the empty list, none of them raises or
    changes the cursor, [description] is [None] and [rowcount] is -1. *)
Theorem fresh_cursor_fetches :
  forall (conn driver_cursor : Type) (connection_cursor : conn -> res driver_cursor)
         (server_side : bool) (tl : Connection.thread_local conn)
         (connection0 : option conn) (self : WormholeCursor conn driver_cursor),
    __init__ connection_cursor server_side tl connection0 = Ok self ->
    fetchone self = Ok (None, self)
    /\ fetchone_dict self = Ok (None, self)
    /\ fetchall self = Ok ([], self)
    /\ fetchall_dict self = Ok ([], self)
    /\ (forall size, fetchmany self size = Ok ([], self))
    /\ description self = None
    /\ rowcount self = (-1)%Z.
Proof.
  intros conn driver_cursor connection_cursor server_side tl connection0 self Hinit.
  destruct (init_fields _ _ _ _ Hinit) as (Hrs & Hrc & Hd & _).
  unfold fetchone, fetchone_dict, fetchall, fetchall_dict, description, rowcount.
  rewrite Hrs, Hrc, Hd. repeat split.
  intros size. unfold fetchmany. now apply fetchmany_loop_unexecuted.
Qed.

Lemma fresh_cursor_fetches_witness :
  exists self : WormholeCursor nat nat,
    __init__ cursor_ok false (Connection.set_connection (Connection.fresh nat) 7) None
    = Ok self
    /\ fetchone self = Ok (None, self)
    /\ fetchall self = Ok ([], self)
    /\ rowcount self = (-1)%Z.
Proof.
  eexists. split; [reflexivity|].
  pose proof (@fresh_cursor_fetches nat nat cursor_ok false
                (Connection.set_connection (Connection.fresh nat) 7) None _ eq_refl)
    as (H1 & _ & H3 & _ & _ & _ & H7).
  exact (conj H1 (conj H3 H7)).
Defined.

(** C6. On a cursor that stores [rs] and stands at a position inside it:
    [fetchall] returns the rows from the position on, each as the tuple of
    its values, in the order of [rs], and leaves the position at the end;
    [m] calls of [fetchone] return the first [min m (remaining)] of those
    same tuples in order and [None] for every call beyond them, leaving
    the position [min (position + m) (length rs)]; [fetchmany] of any size
    returns a prefix of them that is shorter when fewer rows remain; at the
    end of the rows [fetchall] and [fetchmany] return the empty list and
    [fetchone] returns [None].  No call raises. *)
Theorem fetch_in_order :
  forall (conn driver_cursor : Type) (self : WormholeCursor conn driver_cursor)
         (rs : list row),
    _results self = Some rs ->
    _current_index self <= length rs ->
    let remaining := map values (skipn (_current_index self) rs) in
    fetchall self = Ok (remaining, at_index self (length rs))
    /\ (forall m,
          fetchone_times m self
          = Ok (map Some (firstn m remaining)
                  ++ repeat None (m - length remaining),
                at_index self (Nat.min (_current_index self + m) (length rs))))
    /\ (forall size : Z,
          fetchmany self (Some size)
          = Ok (firstn (Z.to_nat size) remaining,
                at_index self (Nat.min (_current_index self + Z.to_nat size) (length rs))))
    /\ fetchall (at_index self (length rs)) = Ok ([], at_index self (length rs))
    /\ fetchone (at_index self (length rs)) = Ok (None, at_index self (length rs))
    /\ (forall size,
          fetchmany (at_index self (length rs)) size
          = Ok ([], at_index self (length rs))).
Proof.
  intros conn driver_cursor self rs Hrs Hle remaining. subst remaining.
  assert (Hend : _results (at_index self (length rs)) = Some rs) by exact Hrs.
  repeat split.
  - rewrite (fetchall_spec self Hrs). now rewrite Nat.max_r by lia.
  - intros m. rewrite (fetchone_times_spec m self Hrs Hle).
    now rewrite length_map, length_skipn.
  - intros size. unfold fetchmany.
    now rewrite (fetchmany_loop_spec (Z.to_nat size) self [] Hrs Hle).
  - rewrite (fetchall_spec _ Hend). simpl _current_index.
    rewrite skipn_all, Nat.max_id. reflexivity.
  - now apply (fetchone_outside _ Hend).
  - intros size. unfold fetchmany.
    rewrite (fetchmany_loop_spec _ _ [] Hend) by (simpl; lia).
    simpl _current_index. rewrite skipn_all, firstn_nil.
    rewrite Nat.min_r by lia. reflexivity.
Qed.

Lemma fetch_in_order_witness :
  fetchall cursor_with_two_rows
  = Ok ([[VInt 1]; [VInt 2]], at_index cursor_with_two_rows 2)
  /\ fetchone_times 3 cursor_with_two_rows
     = Ok ([Some [VInt 1]; Some [VInt 2]; None], at_index cursor_with_two_rows 2)
  /\ fetchmany cursor_with_two_rows (Some 5%Z)
     = Ok ([[VInt 1]; [VInt 2]], at_index cursor_with_two_rows 2).
Proof.
  pose proof (@fetch_in_order nat nat cursor_with_two_rows two_rows eq_refl
                (Nat.le_0_l 2)) as H.
  cbv zeta in H. destruct H as (H1 & H2 & H3 & _).
  exact (conj H1 (conj (H2 3) (H3 5%Z))).
Defined.

(** X2. The position after each fetch operation that moves it: it grows by
    the number of rows returned and stays within the stored rows. *)
Lemma fetch_position_moves :
  forall (conn driver_cursor : Type) (self : WormholeCursor conn driver_cursor)
         (rs : list row),
    _results self = Some rs ->
    _current_index self <= length rs ->
    (forall rows self', fetchall self = Ok (rows, self') ->
       _current_index self' = _current_index self + length rows
       /\ _current_index self' <= length rs)
    /\ (forall size rows self', fetchmany self size = Ok (rows, self') ->
       _current_index self' = _current_index self + length rows
       /\ _current_index self' <= length rs)
    /\ (forall r self', fetchone self = Ok (r, self') ->
       _current_index self'
       = _current_index self + match r with Some _ => 1 | None => 0 end
       /\ _current_index self' <= length rs)
    /\ (forall r self', fetchone_dict self = Ok (r, self') ->
       _current_index self'
       = _current_index self + match r with Some _ => 1 | None => 0 end
       /\ _current_index self' <= length rs).
Proof.
  intros conn driver_cursor self rs Hrs Hle. repeat apply conj.
  - intros rows self'. rewrite (fetchall_spec self Hrs).
    intros [= <- <-]. simpl. rewrite length_map, length_skipn. lia.
  - intros size rows self'. unfold fetchmany.
    rewrite (fetchmany_loop_spec _ self [] Hrs Hle).
    intros [= <- <-]. simpl. rewrite length_firstn, length_map, length_skipn. lia.
  - intros r self'. unfold fetchone. rewrite Hrs.
    destruct (Nat.leb_spec (length rs) (_current_index self)).
    + intros [= <- <-]. lia.
    + destruct (nth_error rs (_current_index self)); [|discriminate].
      intros [= <- <-]. simpl. lia.
  - intros r self'. unfold fetchone_dict. rewrite Hrs.
    destruct (Nat.leb_spec (length rs) (_current_index self)).
    + intros [= <- <-]. lia.
    + destruct (nth_error rs (_current_index self)); [|discriminate].
      intros [= <- <-]. simpl. lia.
Qed.

(** [fetchall_dict] returns the rows from the position on and leaves the
    cursor as it found it. *)
Lemma fetchall_dict_spec :
  forall (conn driver_cursor : Type) (self : WormholeCursor conn driver_cursor),
    fetchall_dict self = Ok (skipn (_current_index self) (stored self), self).
Proof.
  intros conn driver_cursor self. unfold fetchall_dict, stored.
  destruct (_results self); [reflexivity|]. now rewrite skipn_nil.
Qed.

(** C3, evaluated.  In in-engine mode, against an engine that answers two
    rows: after [execute] the position is 0; [fetchall_dict] then returns
    both rows and the position is still 0, not 2, so a second
    [fetchall_dict] returns the same two rows again and a following
    [fetchone] returns the first row.  [fetchall], on the same cursor,
    leaves the position at 2. *)
Theorem fetchall_dict_keeps_position :
  exists c0 c1 : WormholeCursor nat nat,
    __init__ cursor_ok true (Connection.fresh nat) None = Ok c0
    /\ execute engine_two_rows driver_two_rows true c0 (lit "SELECT id FROM t") None
       = Ok c1
    /\ _current_index c1 = 0
    /\ fetchall_dict c1 = Ok (two_rows, c1)
    /\ fetchone c1 = Ok (Some [VInt 1], at_index c1 1)
    /\ fetchall c1 = Ok ([[VInt 1]; [VInt 2]], at_index c1 2).
Proof.
  do 2 eexists. repeat split.
Qed.

(** *** Rows as the driver hands them out *)

Lemma dict_set_fresh (d : row) (k : str) (v : value) :
  ~ In k (keys d) -> dict_set d k v = d ++ [(k, v)].
Proof.
  induction d as [|[k' v'] d IH]; intros Hk; [reflexivity|].
  cbn [dict_set]. destruct (str_eq_dec k' k) as [->|Hne].
  - elim Hk. now left.
  - cbn [app]. f_equal. apply IH. intros Hin. apply Hk. now right.
Qed.

Lemma dict_distinct_from (pairs : list (str * value)) :
  forall acc : row,
    NoDup (keys acc ++ map fst pairs) ->
    fold_left (fun d kv => dict_set d (fst kv) (snd kv)) pairs acc = acc ++ pairs.
Proof.
  induction pairs as [|[k v] pairs IH]; intros acc Hnd.
  - now rewrite app_nil_r.
  - cbn [fold_left fst snd]. cbn [map fst] in Hnd.
    rewrite dict_set_fresh.
    + rewrite IH; [now rewrite <- app_assoc|].
      unfold keys in *. rewrite map_app, <- app_assoc. exact Hnd.
    + apply NoDup_remove_2 in Hnd. intros Hin. apply Hnd.
      apply in_or_app. now left.
Qed.

(** With distinct column names and a value for every column, the stored
    row gives back the driver's tuple. *)
Lemma values_of_zipped (columns : list str) :
  forall r : list value,
    NoDup columns ->
    length r = length columns ->
    values (dict (combine columns r)) = r.
Proof.
  intros r Hnd Hlen. unfold dict.
  assert (Hfst : forall (cs : list str) (vs : list value),
             length vs = length cs ->
             map fst (combine cs vs) = cs /\ map snd (combine cs vs) = vs).
  { induction cs as [|x cs IH]; intros [|y vs] Hl; try discriminate; [now split|].
    injection Hl as Hl. destruct (IH vs Hl) as [H1 H2]. cbn. now rewrite H1, H2. }
  destruct (Hfst columns r Hlen) as [H1 H2].
  rewrite dict_distinct_from by (cbn [keys map app]; now rewrite H1).
  exact H2.
Qed.

(** X4. In external-client mode, when the driver describes distinct columns
    and every row has a value for each, [fetchall] right after [execute]
    returns the driver's rows, in the driver's order. *)
Lemma client_fetchall_returns_driver_rows :
  forall (conn driver_cursor : Type)
         (wormhole_query : str -> list value -> res query_result)
         (driver_execute : driver_cursor -> str -> list value -> res driver_result)
         (self self' : WormholeCursor conn driver_cursor)
         (real_cursor : driver_cursor) (r : driver_result)
         (sql : str) (parameters : list value),
    _real_cursor self = Some real_cursor ->
    driver_execute real_cursor (to_sequential (length parameters) sql) parameters
    = Ok r ->
    (exists d ds, d_description r = Some (d :: ds)
                  /\ NoDup (map col_name (d :: ds))
                  /\ Forall (fun t => length t = length (d :: ds)) (d_fetchall r)) ->
    execute wormhole_query driver_execute false self sql (Some parameters) = Ok self' ->
    fetchall self' = Ok (d_fetchall r, at_index self' (length (d_fetchall r))).
Proof.
  intros conn driver_cursor wq de self self' rc r sql parameters Hrc Hde
         (d & ds & Hdesc & Hnd & Hall).
  unfold execute. rewrite Hrc, Hde. cbn [bind]. rewrite Hdesc.
  intros [= <-].
  assert (Hrows : map values
                      (map (fun row => dict (combine (map col_name (d :: ds)) row))
                           (d_fetchall r))
                  = d_fetchall r).
  { assert (Hcols : length (map col_name (d :: ds)) = length (d :: ds))
      by apply length_map.
    set (cols := map col_name (d :: ds)) in *.
    induction Hall as [|t ts Ht Hts IH]; [reflexivity|].
    cbn [map]. rewrite IH. f_equal.
    apply values_of_zipped; [exact Hnd | now rewrite Hcols]. }
  match goal with
  | |- fetchall ?c = _ =>
      rewrite (@fetchall_spec _ _ c
                 (map (fun row => dict (combine (map col_name (d :: ds)) row))
                      (d_fetchall r)) eq_refl)
  end.
  cbn [_current_index skipn]. rewrite Nat.max_0_l, length_map, Hrows.
  reflexivity.
Qed.

End CursorClaims.

(** ** Substrings *)

Module StrFacts.

Lemma startswith_iff (p s : str) :
  startswith p s = true <-> exists b, s = p ++ b.
Proof.
  revert s. induction p as [|a p IH]; intros s; simpl.
  - split; [intros _; now exists s | reflexivity].
  - destruct s as [|c s].
    + split; [discriminate | intros [b Hb]; discriminate].
    + rewrite andb_true_iff, Ascii.eqb_eq, IH. split.
      * intros [-> [b ->]]. now exists b.
      * intros [b [= -> ->]]. split; [reflexivity | now exists b].
Qed.

Lemma startswith_app (p b : str) : startswith p (p ++ b) = true.
Proof. apply startswith_iff. now exists b. Qed.

(** [sub in s] holds exactly when [s] is some text, then [sub], then some
    text. *)
Lemma contains_iff (sub s : str) :
  contains sub s = true <-> exists a b, s = a ++ sub ++ b.
Proof.
  induction s as [|c s IH]; simpl.
  - rewrite orb_false_r, startswith_iff. split.
    + intros [b Hb]. now exists [], b.
    + intros (a & b & H). destruct a as [|x a]; [now exists b | discriminate].
  - rewrite orb_true_iff, startswith_iff, IH. split.
    + intros [[b Hb] | (a & b & ->)].
      * now exists [], b.
      * now exists (c :: a), b.
    + intros (a & b & H). destruct a as [|x a].
      * left. now exists b.
      * right. injection H as -> ->. now exists a, b.
Qed.

End StrFacts.

(** ** The [with] statement and the world *)

Module ContextlibFacts.

Section Worlds.

Variables W F : Type.
Variable g : generator W F.

Lemma leaving_world (m : M W (gen_step F)) (w : W) :
  snd (leaving m w) = snd (m w).
Proof.
  unfold leaving. destruct (m w) as [[r|e] w']; [reflexivity|].
  now destruct (is_class StopIteration e).
Qed.

Lemma enter_world (w : W) : snd (__enter__ g w) = snd (gen_start g w).
Proof.
  unfold __enter__, mbind. rewrite <- leaving_world.
  destruct (leaving (gen_start g) w) as [[[f|]|e] w']; reflexivity.
Qed.

(** [__exit__] itself does nothing to the world: what changes is what the
    resumed generator changes. *)
Lemma exit_world (f : F) (value : option exn) (w : W) :
  snd (__exit__ g f value w)
  = match value with
    | None => snd (gen_next g f w)
    | Some e => snd (gen_throw g f e w)
    end.
Proof.
  unfold __exit__. destruct value as [e|].
  - unfold try_except. rewrite <- leaving_world.
    destruct (leaving (gen_throw g f e) w) as [[[f'|]|exc] w']; try reflexivity.
    cbn [snd].
    repeat match goal with
           | |- context [if ?b then _ else _] => destruct b
           end; reflexivity.
  - unfold mbind. rewrite <- leaving_world.
    destruct (leaving (gen_next g f) w) as [[[f'|]|exc] w']; reflexivity.
Qed.

(** A quantity of the world that neither the generator nor the body
    changes is the same after the [with] statement, however it ends. *)
Lemma with_keeps {A Q : Type} (q : W -> Q) (body : M W A) :
  (forall w, q (snd (gen_start g w)) = q w) ->
  (forall f w, q (snd (gen_next g f w)) = q w) ->
  (forall f e w, q (snd (gen_throw g f e w)) = q w) ->
  (forall w, q (snd (body w)) = q w) ->
  forall w, q (snd (with_ g body w)) = q w.
Proof.
  intros Hstart Hnext Hthrow Hbody w.
  unfold with_, mbind at 1.
  pose proof (enter_world w) as He. pose proof (Hstart w) as Hs.
  destruct (__enter__ g w) as [[f|e] w1]; cbn [snd] in He; [|now rewrite He].
  unfold try_except. pose proof (Hbody w1) as Hb.
  destruct (body w1) as [[a|e] w2]; cbn [snd] in Hb.
  - unfold mbind. pose proof (exit_world f None w2) as Hx.
    destruct (__exit__ g f None w2) as [[b|e] w3]; unfold ret;
      cbn [snd] in Hx |- *; now rewrite Hx, Hnext, Hb, He.
  - unfold mbind. pose proof (exit_world f (Some e) w2) as Hx.
    destruct (__exit__ g f (Some e) w2) as [[[|]|e'] w3]; unfold ret, raise;
      cbn [snd] in Hx |- *; now rewrite Hx, Hthrow, Hb, He.
Qed.

End Worlds.

Lemma count_snoc (p : event -> bool) (l : log) (e : event) :
  count p (l ++ [e]) = count p l + (if p e then 1 else 0).
Proof. unfold count. rewrite filter_app, length_app. simpl. now destruct (p e). Qed.

End ContextlibFacts.

(** ** Transaction scopes *)

Module TransactionFacts.

Import Transaction StrFacts.

Lemma exn_is_refl (e : exn) : exn_is e e = true.
Proof. unfold exn_is. now destruct (exn_eq_dec e e). Qed.

(** The classification, in words: some condition of the list occurs in
    the lower-cased message. *)
Lemma is_retryable_iff (e : exn) :
  _is_retryable_error e = true
  <-> exists cond a b,
      In cond retryable_conditions /\ lower (exn_str e) = a ++ cond ++ b.
Proof.
  unfold _is_retryable_error. rewrite existsb_exists. split.
  - intros (cond & Hin & Hc). apply contains_iff in Hc as (a & b & Hab).
    now exists cond, a, b.
  - intros (cond & a & b & Hin & Hab). exists cond. split; [exact Hin|].
    apply contains_iff. now exists a, b.
Qed.

Section Facts.

Variable conn : Type.
Variable db : conn -> oracle.
Variable tl : Connection.thread_local conn.
Variable max_retries : Z.
Variable retry_delay : Q.
Variable c : conn.
Hypothesis bound : Connection.get_connection tl = Some c.

Local Abbreviation txn := (transaction db tl max_retries retry_delay).

Lemma turns_pos (a : nat) :
  (Z.of_nat a <= max_retries)%Z -> exists n, turns max_retries a = S n.
Proof.
  intros H. unfold turns.
  exists (Z.to_nat (max_retries - Z.of_nat a)).
  rewrite <- Z2Nat.inj_succ by lia. f_equal. lia.
Qed.

(** The loop reaches its end within the fuel it is given: more fuel than
    [turns attempt] changes nothing. *)
Lemma handler_ext (k1 k2 : nat -> option exn -> M log (gen_step (frame conn)))
      (a : nat) (le : option exn) (e : exn) (l : log) :
  (forall le' l', k1 (a + 1) le' l' = k2 (a + 1) le' l') ->
  handler db max_retries retry_delay k1 c a le e l
  = handler db max_retries retry_delay k2 c a le e l.
Proof.
  intros H. unfold handler, mbind.
  destruct (call db c Rollback l) as [[r|e'] l']; [|reflexivity].
  destruct (_is_retryable_error e); [|reflexivity].
  destruct (Z.of_nat (a + 1) <=? max_retries)%Z; [|reflexivity].
  destruct (sleep _ l') as [[u|e'] l'']; [apply H | reflexivity].
Qed.

Lemma loop_fuel (f1 : nat) :
  forall f2 a le l,
    turns max_retries a <= f1 ->
    turns max_retries a <= f2 ->
    loop db max_retries retry_delay f1 c a le l
    = loop db max_retries retry_delay f2 c a le l.
Proof.
  assert (Hstop : forall f a le l,
             turns max_retries a = 0 ->
             loop db max_retries retry_delay f c a le l = (Ok Returned, l)).
  { intros f a le l H. destruct f as [|f]; [reflexivity|]. cbn [loop].
    unfold turns in H.
    destruct (Z.leb_spec (Z.of_nat a) max_retries); [lia | reflexivity]. }
  induction f1 as [|f1 IH]; intros f2 a le l H1 H2.
  - now rewrite !Hstop by lia.
  - destruct f2 as [|f2]; [now rewrite !Hstop by lia|].
    cbn [loop]. destruct (Z.leb_spec (Z.of_nat a) max_retries) as [Hle|Hgt];
      [|reflexivity].
    unfold try_except. destruct (call db c Rollback l) as [[r|e] l']; [reflexivity|].
    apply handler_ext. intros le' l''. apply IH; unfold turns in *; lia.
Qed.

(** One turn of the loop whose rollback succeeds stops at [yield]. *)
Lemma loop_yields (fuel a : nat) (le : option exn) (l : log) (r : Query.row) :
  (Z.of_nat a <= max_retries)%Z ->
  db c l Rollback = Ok r ->
  loop db max_retries retry_delay (S fuel) c a le l
  = (Ok (Yielded {| f_conn := c; attempt := a; last_error := le |}),
     l ++ [Called Rollback (Ok r)]).
Proof.
  intros Hle Hdb. cbn [loop].
  destruct (Z.leb_spec (Z.of_nat a) max_retries); [|lia].
  unfold try_except, call. now rewrite Hdb.
Qed.

(** Entering the scope: one rollback, then the body's turn. *)
Lemma enter_transaction (l : log) (r : Query.row) :
  (0 <= max_retries)%Z ->
  db c l Rollback = Ok r ->
  __enter__ txn l
  = (Ok {| f_conn := c; attempt := 0; last_error := None |},
     l ++ [Called Rollback (Ok r)]).
Proof.
  intros Hm Hdb. unfold __enter__, mbind, leaving. cbn [gen_start transaction].
  rewrite bound.
  destruct (turns_pos 0) as [n ->]; [simpl; lia|].
  now rewrite (@loop_yields n 0 None l r Hm Hdb).
Qed.

(** An exception is not its own cause. *)
Lemma not_own_cause (e : exn) (cls : exc_class) (msg : str) :
  ExnFrom cls msg e <> e.
Proof.
  revert cls msg. induction e as [c0 m0|c0 m0 e IH]; intros cls msg H.
  - discriminate.
  - injection H as _ _ H. exact (IH _ _ H).
Qed.

Lemma exn_is_cause (e : exn) (cls : exc_class) (msg : str) :
  exn_is (ExnFrom cls msg e) e = false.
Proof.
  unfold exn_is. destruct (exn_eq_dec _ e) as [H|]; [|reflexivity].
  now apply not_own_cause in H.
Qed.

(** The generator re-raises the exception it was thrown: [__exit__]
    answers [False], whatever the class of the exception. *)
Lemma exit_reraised {F : Type} (g : generator log F) (f : F) (e : exn) (l l' : log) :
  gen_throw g f e l = (Raise e, l') ->
  __exit__ g f (Some e) l = (Ok false, l').
Proof.
  intros H. unfold __exit__, try_except, leaving. rewrite H.
  destruct (is_class StopIteration e) eqn:Hstop.
  - cbn [is_class exn_class exn_cause].
    destruct (exc_class_eq_dec RuntimeError RuntimeError); [|congruence].
    rewrite exn_is_cause, exn_is_refl. reflexivity.
  - rewrite exn_is_refl. now destruct (is_class RuntimeError e).
Qed.

(** The generator raises another exception with the thrown one as its
    cause: [__exit__] lets it through. *)
Lemma exit_replaced {F : Type} (g : generator log F) (f : F) (e : exn)
      (cls : exc_class) (msg : str) (l l' : log) :
  cls <> StopIteration -> cls <> RuntimeError ->
  gen_throw g f e l = (Raise (ExnFrom cls msg e), l') ->
  __exit__ g f (Some e) l = (Raise (ExnFrom cls msg e), l').
Proof.
  intros Hs Hr H. unfold __exit__, try_except, leaving. rewrite H.
  unfold is_class at 1. cbn [exn_class].
  destruct (exc_class_eq_dec cls StopIteration); [congruence|].
  unfold is_class at 1. cbn [exn_class].
  destruct (exc_class_eq_dec cls RuntimeError); [congruence|].
  now rewrite exn_is_cause.
Qed.

(** The generator yields again after the throw: [__exit__] raises. *)
Lemma exit_resumed {F : Type} (g : generator log F) (f f' : F) (e : exn) (l l' : log) :
  gen_throw g f e l = (Ok (Yielded f'), l') ->
  __exit__ g f (Some e) l
  = (Raise (Exn RuntimeError (lit "generator didn't stop after throw()")), l').
Proof.
  intros H. unfold __exit__, try_except, leaving. now rewrite H.
Qed.

Lemma exit_returned {F : Type} (g : generator log F) (f : F) (l l' : log) :
  gen_next g f l = (Ok Returned, l') ->
  __exit__ g f None l = (Ok false, l').
Proof.
  intros H. unfold __exit__, mbind, leaving. now rewrite H.
Qed.

(** What [transaction] does with the exception thrown in at [yield]. *)

Lemma throw_nonretryable (a : nat) (le : option exn) (e : exn) (l : log)
      (r : Query.row) :
  _is_retryable_error e = false ->
  db c l Rollback = Ok r ->
  gen_throw txn {| f_conn := c; attempt := a; last_error := le |} e l
  = (Raise e, l ++ [Called Rollback (Ok r)]).
Proof.
  intros He Hdb. cbn [gen_throw transaction f_conn attempt last_error].
  unfold handler, mbind, call. now rewrite Hdb, He.
Qed.

Lemma throw_exhausted (a : nat) (le : option exn) (e : exn) (l : log)
      (r : Query.row) :
  _is_retryable_error e = true ->
  (max_retries < Z.of_nat (a + 1))%Z ->
  db c l Rollback = Ok r ->
  gen_throw txn {| f_conn := c; attempt := a; last_error := le |} e l
  = (Raise (ExnFrom TransactionRetryError
              (lit "Transaction failed after " ++ str_of_int max_retries
                   ++ lit " retries: " ++ exn_str e) e),
     l ++ [Called Rollback (Ok r)]).
Proof.
  intros He Hm Hdb. cbn [gen_throw transaction f_conn attempt last_error].
  unfold handler, mbind, call. rewrite Hdb, He.
  now destruct (Z.leb_spec (Z.of_nat (a + 1)) max_retries); [lia|].
Qed.

Lemma throw_retryable (a : nat) (le : option exn) (e : exn) (l : log)
      (r1 r2 : Query.row) :
  _is_retryable_error e = true ->
  (Z.of_nat (a + 1) <= max_retries)%Z ->
  (0 <= retry_delay)%Q ->
  let delay := (retry_delay * inject_Z (2 ^ (Z.of_nat (a + 1) - 1)))%Q in
  db c l Rollback = Ok r1 ->
  db c (l ++ [Called Rollback (Ok r1); Slept delay]) Rollback = Ok r2 ->
  gen_throw txn {| f_conn := c; attempt := a; last_error := le |} e l
  = (Ok (Yielded {| f_conn := c; attempt := a + 1; last_error := Some e |}),
     l ++ [Called Rollback (Ok r1); Slept delay; Called Rollback (Ok r2)]).
Proof.
  intros He Hm Hd delay Hdb1 Hdb2.
  cbn [gen_throw transaction f_conn attempt last_error].
  unfold handler, mbind, call at 1. rewrite Hdb1, He.
  destruct (Z.leb_spec (Z.of_nat (a + 1)) max_retries); [|lia].
  fold delay. unfold sleep.
  destruct (Qlt_le_dec delay 0) as [Hneg|_].
  - exfalso. apply (Qlt_not_le _ _ Hneg). unfold delay.
    apply Qmult_le_0_compat; [exact Hd|].
    unfold Qle. simpl. rewrite Z.mul_1_r. apply Z.pow_nonneg. lia.
  - destruct (turns_pos (a + 1) Hm) as [n ->].
    assert (Hl : (l ++ [Called Rollback (Ok r1)]) ++ [Slept delay]
                 = l ++ [Called Rollback (Ok r1); Slept delay])
      by now rewrite <- app_assoc.
    rewrite Hl, (@loop_yields n (a + 1) (Some e) _ r2 Hm Hdb2).
    now rewrite <- app_assoc.
Qed.

Lemma next_commits (a : nat) (le : option exn) (l : log) (r : Query.row) :
  db c l Commit = Ok r ->
  gen_next txn {| f_conn := c; attempt := a; last_error := le |} l
  = (Ok Returned, l ++ [Called Commit (Ok r)]).
Proof.
  intros Hdb. cbn [gen_next transaction f_conn]. unfold try_except, call.
  now rewrite Hdb.
Qed.

End Facts.

End TransactionFacts.

Module TransactionClaims.

Import Transaction Vocabulary StrFacts ContextlibFacts TransactionFacts.

(** C4. The conditions are the five of the list below, and
    [_is_retryable_error] answers true exactly when one of them occurs in
    the lower-cased message.  When the body of a
    [transaction] scope raises an exception whose lower-cased message
    contains none of them (the connection being bound, [max_retries] not
    negative and the two rollbacks succeeding), the scope rolls back once
    more and raises that same exception: after the body's own events the
    log gains one rollback and nothing else, so no sleep and no second
    run. *)
Theorem nonretryable_reraised_unchanged :
  retryable_conditions
  = [ lit "serialization failure"; lit "deadlock detected"; lit "cannot execute";
      lit "read-only transaction"; lit "could not serialize" ]
  /\ (forall e : exn,
      _is_retryable_error e = true
      <-> exists cond a b,
          In cond retryable_conditions /\ lower (exn_str e) = a ++ cond ++ b)
  /\ (forall (conn : Type) (db : conn -> oracle) (tl : Connection.thread_local conn)
             (max_retries : Z) (retry_delay : Q) (A : Type) (body : M log A)
             (c : conn) (l0 l1 : log) (e : exn) (r0 r1 : Query.row),
         Connection.get_connection tl = Some c ->
         (0 <= max_retries)%Z ->
         db c l0 Rollback = Ok r0 ->
         body (l0 ++ [Called Rollback (Ok r0)]) = (Raise e, l1) ->
         db c l1 Rollback = Ok r1 ->
         (forall cond a b, In cond retryable_conditions ->
                           lower (exn_str e) <> a ++ cond ++ b) ->
         with_ (transaction db tl max_retries retry_delay) body l0
         = (Raise e, l1 ++ [Called Rollback (Ok r1)])).
Proof.
  split; [reflexivity|]. split; [exact is_retryable_iff|].
  intros conn db tl max_retries retry_delay A body c l0 l1 e r0 r1
         Hbound Hm Hdb0 Hbody Hdb1 Hnone.
  assert (He : _is_retryable_error e = false).
  { destruct (_is_retryable_error e) eqn:E; [|reflexivity].
    apply is_retryable_iff in E as (cond & a & b & Hin & Hab).
    now elim (Hnone cond a b Hin). }
  unfold with_, mbind.
  rewrite (@enter_transaction conn db tl max_retries retry_delay c Hbound l0 r0 Hm Hdb0).
  unfold try_except. rewrite Hbody.
  rewrite (@exit_reraised _ _ _ _ _ _
             (@throw_nonretryable conn db tl max_retries retry_delay c
                                  0 None e l1 r1 He Hdb1)).
  reflexivity.
Qed.

Lemma nonretryable_reraised_unchanged_witness :
  with_ (transaction always_ok one_connection 3 (1 # 10))
        (unit_of_work (fun _ => Raise division_error)) []
  = (Raise division_error,
     [Called Rollback (Ok []); Ran 0; Called Rollback (Ok [])]).
Proof.
  apply (proj2 (proj2 nonretryable_reraised_unchanged) nat always_ok one_connection
               3%Z (1 # 10)%Q value (unit_of_work (fun _ => Raise division_error))
               1 [] [Called Rollback (Ok []); Ran 0] division_error [] []).
  - reflexivity.
  - lia.
  - reflexivity.
  - reflexivity.
  - reflexivity.
  - intros cond a b Hin Hab.
    assert (H : _is_retryable_error division_error = true).
    { apply is_retryable_iff. now exists cond, a, b. }
    vm_compute in H. discriminate.
Defined.

(** X23. A body that completes: the scope commits and returns what the body
    returned. *)
Lemma clean_run_commits :
  forall (conn : Type) (db : conn -> oracle) (tl : Connection.thread_local conn)
         (max_retries : Z) (retry_delay : Q) (A : Type) (body : M log A)
         (c : conn) (l0 l1 : log) (a : A) (r0 r1 : Query.row),
    Connection.get_connection tl = Some c ->
    (0 <= max_retries)%Z ->
    db c l0 Rollback = Ok r0 ->
    body (l0 ++ [Called Rollback (Ok r0)]) = (Ok a, l1) ->
    db c l1 Commit = Ok r1 ->
    with_ (transaction db tl max_retries retry_delay) body l0
    = (Ok (Some a), l1 ++ [Called Commit (Ok r1)]).
Proof.
  intros conn db tl max_retries retry_delay A body c l0 l1 a r0 r1
         Hbound Hm Hdb0 Hbody Hdb1.
  unfold with_, mbind.
  rewrite (@enter_transaction conn db tl max_retries retry_delay c Hbound l0 r0 Hm Hdb0).
  unfold try_except. rewrite Hbody. unfold mbind.
  rewrite (@exit_returned _ _ _ _ _
             (@next_commits conn db tl max_retries retry_delay c 0 None l1 r1 Hdb1)).
  reflexivity.
Qed.

(** X24. A body that raises a retryable exception, with no retry allowed: one
    more rollback, then [TransactionRetryError] caused by the body's
    exception. *)
Lemma no_retry_left :
  forall (conn : Type) (db : conn -> oracle) (tl : Connection.thread_local conn)
         (retry_delay : Q) (A : Type) (body : M log A)
         (c : conn) (l0 l1 : log) (e : exn) (r0 r1 : Query.row),
    Connection.get_connection tl = Some c ->
    db c l0 Rollback = Ok r0 ->
    body (l0 ++ [Called Rollback (Ok r0)]) = (Raise e, l1) ->
    db c l1 Rollback = Ok r1 ->
    _is_retryable_error e = true ->
    with_ (transaction db tl 0 retry_delay) body l0
    = (Raise (ExnFrom TransactionRetryError
                (lit "Transaction failed after 0 retries: " ++ exn_str e) e),
       l1 ++ [Called Rollback (Ok r1)]).
Proof.
  intros conn db tl retry_delay A body c l0 l1 e r0 r1 Hbound Hdb0 Hbody Hdb1 He.
  unfold with_, mbind.
  rewrite (@enter_transaction conn db tl 0%Z retry_delay c Hbound l0 r0
             (Z.le_refl 0) Hdb0).
  unfold try_except. rewrite Hbody.
  assert (Hlt : (0 < Z.of_nat (0 + 1))%Z) by (simpl; lia).
  pose proof (@throw_exhausted conn db tl 0%Z retry_delay c 0 None e l1 r1
                He Hlt Hdb1) as Hthrow.
  rewrite (@exit_replaced _ _ _ _ TransactionRetryError _ _ _
             ltac:(discriminate) ltac:(discriminate) Hthrow).
  reflexivity.
Qed.

(** X25. A body that raises a retryable exception while a retry is allowed:
    the generator rolls back, sleeps the base delay, rolls back again and
    yields a second time.  [__exit__] takes a second yield for an error:
    the body is not run again, nothing is committed, and the caller gets
    [RuntimeError] in place of the body's exception. *)
Lemma retry_is_never_run :
  forall (conn : Type) (db : conn -> oracle) (tl : Connection.thread_local conn)
         (max_retries : Z) (retry_delay : Q) (A : Type) (body : M log A)
         (c : conn) (l0 l1 : log) (e : exn) (r0 r1 r2 : Query.row),
    Connection.get_connection tl = Some c ->
    (1 <= max_retries)%Z ->
    (0 <= retry_delay)%Q ->
    db c l0 Rollback = Ok r0 ->
    body (l0 ++ [Called Rollback (Ok r0)]) = (Raise e, l1) ->
    _is_retryable_error e = true ->
    let delay := (retry_delay * inject_Z (2 ^ 0))%Q in
    db c l1 Rollback = Ok r1 ->
    db c (l1 ++ [Called Rollback (Ok r1); Slept delay]) Rollback = Ok r2 ->
    with_ (transaction db tl max_retries retry_delay) body l0
    = (Raise (Exn RuntimeError (lit "generator didn't stop after throw()")),
       l1 ++ [Called Rollback (Ok r1); Slept delay; Called Rollback (Ok r2)]).
Proof.
  intros conn db tl max_retries retry_delay A body c l0 l1 e r0 r1 r2
         Hbound Hm Hd Hdb0 Hbody He delay Hdb1 Hdb2.
  unfold with_, mbind.
  rewrite (@enter_transaction conn db tl max_retries retry_delay c Hbound l0 r0
             ltac:(lia) Hdb0).
  unfold try_except at 1. rewrite Hbody.
  assert (Hle : (Z.of_nat (0 + 1) <= max_retries)%Z) by (simpl; lia).
  pose proof (@throw_retryable conn db tl max_retries retry_delay c 0 None e l1
                r1 r2 He Hle Hd Hdb1 Hdb2) as Hthrow.
  rewrite (@exit_resumed _ _ _ _ _ _ _ Hthrow).
  reflexivity.
Qed.

(** C1, evaluated.  The unit of work raises "could not serialize ..." on
    its first two runs and would return 42 on the third; the scope allows
    3 retries with a base delay of 1/10 s and every call on the connection
    succeeds.  The work is run once ([Ran 0] is the only run in the log);
    after the rollback, the sleep of 1/10 s and the second rollback the
    scope raises [RuntimeError], and no commit is issued. *)
Theorem retry_stops_after_first_run :
  with_ (transaction always_ok one_connection 3 (1 # 10))
        (unit_of_work conflicts_twice) []
  = (Raise (Exn RuntimeError (lit "generator didn't stop after throw()")),
     [Called Rollback (Ok []); Ran 0; Called Rollback (Ok []);
      Slept (1 # 10); Called Rollback (Ok [])])
  /\ conflicts_twice 0 = Raise serialization_error
  /\ conflicts_twice 1 = Raise serialization_error
  /\ conflicts_twice 2 = Ok (VInt 42)
  /\ _is_retryable_error serialization_error = true.
Proof.
  repeat split; vm_compute; reflexivity.
Qed.

(** Whatever the connection answers, all that [savepoint] does to the log
    is to add statement executions: events of any other kind are as many
    after the scope as the body alone has made them. *)
Lemma savepoint_only_executes :
  forall (conn : Type) (db : conn -> oracle) (tl : Connection.thread_local conn)
         (name : str) (A : Type) (body : M log A) (p : event -> bool),
    (forall sql params r, p (Called (Execute sql params) r) = false) ->
    (forall l, count p (snd (body l)) = count p l) ->
    forall l0, count p (snd (with_ (savepoint db tl name) body l0)) = count p l0.
Proof.
  intros conn db tl name A body p Hp Hbody.
  assert (Hcall : forall c sql l,
             count p (snd (call db c (Execute sql []) l)) = count p l).
  { intros c sql l. unfold call. cbn [snd]. rewrite count_snoc, Hp. lia. }
  assert (Hhandler : forall c e l,
             count p (snd (savepoint_handler db name c e l)) = count p l).
  { intros c e l. unfold savepoint_handler, mbind.
    pose proof (Hcall c (lit "ROLLBACK TO SAVEPOINT " ++ name) l) as H.
    destruct (call db c _ l) as [[r|e'] l']; exact H. }
  apply (@with_keeps log conn (savepoint db tl name) A nat (count p) body).
  - intros l. cbn [gen_start savepoint].
    destruct (Connection.get_connection tl) as [c|]; [|reflexivity].
    unfold try_except. pose proof (Hcall c (lit "SAVEPOINT " ++ name) l) as H.
    destruct (call db c _ l) as [[r|e'] l']; cbn [snd] in H; [exact H|].
    now rewrite Hhandler.
  - intros c l. cbn [gen_next savepoint].
    unfold try_except. pose proof (Hcall c (lit "RELEASE SAVEPOINT " ++ name) l) as H.
    destruct (call db c _ l) as [[r|e'] l']; cbn [snd] in H; [exact H|].
    now rewrite Hhandler.
  - intros c e l. cbn [gen_throw savepoint]. apply Hhandler.
  - exact Hbody.
Qed.

(** C8. With a connection bound and the statements accepted,
    [savepoint(name)] issues [SAVEPOINT name] and runs the body.  When the
    body completes, the scope issues [RELEASE SAVEPOINT name] and returns
    the body's value.  When the body raises, the scope issues
    [ROLLBACK TO SAVEPOINT name] and raises that same exception, whether
    or not its message is one the transaction scope would retry.  In both
    cases the two statements are all the scope adds to the log around the
    body's own events, and the body runs once.  And whatever the
    connection answers, the scope itself never commits, never rolls the
    connection back and never sleeps: the log has as many such events
    after the scope as the body alone has made. *)
Theorem savepoint_releases_or_rolls_back :
  forall (conn : Type) (db : conn -> oracle) (tl : Connection.thread_local conn)
         (name : str) (A : Type) (body : M log A),
    (forall (c : conn) (l0 : log) (r0 : Query.row),
        Connection.get_connection tl = Some c ->
        db c l0 (Execute (lit "SAVEPOINT " ++ name) []) = Ok r0 ->
        let l1 := l0 ++ [Called (Execute (lit "SAVEPOINT " ++ name) []) (Ok r0)] in
        (forall (a : A) (l2 : log) (r2 : Query.row),
            body l1 = (Ok a, l2) ->
            db c l2 (Execute (lit "RELEASE SAVEPOINT " ++ name) []) = Ok r2 ->
            with_ (savepoint db tl name) body l0
            = (Ok (Some a),
               l2 ++ [Called (Execute (lit "RELEASE SAVEPOINT " ++ name) []) (Ok r2)]))
        /\ (forall (e : exn) (l2 : log) (r2 : Query.row),
            body l1 = (Raise e, l2) ->
            db c l2 (Execute (lit "ROLLBACK TO SAVEPOINT " ++ name) []) = Ok r2 ->
            with_ (savepoint db tl name) body l0
            = (Raise e,
               l2 ++ [Called (Execute (lit "ROLLBACK TO SAVEPOINT " ++ name) [])
                             (Ok r2)])))
    /\ (forall l0 : log,
           (forall l, count is_commit_or_rollback (snd (body l))
                      = count is_commit_or_rollback l) ->
           count is_commit_or_rollback (snd (with_ (savepoint db tl name) body l0))
           = count is_commit_or_rollback l0)
    /\ (forall l0 : log,
           (forall l, count is_slept (snd (body l)) = count is_slept l) ->
           count is_slept (snd (with_ (savepoint db tl name) body l0))
           = count is_slept l0).
Proof.
  intros conn db tl name A body. repeat apply conj.
  - intros c l0 r0 Hbound Hdb0 l1.
    assert (Henter : __enter__ (savepoint db tl name) l0 = (Ok c, l1)).
    { unfold __enter__, mbind, leaving. cbn [gen_start savepoint].
      rewrite Hbound. unfold try_except, call. now rewrite Hdb0. }
    split.
    + intros a l2 r2 Hbody Hdb2.
      unfold with_, mbind. rewrite Henter. unfold try_except. rewrite Hbody.
      unfold mbind. erewrite exit_returned; [reflexivity|].
      cbn [gen_next savepoint]. unfold try_except, call. now rewrite Hdb2.
    + intros e l2 r2 Hbody Hdb2.
      unfold with_, mbind. rewrite Henter. unfold try_except at 1. rewrite Hbody.
      erewrite exit_reraised; [reflexivity|].
      cbn [gen_throw savepoint]. unfold savepoint_handler, mbind, call.
      now rewrite Hdb2.
  - intros l0 Hbody. now apply savepoint_only_executes.
  - intros l0 Hbody. now apply savepoint_only_executes.
Qed.

Lemma savepoint_releases_or_rolls_back_witness :
  with_ (savepoint always_ok one_connection (lit "sp1"))
        (unit_of_work (fun _ => Ok (VInt 42))) []
  = (Ok (Some (VInt 42)),
     [Called (Execute (lit "SAVEPOINT sp1") []) (Ok []); Ran 0;
      Called (Execute (lit "RELEASE SAVEPOINT sp1") []) (Ok [])])
  /\ with_ (savepoint always_ok one_connection (lit "sp1"))
           (unit_of_work (fun _ => Raise serialization_error)) []
     = (Raise serialization_error,
        [Called (Execute (lit "SAVEPOINT sp1") []) (Ok []); Ran 0;
         Called (Execute (lit "ROLLBACK TO SAVEPOINT sp1") []) (Ok [])]).
Proof.
  split.
  - apply (proj1 (proj1 (@savepoint_releases_or_rolls_back nat always_ok
                           one_connection (lit "sp1") value
                           (unit_of_work (fun _ => Ok (VInt 42))))
                        1 [] [] eq_refl eq_refl)
                 (VInt 42)
                 [Called (Execute (lit "SAVEPOINT sp1") []) (Ok []); Ran 0] []);
      reflexivity.
  - apply (proj2 (proj1 (@savepoint_releases_or_rolls_back nat always_ok
                           one_connection (lit "sp1") value
                           (unit_of_work (fun _ => Raise serialization_error)))
                        1 [] [] eq_refl eq_refl)
                 serialization_error
                 [Called (Execute (lit "SAVEPOINT sp1") []) (Ok []); Ran 0] []);
      reflexivity.
Defined.

End TransactionClaims.

(** ** Remote functions *)

Module RemoteFacts.

Import Remote Vocabulary.

Lemma count_app (p : event -> bool) (l1 l2 : log) :
  count p (l1 ++ l2) = count p l1 + count p l2.
Proof. unfold count. now rewrite filter_app, length_app. Qed.

Lemma execute_is_not_install (params : list value) (r : res Query.row) :
  is_install (Called (Execute execute_sql params) r) = false
  /\ is_installed_answer (Called (Execute execute_sql params) r) = false.
Proof. split; [reflexivity | now destruct r]. Qed.

Section Facts.

Variable conn : Type.
Variable db : conn -> oracle.
Variable dumps_signature : signature_info -> str.
Variable repr_row : Query.row -> str.
Variable call_args : Type.
Variable dumps_bound : signature_info -> call_args -> res str.

Local Abbreviation call_ := (__call__ db dumps_signature repr_row dumps_bound).
Local Abbreviation run := (invocations db dumps_signature repr_row dumps_bound).

(** The part of [__call__] after the install step leaves the function
    object alone and adds at most the invoke call to the log. *)
Lemma invoke_step (tl : Connection.thread_local conn) (args : call_args) (w : world) :
  let w' := snd (call_ tl args w) in
  _installed (w_self w) = true ->
  w_self w' = w_self w
  /\ exists ev, w_log w' = w_log w ++ ev
                /\ count is_install ev = 0
                /\ count is_installed_answer ev = 0.
Proof.
  intros w' Hinst. subst w'. unfold __call__, mbind, get_self, ret, lift, call, raise.
  rewrite Hinst. cbn [negb].
  destruct (Connection.get_connection tl) as [c|]; cbn [snd].
  2: { split; [reflexivity|]. exists []. now rewrite app_nil_r. }
  destruct (dumps_bound (signature (w_self w)) args) as [kw|e]; cbn [snd].
  2: { split; [reflexivity|]. exists []. now rewrite app_nil_r. }
  destruct (db c (w_log w) (Execute execute_sql [func_id (w_self w); VStr kw]))
    as [result|e] eqn:Hdb; cbn [snd].
  - destruct (negb (truthy (dict_get result (lit "success")))); cbn [snd w_self w_log];
      (split; [reflexivity|]); eexists; (split; [reflexivity|]);
      unfold count; cbn [filter]; now rewrite (proj1 (execute_is_not_install _ _)).
  - split; [reflexivity|]. eexists. split; [reflexivity|].
    unfold count. cbn [filter]. now rewrite (proj1 (execute_is_not_install _ _)).
Qed.

(** One invocation on an installed function: the object is untouched, no
    install is issued. *)
Lemma installed_stays (calls : list (Connection.thread_local conn * call_args)) :
  forall w : world,
    _installed (w_self w) = true ->
    w_self (run calls w) = w_self w
    /\ count is_install (w_log (run calls w)) = count is_install (w_log w)
    /\ count is_installed_answer (w_log (run calls w))
       = count is_installed_answer (w_log w).
Proof.
  induction calls as [|[tl args] calls IH]; intros w Hinst; [now repeat split|].
  cbn [invocations].
  destruct (invoke_step tl args w Hinst) as (Hself & ev & Hlog & Hi & Ha).
  destruct (IH (snd (call_ tl args w))) as (IH1 & IH2 & IH3); [now rewrite Hself|].
  rewrite IH1, IH2, IH3, Hself, Hlog, !count_app, Hi, Ha. now rewrite !Nat.add_0_r.
Qed.

(** One invocation on a function that is not installed yet.  Without a
    connection nothing happens.  With one, the install call is the first
    event; the function object changes only when that call is answered
    with a handle, and then by getting the flag and that handle. *)
Lemma uninstalled_step (tl : Connection.thread_local conn) (args : call_args)
      (w : world) :
  _installed (w_self w) = false ->
  let w' := snd (call_ tl args w) in
  match Connection.get_connection tl with
  | None => w' = w
  | Some c =>
      let install := Execute install_sql
                       [VStr (func_name (w_self w)); VStr (source (w_self w));
                        VStr (dumps_signature (signature (w_self w)))] in
      let r := db c (w_log w) install in
      exists rest,
        w_log w' = w_log w ++ Called install r :: rest
        /\ count is_install rest = 0
        /\ count is_installed_answer rest = 0
        /\ (if is_installed_answer (Called install r)
            then _installed (w_self w') = true
                 /\ exists result, r = Ok result
                                   /\ dict_get result (lit "func_id")
                                      = Some (func_id (w_self w'))
            else w_self w' = w_self w)
  end.
Proof.
  intros Hinst w'. subst w'.
  assert (Hsql : (if str_eq_dec install_sql install_sql then true else false) = true)
    by now destruct (str_eq_dec install_sql install_sql).
  unfold __call__, _install_on_server, mbind, get_self, set_installed, lift,
    call, raise, ret.
  rewrite Hinst. cbn [negb]. rewrite Hinst.
  destruct (Connection.get_connection tl) as [c|]; [|reflexivity].
  destruct (db c (w_log w) _) as [result|e] eqn:Hr.
  2: { exists []. cbn [snd w_log w_self is_installed_answer]. now repeat split. }
  cbn [is_installed_answer]. rewrite Hsql. cbn [andb].
  destruct (dict_get result (lit "func_id")) as [id|] eqn:Hid.
  2: { exists []. cbn [snd w_log w_self]. now repeat split. }
  cbn [w_self w_log signature func_id].
  destruct (dumps_bound (signature (w_self w)) args) as [kw|e]; cbn [snd].
  2: { exists []. cbn [w_log w_self _installed func_id]. repeat split.
       now exists result. }
  match goal with
  | |- context [db c ?l (Execute execute_sql ?ps)] =>
      destruct (db c l (Execute execute_sql ps)) as [answer|e] eqn:Hdb
  end.
  - destruct (negb (truthy (dict_get answer (lit "success"))));
      cbn [snd w_self w_log _installed func_id];
      rewrite <- app_assoc; cbn [app];
      eexists; (split; [reflexivity|]);
      unfold count; cbn [filter];
      rewrite (proj1 (execute_is_not_install _ _)),
              (proj2 (execute_is_not_install _ _));
      repeat split; now exists result.
  - cbn [snd w_self w_log _installed func_id].
    rewrite <- app_assoc; cbn [app].
    eexists. split; [reflexivity|]. unfold count. cbn [filter].
    rewrite (proj1 (execute_is_not_install _ _)). repeat split. now exists result.
Qed.

Lemma count_cons (p : event -> bool) (e : event) (l : log) :
  count p (e :: l) = (if p e then 1 else 0) + count p l.
Proof. unfold count. cbn [filter]. now destruct (p e). Qed.

(** Over any sequence of invocations of a function that starts out not
    installed: the flag is set exactly when one install call has been
    answered with a handle, and no second one ever is; while the flag is
    unset the object is as it was. *)
Lemma answered_at_most_once (calls : list (Connection.thread_local conn * call_args)) :
  forall w : world,
    _installed (w_self w) = false ->
    count is_installed_answer (w_log w) = 0 ->
    if _installed (w_self (run calls w))
    then count is_installed_answer (w_log (run calls w)) = 1
    else count is_installed_answer (w_log (run calls w)) = 0
         /\ w_self (run calls w) = w_self w.
Proof.
  induction calls as [|[tl args] calls IH]; intros w Hinst Hcount.
  - cbn [invocations]. now rewrite Hinst.
  - cbn [invocations].
    pose proof (uninstalled_step tl args w Hinst) as Hstep. cbn zeta in Hstep.
    destruct (Connection.get_connection tl) as [c|].
    2: { rewrite Hstep. now apply IH. }
    destruct Hstep as (rest & Hlog & _ & Hrest & Hflag).
    set (w1 := snd (call_ tl args w)) in *.
    assert (Hc1 : count is_installed_answer (w_log w1)
                  = if is_installed_answer
                         (Called (Execute install_sql
                                    [VStr (func_name (w_self w));
                                     VStr (source (w_self w));
                                     VStr (dumps_signature (signature (w_self w)))])
                                 (db c (w_log w)
                                     (Execute install_sql
                                        [VStr (func_name (w_self w));
                                         VStr (source (w_self w));
                                         VStr (dumps_signature (signature (w_self w)))])))
                    then 1 else 0).
    { rewrite Hlog, count_app, count_cons, Hcount, Hrest. simpl. lia. }
    destruct (is_installed_answer _).
    + destruct Hflag as (Hset & _).
      destruct (installed_stays calls w1 Hset) as (Hself & _ & Hans).
      now rewrite Hself, Hset, Hans.
    + specialize (IH w1). rewrite Hflag in IH. specialize (IH Hinst Hc1).
      exact IH.
Qed.

End Facts.

End RemoteFacts.

Module RemoteClaims.

Import Remote Vocabulary RemoteFacts.

(** C7, as the code has it.  A function object starts registered and not
    installed, and goes through any sequence of invocations.
    - At most one install call is ever answered with a handle, and the
      installed flag is set exactly when one was.
    - Once the flag is set, further invocations leave the object as it is
      (flag and handle included) and issue no install call.
    - While the flag is unset, an invocation made with a connection bound
      issues the install call, with the function's name, source and
      signature, as its first call on the connection, and no second one. *)
Theorem install_answered_once :
  forall (conn : Type) (db : conn -> oracle)
         (dumps_signature : signature_info -> str) (repr_row : Query.row -> str)
         (call_args : Type) (dumps_bound : signature_info -> call_args -> res str)
         (name src : str) (sig : signature_info)
         (calls : list (Connection.thread_local conn * call_args)),
    let run := invocations db dumps_signature repr_row dumps_bound in
    let w1 := run calls {| w_log := []; w_self := remote name src sig |} in
    (if _installed (w_self w1)
     then count is_installed_answer (w_log w1) = 1
     else count is_installed_answer (w_log w1) = 0)
    /\ (forall more,
           _installed (w_self w1) = true ->
           w_self (run more w1) = w_self w1
           /\ count is_install (w_log (run more w1)) = count is_install (w_log w1))
    /\ (forall tl args c,
           _installed (w_self w1) = false ->
           Connection.get_connection tl = Some c ->
           exists r rest,
             w_log (snd (__call__ db dumps_signature repr_row dumps_bound tl args w1))
             = w_log w1
                     ++ Called (Execute install_sql
                                  [VStr name; VStr src; VStr (dumps_signature sig)]) r
                     :: rest
             /\ count is_install rest = 0).
Proof.
  intros conn db dumps_signature repr_row call_args dumps_bound name src sig calls
         run w1.
  pose proof (@answered_at_most_once conn db dumps_signature repr_row call_args
                dumps_bound calls {| w_log := []; w_self := remote name src sig |}
                eq_refl eq_refl) as Hinv.
  fold run in Hinv. fold w1 in Hinv.
  repeat apply conj.
  - destruct (_installed (w_self w1)); [exact Hinv | exact (proj1 Hinv)].
  - intros more Hset.
    destruct (@installed_stays conn db dumps_signature repr_row call_args
                dumps_bound more w1 Hset) as (Hself & Hcount & _).
    now split.
  - intros tl args c Hunset Hbound.
    rewrite Hunset in Hinv. destruct Hinv as (_ & Hself).
    pose proof (@uninstalled_step conn db dumps_signature repr_row call_args
                  dumps_bound tl args w1 Hunset) as Hstep.
    cbn zeta in Hstep. rewrite Hbound in Hstep.
    destruct Hstep as (rest & Hlog & Hrest & _).
    rewrite Hself in Hlog. cbn [w_self remote func_name source signature] in Hlog.
    eexists. exists rest. split; [exact Hlog | exact Hrest].
Qed.

(** Two invocations against a connection that rejects the first install
    call: the second invocation installs, and a third changes nothing. *)
Lemma install_answered_once_witness :
  let run := invocations rejects_first_install dumps_signature_stub repr_row_stub
                         dumps_bound_stub in
  let w1 := run [(one_connection, []); (one_connection, [])]
                {| w_log := []; w_self := add_function |} in
  count is_installed_answer (w_log w1) = 1
  /\ w_self (run [(one_connection, [])] w1) = w_self w1
  /\ count is_install (w_log (run [(one_connection, [])] w1))
     = count is_install (w_log w1).
Proof.
  pose proof (@install_answered_once nat rejects_first_install dumps_signature_stub
                repr_row_stub (list value) dumps_bound_stub
                (lit "add") (lit "def add(x, y): return x + y")
                (signature add_function)
                [(one_connection, []); (one_connection, [])]) as H.
  cbv zeta in H. destruct H as (H1 & H2 & _).
  split; [exact H1|].
  exact (H2 [(one_connection, [])] eq_refl).
Defined.

(** C7 as stated fails: against that connection, the same function object
    issues the install call in its first invocation and again in its
    second. *)
Lemma install_issued_twice :
  count is_install
        (w_log (invocations rejects_first_install dumps_signature_stub repr_row_stub
                            dumps_bound_stub
                            [(one_connection, []); (one_connection, [])]
                            {| w_log := []; w_self := add_function |}))
  = 2.
Proof. vm_compute. reflexivity. Qed.

End RemoteClaims.

(** ** Decimal numerals *)

Module DecimalFacts.

Lemma decimal_digits_fuel (f1 : nat) :
  forall f2 n, n < f1 -> n < f2 -> decimal_digits f1 n = decimal_digits f2 n.
Proof.
  induction f1 as [|f1 IH]; intros f2 n H1 H2; [lia|].
  destruct f2 as [|f2]; [lia|]. cbn [decimal_digits].
  destruct (Nat.ltb_spec n 10) as [Hlt|Hge]; [reflexivity|].
  assert (Hdiv : n / 10 < n) by (apply Nat.div_lt; lia).
  now rewrite (IH f2 (n / 10)) by lia.
Qed.

(** The recursion that [decimal] computes. *)
Lemma decimal_unfold (n : nat) :
  decimal n
  = if n <? 10 then [digit_of n]
    else decimal (n / 10) ++ [digit_of (n mod 10)].
Proof.
  unfold decimal at 1. cbn [decimal_digits].
  destruct (Nat.ltb_spec n 10) as [Hlt|Hge]; [reflexivity|].
  assert (Hdiv : n / 10 < n) by (apply Nat.div_lt; lia).
  unfold decimal.
  now rewrite (@decimal_digits_fuel n (S (n / 10)) (n / 10) Hdiv
                 (Nat.lt_succ_diag_r _)).
Qed.

Lemma digit_of_code (d : nat) : d < 10 -> nat_of_ascii (digit_of d) = 48 + d.
Proof. intros H. unfold digit_of. apply nat_ascii_embedding. lia. Qed.

Lemma digit_of_is_digit (d : nat) : d < 10 -> is_digit (digit_of d) = true.
Proof.
  intros H. unfold is_digit. rewrite digit_of_code by exact H.
  apply andb_true_iff. split; apply Nat.leb_le; lia.
Qed.

Lemma decimal_all_digits (n : nat) : forallb is_digit (decimal n) = true.
Proof.
  induction n as [n IH] using lt_wf_ind. rewrite decimal_unfold.
  destruct (Nat.ltb_spec n 10) as [Hlt|Hge].
  - cbn [forallb]. now rewrite digit_of_is_digit.
  - rewrite forallb_app, IH by (apply Nat.div_lt; lia). cbn [forallb].
    rewrite digit_of_is_digit; [reflexivity|]. apply Nat.mod_upper_bound. lia.
Qed.

Lemma decimal_length (n : nat) :
  length (decimal n) = if n <? 10 then 1 else S (length (decimal (n / 10))).
Proof.
  rewrite decimal_unfold. destruct (n <? 10); [reflexivity|].
  rewrite length_app. simpl. lia.
Qed.

Lemma decimal_nonempty (n : nat) : decimal n <> [].
Proof.
  intros H. apply (f_equal (@length ascii)) in H. rewrite decimal_length in H.
  now destruct (n <? 10).
Qed.

(** A larger number has at least as many digits. *)
Lemma decimal_length_mono (m : nat) :
  forall n, n <= m -> length (decimal n) <= length (decimal m).
Proof.
  induction m as [m IH] using lt_wf_ind. intros n Hle.
  rewrite (decimal_length n), (decimal_length m).
  destruct (Nat.ltb_spec m 10) as [Hm|Hm].
  - destruct (Nat.ltb_spec n 10); [lia|lia].
  - destruct (Nat.ltb_spec n 10) as [Hn|Hn]; [lia|].
    apply le_n_S. apply IH.
    + apply Nat.div_lt; lia.
    + apply Nat.Div0.div_le_mono. exact Hle.
Qed.

(** The number a digit string stands for. *)
Definition digits_value (s : str) : nat :=
  fold_left (fun acc c => acc * 10 + (nat_of_ascii c - 48)) s 0.

Lemma digits_value_decimal (n : nat) : digits_value (decimal n) = n.
Proof.
  induction n as [n IH] using lt_wf_ind. rewrite decimal_unfold.
  destruct (Nat.ltb_spec n 10) as [Hlt|Hge].
  - unfold digits_value. cbn [fold_left]. rewrite digit_of_code by exact Hlt. lia.
  - unfold digits_value in *. rewrite fold_left_app. cbn [fold_left].
    rewrite IH by (apply Nat.div_lt; lia).
    rewrite digit_of_code by (apply Nat.mod_upper_bound; lia).
    pose proof (Nat.div_mod_eq n 10). lia.
Qed.

Lemma decimal_inj (n m : nat) : decimal n = decimal m -> n = m.
Proof.
  intros H. apply (f_equal digits_value) in H.
  now rewrite !digits_value_decimal in H.
Qed.

End DecimalFacts.

(** ** [replace], [replace(..., 1)] and [in] along a text *)

Module ReplaceFacts.

Import StrFacts.

Section Scan.

Variables old new : str.
Hypothesis old_nonempty : old <> [].

Lemma old_length : 0 < length old.
Proof.
  assert (H : forall o : str, o <> [] -> 0 < length o)
    by (intros [|x o] Ho; [congruence | simpl; lia]).
  exact (H old old_nonempty).
Qed.

Lemma startswith_nil : startswith old [] = false.
Proof.
  assert (H : forall o : str, o <> [] -> startswith o [] = false)
    by (intros [|x o] Ho; [congruence | reflexivity]).
  exact (H old old_nonempty).
Qed.

Lemma startswith_shorter (s : str) :
  startswith old s = true -> length (skipn (length old) s) < length s.
Proof.
  intros H. apply startswith_iff in H as [b ->].
  rewrite skipn_app, skipn_all, Nat.sub_diag. cbn [skipn app].
  rewrite length_app. pose proof old_length. lia.
Qed.

Lemma replace_scan_fuel (f1 : nat) :
  forall f2 s, length s <= f1 -> length s <= f2 ->
               replace_scan f1 old new s = replace_scan f2 old new s.
Proof.
  induction f1 as [|f1 IH]; intros f2 s H1 H2.
  - destruct s; [|simpl in H1; lia]. destruct f2; [reflexivity|].
    simpl. now rewrite startswith_nil.
  - destruct f2 as [|f2].
    + destruct s; [|simpl in H2; lia]. simpl. now rewrite startswith_nil.
    + cbn [replace_scan]. destruct (startswith old s) eqn:Hs.
      * apply startswith_shorter in Hs. f_equal. apply IH; lia.
      * destruct s as [|c s]; [reflexivity|]. f_equal. simpl in H1, H2.
        apply IH; lia.
Qed.

Lemma replace_nil : replace old new [] = [].
Proof. reflexivity. Qed.

(** Where [old] does not start, the character is kept. *)
Lemma replace_skip (c : ascii) (s : str) :
  startswith old (c :: s) = false ->
  replace old new (c :: s) = c :: replace old new s.
Proof.
  intros H. unfold replace. cbn [length replace_scan]. now rewrite H.
Qed.

(** Where [old] starts, [new] is written and the scan goes on behind it. *)
Lemma replace_match (s : str) :
  replace old new (old ++ s) = new ++ replace old new s.
Proof.
  unfold replace.
  assert (Hlen : exists n, length (old ++ s) = S n /\ length s <= n).
  { exists (length old - 1 + length s). rewrite length_app.
    pose proof old_length. lia. }
  destruct Hlen as (n & -> & Hn). cbn [replace_scan].
  rewrite startswith_app, skipn_app, skipn_all, Nat.sub_diag. cbn [skipn app].
  f_equal. apply replace_scan_fuel; lia.
Qed.

(** A stretch of characters that differ from the first character of
    [old] is kept. *)
Lemma replace_through (a s : str) :
  (forall c, In c a -> startswith old (c :: s) = false
                       /\ forall s', startswith old (c :: s') = false) ->
  replace old new (a ++ s) = a ++ replace old new s.
Proof.
  induction a as [|c a IH]; intros H; [reflexivity|].
  cbn [app]. rewrite replace_skip by (apply H; now left).
  f_equal. apply IH. intros c' Hin. apply H. now right.
Qed.

Lemma replace_absent (s : str) :
  contains old s = false -> replace old new s = s.
Proof.
  induction s as [|c s IH]; intros H; [reflexivity|].
  cbn [contains] in H. apply orb_false_iff in H as [Hs Hc].
  rewrite replace_skip by exact Hs. now rewrite IH.
Qed.

(** The test [if old in s] before [replace] changes nothing. *)
Lemma guarded_replace (s : str) :
  (if contains old s then replace old new s else s) = replace old new s.
Proof.
  destruct (contains old s) eqn:H; [reflexivity|]. now rewrite replace_absent.
Qed.

Lemma replace_first_skip (c : ascii) (s : str) :
  startswith old (c :: s) = false ->
  replace_first old new (c :: s) = c :: replace_first old new s.
Proof. intros H. cbn [replace_first]. now rewrite H. Qed.

Lemma replace_first_match (s : str) :
  replace_first old new (old ++ s) = new ++ s.
Proof.
  assert (H : forall t : str, startswith old t = true ->
                              replace_first old new t
                              = new ++ skipn (length old) t).
  { intros [|c t] Ht; cbn [replace_first]; now rewrite Ht. }
  rewrite H by apply startswith_app.
  now rewrite skipn_app, skipn_all, Nat.sub_diag.
Qed.

Lemma contains_skip (c : ascii) (s : str) :
  startswith old (c :: s) = false -> contains old (c :: s) = contains old s.
Proof. intros H. cbn [contains]. now rewrite H. Qed.

Lemma contains_match (s : str) : contains old (old ++ s) = true.
Proof.
  assert (H : forall t : str, startswith old t = true -> contains old t = true).
  { intros [|c t] Ht; cbn [contains]; now rewrite Ht. }
  apply H, startswith_app.
Qed.

Lemma replace_first_through (a s : str) :
  (forall c, In c a -> forall s', startswith old (c :: s') = false) ->
  replace_first old new (a ++ s) = a ++ replace_first old new s.
Proof.
  induction a as [|c a IH]; intros H; [reflexivity|].
  cbn [app]. rewrite replace_first_skip by (apply H; now left).
  f_equal. apply IH. intros c' Hin. apply H. now right.
Qed.

Lemma contains_through (a s : str) :
  (forall c, In c a -> forall s', startswith old (c :: s') = false) ->
  contains old (a ++ s) = contains old s.
Proof.
  induction a as [|c a IH]; intros H; [reflexivity|].
  cbn [app]. rewrite contains_skip by (apply H; now left).
  apply IH. intros c' Hin. apply H. now right.
Qed.

End Scan.

(** Induction on a text two characters at a time. *)
Lemma str_ind2 (P : str -> Prop) :
  P [] ->
  (forall c, P [c]) ->
  (forall c d s, P s -> P (d :: s) -> P (c :: d :: s)) ->
  forall s, P s.
Proof.
  intros H0 H1 H2 s.
  assert (H : P s /\ forall c, P (c :: s)).
  { induction s as [|d s [IHs IHc]]; [now split|]. split; [apply IHc|].
    intros c. apply H2; [exact IHs | apply IHc]. }
  exact (proj1 H).
Qed.

End ReplaceFacts.

(** ** The placeholder loops on token lists *)

Module MarkerFacts.

Import Query Markers StrFacts DecimalFacts ReplaceFacts.

(** The text is empty or starts with something that is not a digit. *)
Definition starts_without_digit (s : str) : bool :=
  match s with
  | [] => true
  | c :: _ => negb (is_digit c)
  end.

Lemma numbered_nonempty (i : nat) : numbered i <> [].
Proof. discriminate. Qed.

Lemma sequential_nonempty : sequential <> [].
Proof. discriminate. Qed.

Lemma digit_not_dollar (c : ascii) : is_digit c = true -> Ascii.eqb "$" c = false.
Proof.
  intros H. destruct (Ascii.eqb_spec "$"%char c) as [<-|]; [|reflexivity].
  discriminate.
Qed.

Lemma digit_not_percent (c : ascii) : is_digit c = true -> Ascii.eqb "%" c = false.
Proof.
  intros H. destruct (Ascii.eqb_spec "%"%char c) as [<-|]; [|reflexivity].
  discriminate.
Qed.

Lemma render_mixed_start (f : nat -> bool) (ts : list token) :
  digit_next ts = false -> starts_without_digit (render_mixed f ts) = true.
Proof.
  destruct ts as [|[c|j] ts]; cbn [digit_next render_mixed starts_without_digit].
  - reflexivity.
  - now intros ->.
  - intros _. now destruct (f j).
Qed.



Lemma numeral_absent (i : nat) (r : str) :
  starts_without_digit r = true -> startswith (decimal i) r = false.
Proof.
  intros Hr. pose proof (decimal_all_digits i) as Hd.
  pose proof (@decimal_nonempty i) as Hn.
  destruct (decimal i) as [|d p]; [congruence|].
  destruct r as [|c r]; [reflexivity|].
  cbn [forallb] in Hd. apply andb_true_iff in Hd as [Hd _].
  cbn [startswith starts_without_digit] in *.
  destruct (Ascii.eqb_spec d c) as [<-|]; [|reflexivity].
  now rewrite Hd in Hr.
Qed.

(** Through the digits of a numeral no [$i] starts. *)
Lemma replace_through_numeral (i j : nat) (new s : str) :
  replace (numbered i) new (decimal j ++ s)
  = decimal j ++ replace (numbered i) new s.
Proof.
  apply replace_through.
  intros c Hin.
  pose proof (decimal_all_digits j) as Hd. rewrite forallb_forall in Hd.
  specialize (Hd c Hin). apply digit_not_dollar in Hd.
  unfold numbered. cbn [lit list_ascii_of_string app startswith].
  rewrite Hd. now split.
Qed.


Lemma render_mixed_ext (f g : nat -> bool) (ts : list token) :
  (forall j, In (Mark j) ts -> f j = g j) ->
  render_mixed f ts = render_mixed g ts.
Proof.
  induction ts as [|[c|j] ts IH]; intros H; cbn [render_mixed].
  - reflexivity.
  - f_equal. apply IH. intros j Hj. apply H. now right.
  - rewrite (H j) by now left. f_equal. apply IH. intros j' Hj. apply H. now right.
Qed.


Lemma render_mixed_true (f : nat -> bool) (ts : list token) :
  (forall j, In (Mark j) ts -> f j = true) ->
  render_mixed f ts = render_numbered ts.
Proof.
  induction ts as [|[c|j] ts IH]; intros H; cbn [render_mixed render_numbered].
  - reflexivity.
  - f_equal. apply IH. intros j Hj. apply H. now right.
  - rewrite (H j) by now left. f_equal. apply IH. intros j' Hj. apply H. now right.
Qed.

Lemma render_mixed_false (f : nat -> bool) (ts : list token) :
  (forall j, In (Mark j) ts -> f j = false) ->
  render_mixed f ts = render_sequential ts.
Proof.
  induction ts as [|[c|j] ts IH]; intros H; cbn [render_mixed render_sequential].
  - reflexivity.
  - f_equal. apply IH. intros j Hj. apply H. now right.
  - rewrite (H j) by now left. f_equal. apply IH. intros j' Hj. apply H. now right.
Qed.



(** *** The in-engine loop *)

Lemma consecutive_range (ts : list token) :
  forall n, consecutive n ts = true ->
            forall j, In (Mark j) ts -> n <= j < n + count_marks ts.
Proof.
  induction ts as [|[c|i] ts IH]; intros n Hc j Hin;
    cbn [consecutive count_marks] in *.
  - destruct Hin.
  - apply andb_true_iff in Hc as [_ Hc]. destruct Hin as [H|H]; [discriminate|].
    now apply IH.
  - apply andb_true_iff in Hc as [Hi Hc]. apply Nat.eqb_eq in Hi. subst i.
    destruct Hin as [[= <-]|H]; [lia|]. specialize (IH (S n) Hc j H). lia.
Qed.

Lemma percent_s_absent (c : ascii) (f : nat -> bool) (ts : list token) :
  negb (Ascii.eqb c "%"
        && match ts with Lit d :: _ => Ascii.eqb d "s" | _ => false end) = true ->
  startswith sequential (c :: render_mixed f ts) = false.
Proof.
  intros H. apply negb_true_iff in H.
  change sequential with ["%"%char; "s"%char]. cbn [startswith].
  rewrite Ascii.eqb_sym. destruct (Ascii.eqb c "%"); [|reflexivity].
  cbn [andb] in *. destruct ts as [|[d|j] ts]; cbn [render_mixed].
  - reflexivity.
  - rewrite Ascii.eqb_sym, H. reflexivity.
  - now destruct (f j).
Qed.

Lemma numeral_has_no_percent (j : nat) :
  forall c, In c (decimal j) -> forall s', startswith sequential (c :: s') = false.
Proof.
  intros c Hin s'. pose proof (decimal_all_digits j) as Hd.
  rewrite forallb_forall in Hd. specialize (Hd c Hin).
  apply digit_not_percent in Hd.
  change sequential with ["%"%char; "s"%char]. cbn [startswith]. now rewrite Hd.
Qed.

(** One turn of the in-engine loop, for parameter number [m]: the
    placeholders below [m] are numbered already; the turn numbers the
    placeholder [m] and no other. *)
Lemma server_turn (m : nat) (ts : list token) :
  forall n, consecutive n ts = true -> n <= m ->
    replace_first sequential (numbered m) (render_mixed (fun j => j <? m) ts)
    = render_mixed (fun j => j <? S m) ts.
Proof.
  induction ts as [|[c|i] ts IH]; intros n Hc Hnm; cbn [consecutive] in Hc.
  - reflexivity.
  - apply andb_true_iff in Hc as [Hps Hc]. cbn [render_mixed].
    rewrite replace_first_skip by now apply percent_s_absent.
    now rewrite (IH n).
  - apply andb_true_iff in Hc as [Hi Hc]. apply Nat.eqb_eq in Hi. subst i.
    cbn [render_mixed].
    destruct (Nat.ltb_spec n m) as [Hlt|Hge].
    + destruct (Nat.ltb_spec n (S m)); [|lia].
      change (numbered n) with ("$"%char :: decimal n). cbn [app].
      rewrite replace_first_skip by reflexivity.
      rewrite replace_first_through by apply numeral_has_no_percent.
      now rewrite (IH (S n)) by (assumption || lia).
    + assert (n = m) by lia. subst n.
      destruct (Nat.ltb_spec m (S m)); [|lia].
      rewrite replace_first_match. f_equal.
      apply render_mixed_ext. intros j Hj.
      pose proof (consecutive_range ts (S m) Hc j Hj).
      destruct (Nat.ltb_spec j m); [lia|]. destruct (Nat.ltb_spec j (S m)); [lia|].
      reflexivity.
Qed.

(** The loop test: a [%s] is left exactly when some placeholder is not
    numbered yet. *)
Lemma server_test (m : nat) (ts : list token) :
  forall n, consecutive n ts = true -> n <= m ->
    contains sequential (render_mixed (fun j => j <? m) ts)
    = (m <? n + count_marks ts).
Proof.
  induction ts as [|[c|i] ts IH]; intros n Hc Hnm;
    cbn [consecutive count_marks] in *.
  - cbn [render_mixed contains startswith]. change sequential with ["%"%char; "s"%char].
    cbn [startswith orb]. symmetry. apply Nat.ltb_ge. lia.
  - apply andb_true_iff in Hc as [Hps Hc]. cbn [render_mixed].
    rewrite contains_skip by now apply percent_s_absent.
    now apply IH.
  - apply andb_true_iff in Hc as [Hi Hc]. apply Nat.eqb_eq in Hi. subst i.
    cbn [render_mixed].
    destruct (Nat.ltb_spec n m) as [Hlt|Hge].
    + change (numbered n) with ("$"%char :: decimal n). cbn [app].
      rewrite contains_skip by reflexivity.
      rewrite contains_through by apply numeral_has_no_percent.
      rewrite (IH (S n)) by (assumption || lia).
      f_equal. lia.
    + assert (n = m) by lia. subst n.
      rewrite contains_match. symmetry. apply Nat.ltb_lt. lia.
Qed.

(** The in-engine loop from parameter number [m] on, with fuel for the
    placeholders that are left. *)
Lemma server_loop (n : nat) (ts : list token) :
  consecutive n ts = true ->
  forall fuel m,
    n <= m ->
    n + count_marks ts - m <= fuel ->
    numbered_loop fuel (render_mixed (fun j => j <? m) ts) m = render_numbered ts.
Proof.
  intros Hc.
  assert (Hdone : forall m, n + count_marks ts <= m ->
                            render_mixed (fun j => j <? m) ts = render_numbered ts).
  { intros m Hm. apply render_mixed_true. intros j Hj.
    pose proof (consecutive_range ts n Hc j Hj). apply Nat.ltb_lt. lia. }
  induction fuel as [|fuel IH]; intros m Hnm Hfuel.
  - cbn [numbered_loop]. apply Hdone. lia.
  - cbn [numbered_loop]. change (lit "%s") with sequential.
    change (lit "$" ++ decimal m) with (numbered m).
    rewrite (@server_test m ts n Hc Hnm).
    destruct (Nat.ltb_spec m (n + count_marks ts)) as [Hlt|Hge].
    + rewrite (@server_turn m ts n Hc Hnm). apply IH; lia.
    + now apply Hdone.
Qed.

(** *** Reading a sequential text *)

Lemma read_sequential_step (n : nat) (c d : ascii) (s : str) :
  read_sequential n (c :: d :: s)
  = if Ascii.eqb c "%" && Ascii.eqb d "s"
    then Mark n :: read_sequential (S n) s
    else Lit c :: read_sequential n (d :: s).
Proof. reflexivity. Qed.

Lemma number_markers_step (n : nat) (c d : ascii) (s : str) :
  number_markers n (c :: d :: s)
  = if Ascii.eqb c "%" && Ascii.eqb d "s"
    then numbered n ++ number_markers (S n) s
    else c :: number_markers n (d :: s).
Proof. reflexivity. Qed.

Lemma count_markers_step (c d : ascii) (s : str) :
  count_markers (c :: d :: s)
  = if Ascii.eqb c "%" && Ascii.eqb d "s"
    then S (count_markers s)
    else count_markers (d :: s).
Proof. reflexivity. Qed.

Lemma marker_before_digit_step (c d : ascii) (s : str) :
  marker_before_digit (c :: d :: s)
  = if Ascii.eqb c "%" && Ascii.eqb d "s"
    then match s with x :: _ => is_digit x | [] => false end
         || marker_before_digit s
    else marker_before_digit (d :: s).
Proof. reflexivity. Qed.

Lemma read_render (sql : str) :
  forall n, render_sequential (read_sequential n sql) = sql.
Proof.
  induction sql as [|c|c d s IHs IHd] using str_ind2; intros n.
  - reflexivity.
  - reflexivity.
  - rewrite read_sequential_step.
    destruct (Ascii.eqb_spec c "%") as [->|Hc]; cbn [andb].
    + destruct (Ascii.eqb_spec d "s") as [->|Hd].
      * cbn [render_sequential]. now rewrite IHs.
      * cbn [render_sequential]. now rewrite IHd.
    + cbn [render_sequential]. now rewrite IHd.
Qed.

Lemma read_number (sql : str) :
  forall n, render_numbered (read_sequential n sql) = number_markers n sql.
Proof.
  induction sql as [|c|c d s IHs IHd] using str_ind2; intros n.
  - reflexivity.
  - reflexivity.
  - rewrite read_sequential_step, number_markers_step.
    destruct (Ascii.eqb c "%" && Ascii.eqb d "s").
    + cbn [render_numbered]. now rewrite IHs.
    + cbn [render_numbered]. now rewrite IHd.
Qed.

Lemma read_count (sql : str) :
  forall n, count_marks (read_sequential n sql) = count_markers sql.
Proof.
  induction sql as [|c|c d s IHs IHd] using str_ind2; intros n.
  - reflexivity.
  - reflexivity.
  - rewrite read_sequential_step, count_markers_step.
    destruct (Ascii.eqb c "%" && Ascii.eqb d "s").
    + cbn [count_marks]. now rewrite IHs.
    + cbn [count_marks]. now rewrite IHd.
Qed.

Lemma count_markers_length (sql : str) : count_markers sql <= length sql.
Proof.
  induction sql as [|c|c d s IHs IHd] using str_ind2.
  - reflexivity.
  - simpl. lia.
  - rewrite count_markers_step. cbn [length] in *.
    destruct (Ascii.eqb c "%" && Ascii.eqb d "s"); lia.
Qed.

(** The first token read from a text is a literal [x] exactly when the
    text starts with [x] and not with a placeholder. *)
Lemma read_head (n : nat) (d : ascii) (s : str) :
  exists ts,
    read_sequential n (d :: s)
    = (if Ascii.eqb d "%" && match s with x :: _ => Ascii.eqb x "s" | [] => false end
       then Mark n else Lit d) :: ts.
Proof.
  destruct s as [|x s].
  { exists []. cbn [read_sequential]. now rewrite andb_false_r. }
  rewrite read_sequential_step.
  destruct (Ascii.eqb d "%" && Ascii.eqb x "s"); eexists; reflexivity.
Qed.

Lemma read_consecutive (sql : str) :
  forall n, consecutive n (read_sequential n sql) = true.
Proof.
  induction sql as [|c|c d s IHs IHd] using str_ind2; intros n.
  - reflexivity.
  - cbn [read_sequential consecutive]. now rewrite andb_false_r.
  - rewrite read_sequential_step.
    destruct (Ascii.eqb c "%" && Ascii.eqb d "s") eqn:Hcd.
    + cbn [consecutive]. now rewrite Nat.eqb_refl, IHs.
    + cbn [consecutive]. rewrite IHd, andb_true_r. apply negb_true_iff.
      destruct (Ascii.eqb c "%"); [|reflexivity]. cbn [andb] in *.
      destruct (read_head n d s) as [ts ->].
      destruct (Ascii.eqb d "%" && _); [reflexivity | exact Hcd].
Qed.

Lemma read_digit_next (n : nat) (s : str) :
  digit_next (read_sequential n s)
  = match s with x :: _ => is_digit x | [] => false end.
Proof.
  destruct s as [|d s]; [reflexivity|].
  destruct (read_head n d s) as [ts ->].
  destruct (Ascii.eqb_spec d "%") as [->|Hd]; cbn [andb].
  - now destruct (match s with x :: _ => Ascii.eqb x "s" | [] => false end).
  - reflexivity.
Qed.

(** *** The client loop on placeholders that stand before digits *)

Lemma digits_value_grows (p : str) :
  forall acc, acc <= fold_left (fun a c => a * 10 + (nat_of_ascii c - 48)) p acc.
Proof.
  induction p as [|c p IH]; intros acc; cbn [fold_left]; [lia|].
  specialize (IH (acc * 10 + (nat_of_ascii c - 48))). lia.
Qed.

(** The numeral of [i <= k] does not start the numeral of a smaller [j]
    followed by [r], unless [r] goes on with a digit that makes an index
    up to [k] of [j]. *)
Lemma longer_numeral_absent (k i j : nat) (r : str) :
  j < i -> i <= k ->
  match r with
  | c :: _ => is_digit c && (10 * j + digit_value c <=? k)
  | [] => false
  end = false ->
  startswith (decimal i) (decimal j ++ r) = false.
Proof.
  intros Hlt Hik Hr.
  destruct (startswith (decimal i) (decimal j ++ r)) eqn:H; [|reflexivity].
  exfalso. apply startswith_iff in H as [b Hb].
  apply app_eq_app in Hb as [p [[Hj Hrb]|[Hi Hrp]]].
  - pose proof (@decimal_length_mono i j ltac:(lia)) as Hmono.
    rewrite Hj, length_app in Hmono.
    assert (p = []) by (destruct p; [reflexivity | simpl in Hmono; lia]).
    subst p. rewrite app_nil_r in Hj. apply decimal_inj in Hj. lia.
  - destruct p as [|c p].
    + rewrite app_nil_r in Hi. apply decimal_inj in Hi. lia.
    + subst r. cbn [app] in Hr.
      pose proof (decimal_all_digits i) as Hd.
      rewrite Hi, forallb_app in Hd. apply andb_true_iff in Hd as [_ Hd].
      cbn [forallb] in Hd. apply andb_true_iff in Hd as [Hc _].
      rewrite Hc in Hr. cbn [andb] in Hr. apply Nat.leb_gt in Hr.
      pose proof (digits_value_decimal i) as Hv.
      rewrite Hi in Hv. unfold digits_value in Hv.
      rewrite fold_left_app in Hv. cbn [fold_left] in Hv.
      fold (digits_value (decimal j)) in Hv. rewrite digits_value_decimal in Hv.
      pose proof (digits_value_grows p (j * 10 + (nat_of_ascii c - 48))) as Hg.
      unfold digit_value in Hr. lia.
Qed.

Lemma render_mixed_joins (k j : nat) (f : nat -> bool) (ts : list token) :
  match render_mixed f ts with
  | c :: _ => is_digit c && (10 * j + digit_value c <=? k)
  | [] => false
  end = joins_index k j ts.
Proof.
  destruct ts as [|[c|i] ts]; cbn [render_mixed joins_index]; try reflexivity.
  now destruct (f i).
Qed.

(** One turn of the client loop, for an index [i] up to [k]. *)
Lemma client_turn_back (k i : nat) (ts : list token) :
  1 <= i -> i <= k ->
  reads_back k ts = true ->
  replace (numbered i) sequential (render_mixed (fun j => j <=? i) ts)
  = render_mixed (fun j => j <=? i - 1) ts.
Proof.
  intros Hi Hik. induction ts as [|[c|j] ts IH]; intros Hwf.
  - reflexivity.
  - cbn [reads_back] in Hwf. apply andb_true_iff in Hwf as [Hc Hwf].
    cbn [render_mixed]. rewrite replace_skip.
    + now rewrite IH.
    + unfold numbered. cbn [lit list_ascii_of_string app startswith].
      rewrite Ascii.eqb_sym. destruct (Ascii.eqb c "$"); [|reflexivity].
      cbn [andb]. apply numeral_absent. apply render_mixed_start.
      now apply negb_true_iff.
  - cbn [reads_back] in Hwf.
    apply andb_true_iff in Hwf as [Hwf Hrest].
    apply andb_true_iff in Hwf as [Hwf Hnext].
    apply andb_true_iff in Hwf as [Hj1 Hjk].
    apply Nat.leb_le in Hj1. apply negb_true_iff in Hnext.
    cbn [render_mixed].
    destruct (Nat.leb_spec j i) as [Hle|Hgt].
    + destruct (Nat.eq_dec j i) as [->|Hne].
      * destruct (Nat.leb_spec i (i - 1)); [lia|].
        rewrite replace_match by apply numbered_nonempty. now rewrite IH.
      * destruct (Nat.leb_spec j (i - 1)); [|lia].
        change (numbered j) with ("$"%char :: decimal j). cbn [app].
        rewrite replace_skip.
        -- rewrite replace_through_numeral. now rewrite IH.
        -- unfold numbered. cbn [lit list_ascii_of_string app startswith].
           cbn [Ascii.eqb Bool.eqb andb].
           apply (@longer_numeral_absent k); [lia | exact Hik |].
           now rewrite render_mixed_joins.
    + destruct (Nat.leb_spec j (i - 1)); [lia|].
      change (sequential ++ ?x) with ("%"%char :: "s"%char :: x).
      rewrite replace_skip by reflexivity.
      rewrite replace_skip by reflexivity.
      now rewrite IH.
Qed.

Lemma client_loop_back (k : nat) (ts : list token) :
  reads_back k ts = true ->
  forall i,
    i <= k ->
    sequential_loop i (render_mixed (fun j => j <=? i) ts)
    = render_mixed (fun j => j <=? 0) ts.
Proof.
  intros Hwf. induction i as [|i IH]; intros Hik; [reflexivity|].
  cbn [sequential_loop]. change (lit "$" ++ decimal (S i)) with (numbered (S i)).
  change (lit "%s") with sequential.
  rewrite guarded_replace by apply numbered_nonempty.
  rewrite (@client_turn_back k (S i) ts ltac:(lia) Hik Hwf).
  replace (S i - 1) with i by lia. apply IH. lia.
Qed.

Lemma reads_back_range (k : nat) (ts : list token) :
  reads_back k ts = true -> forall j, In (Mark j) ts -> 1 <= j <= k.
Proof.
  induction ts as [|[c|i] ts IH]; intros Hwf j Hin; cbn [reads_back] in Hwf.
  - destruct Hin.
  - apply andb_true_iff in Hwf as [_ Hwf]. destruct Hin as [H|H]; [discriminate|].
    now apply IH.
  - apply andb_true_iff in Hwf as [Hwf Hrest].
    apply andb_true_iff in Hwf as [Hwf _].
    apply andb_true_iff in Hwf as [H1 Hk].
    apply Nat.leb_le in H1. apply Nat.leb_le in Hk.
    destruct Hin as [[= <-]|H]; [lia|]. now apply IH.
Qed.

(** The client loop finds the placeholders of such a text again. *)
Lemma reads_back_tokens (k : nat) (ts : list token) :
  reads_back k ts = true ->
  to_sequential k (render_numbered ts) = render_sequential ts.
Proof.
  intros Hwf. unfold to_sequential.
  pose proof (reads_back_range k ts Hwf) as Hrange.
  rewrite <- (render_mixed_true (fun j => j <=? k) ts).
  - rewrite (@client_loop_back k ts Hwf k (le_n k)). apply render_mixed_false.
    intros j Hj. apply Nat.leb_gt. specialize (Hrange j Hj). lia.
  - intros j Hj. apply Nat.leb_le. specialize (Hrange j Hj). lia.
Qed.

Lemma marker_joins_digit_step (k n : nat) (c d : ascii) (s : str) :
  marker_joins_digit k n (c :: d :: s)
  = if Ascii.eqb c "%" && Ascii.eqb d "s"
    then match s with
         | x :: _ => is_digit x && (10 * n + digit_value x <=? k)
         | [] => false
         end
         || marker_joins_digit k (S n) s
    else marker_joins_digit k n (d :: s).
Proof. reflexivity. Qed.

Lemma read_joins_index (k j n : nat) (s : str) :
  joins_index k j (read_sequential n s)
  = match s with
    | x :: _ => is_digit x && (10 * j + digit_value x <=? k)
    | [] => false
    end.
Proof.
  destruct s as [|d s]; [reflexivity|].
  destruct (read_head n d s) as [ts ->].
  destruct (Ascii.eqb_spec d "%") as [->|Hd]; cbn [andb].
  - now destruct (match s with x :: _ => Ascii.eqb x "s" | [] => false end).
  - reflexivity.
Qed.

(** A sequential text without numbered placeholders, none of whose [%s]
    joins a following digit to an index up to [k], reads as a text whose
    placeholders the client loop finds again. *)
Lemma read_reads_back (sql : str) :
  forall n k,
    1 <= n ->
    n + count_markers sql <= S k ->
    has_numbered_marker sql = false ->
    marker_joins_digit k n sql = false ->
    reads_back k (read_sequential n sql) = true.
Proof.
  induction sql as [|c|c d s IHs IHd] using str_ind2; intros n k Hn Hk Hnum Hdig.
  - reflexivity.
  - cbn [read_sequential reads_back digit_next]. now destruct (Ascii.eqb c "$").
  - rewrite read_sequential_step. rewrite count_markers_step in Hk.
    rewrite marker_joins_digit_step in Hdig.
    cbn [has_numbered_marker] in Hnum.
    apply orb_false_iff in Hnum as [Hc Hnum].
    apply orb_false_iff in Hnum as [Hd Hnum].
    destruct (Ascii.eqb c "%" && Ascii.eqb d "s") eqn:Hcd.
    + apply orb_false_iff in Hdig as [Hnext Hdig].
      cbn [reads_back]. rewrite read_joins_index, Hnext.
      rewrite (IHs (S n) k) by (assumption || lia).
      destruct (Nat.leb_spec 1 n); [|lia]. destruct (Nat.leb_spec n k); [|lia].
      reflexivity.
    + cbn [reads_back]. rewrite read_digit_next.
      rewrite (IHd n k Hn Hk) by (cbn [has_numbered_marker]; now rewrite ?Hd, ?Hnum).
      rewrite andb_true_r.
      destruct (Ascii.eqb c "$"); [|reflexivity].
      cbn [andb] in Hc. now rewrite Hc.
Qed.

(** No [%s] joins a digit when none stands before a digit, and none
    when the indices have one digit. *)
Lemma no_digit_no_join (sql : str) :
  forall k n, marker_before_digit sql = false -> marker_joins_digit k n sql = false.
Proof.
  induction sql as [|c|c d s IHs IHd] using str_ind2; intros k n Hdig.
  - reflexivity.
  - reflexivity.
  - rewrite marker_before_digit_step in Hdig. rewrite marker_joins_digit_step.
    destruct (Ascii.eqb c "%" && Ascii.eqb d "s").
    + apply orb_false_iff in Hdig as [Hnext Hdig].
      rewrite (IHs k (S n) Hdig), orb_false_r.
      destruct s as [|x s]; [reflexivity|]. now rewrite Hnext.
    + now apply IHd.
Qed.

Lemma one_digit_no_join (sql : str) :
  forall k n, 1 <= n -> k < 10 -> marker_joins_digit k n sql = false.
Proof.
  induction sql as [|c|c d s IHs IHd] using str_ind2; intros k n Hn Hk.
  - reflexivity.
  - reflexivity.
  - rewrite marker_joins_digit_step.
    destruct (Ascii.eqb c "%" && Ascii.eqb d "s").
    + rewrite (IHs k (S n)) by lia. rewrite orb_false_r.
      destruct s as [|x s]; [reflexivity|].
      destruct (Nat.leb_spec (10 * n + digit_value x) k); [lia|].
      apply andb_false_r.
    + now apply IHd.
Qed.

(** The in-engine loop numbers the placeholders from the left. *)
Lemma to_numbered_spec (sql : str) : to_numbered sql = number_markers 1 sql.
Proof.
  unfold to_numbered.
  pose proof (read_consecutive sql 1) as Hc.
  assert (Hstart : render_mixed (fun j => j <? 1) (read_sequential 1 sql) = sql).
  { rewrite render_mixed_false; [apply read_render|].
    intros j Hj. pose proof (consecutive_range _ _ Hc j Hj). apply Nat.ltb_ge. lia. }
  rewrite <- Hstart at 2.
  rewrite (@server_loop 1 (read_sequential 1 sql) Hc (length sql) 1 (le_n 1)).
  - apply read_number.
  - rewrite read_count. pose proof (count_markers_length sql). lia.
Qed.

End MarkerFacts.

Module MarkerClaims.

Import Query Markers MarkerFacts.



(** C2, as the code has it.  The in-engine loop turns every SQL text
    into the same text with its [%s] placeholders replaced, from the left,
    by [$1], [$2], ...  When the text has no numbered placeholder and none
    of its [%s], the [j]-th from the left, is directly followed by a digit
    [d] with [10 j + d] up to the number [k] of placeholders, the
    external-client loop, run with [k] parameters, gives the original text
    back.  That is so in particular when no [%s] is directly followed by a
    digit, and when the text has fewer than ten placeholders. *)
Theorem sequential_round_trip :
  (forall sql : str, to_numbered sql = number_markers 1 sql)
  /\ (forall sql : str,
         has_numbered_marker sql = false ->
         marker_joins_digit (count_markers sql) 1 sql = false ->
         to_sequential (count_markers sql) (to_numbered sql) = sql)
  /\ (forall sql : str,
         marker_before_digit sql = false \/ count_markers sql < 10 ->
         marker_joins_digit (count_markers sql) 1 sql = false).
Proof.
  repeat apply conj.
  - exact to_numbered_spec.
  - intros sql Hnum Hdig.
    rewrite to_numbered_spec, <- read_number.
    rewrite reads_back_tokens.
    + apply read_render.
    + apply read_reads_back; [lia | lia | exact Hnum | exact Hdig].
  - intros sql [Hdig|Hten].
    + now apply no_digit_no_join.
    + apply one_digit_no_join; [lia | exact Hten].
Qed.

Lemma sequential_round_trip_witness :
  (to_numbered two_markers = lit "SELECT * FROM t WHERE a = $1 AND b = $2"
   /\ to_sequential 2 (to_numbered two_markers) = two_markers)
  /\ (to_numbered limit_marker = lit "SELECT * FROM t LIMIT $10"
      /\ to_sequential 1 (to_numbered limit_marker) = limit_marker).
Proof.
  pose proof sequential_round_trip as (Hnumbered & Hback & Hjoin).
  split; split.
  - exact (Hnumbered two_markers).
  - exact (Hback two_markers eq_refl (Hjoin two_markers (or_introl eq_refl))).
  - exact (Hnumbered limit_marker).
  - apply (Hback limit_marker eq_refl). apply Hjoin. right. vm_compute. lia.
Defined.

(** C2 as stated fails.  [ten_markers] has ten [%s] and no numbered
    placeholder; its first [%s] is followed by [0].  The in-engine loop
    writes [$10] for "[$1] then [0]", the client loop reads it as the
    tenth placeholder, and the round trip loses the [0]. *)
Lemma round_trip_loses_digit :
  count_markers ten_markers = 10
  /\ has_numbered_marker ten_markers = false
  /\ to_numbered ten_markers
     = lit "SELECT $10, $2, $3, $4, $5, $6, $7, $8, $9, $10"
  /\ to_sequential 10 (to_numbered ten_markers)
     = lit "SELECT %s, %s, %s, %s, %s, %s, %s, %s, %s, %s"
  /\ to_sequential 10 (to_numbered ten_markers) <> ten_markers.
Proof.
  repeat split; try (vm_compute; reflexivity).
  vm_compute. discriminate.
Qed.

End MarkerClaims.

(** * Properties of the rest of the package *)

(** ** [connection_context] *)

Module ConnectionContextFacts.

Import Connection ConnectionFacts.

(** X1. [with connection_context(c): body] pushes [c], runs the body and
    pops once, whether the body returns or raises; the body's value comes
    back and the body's exception is raised again, never swallowed.  When
    the body leaves the stack as it found it, the stack after the scope
    holds the handles it held before, and [get_connection] answers what
    it answered before. *)
Theorem connection_context_restores :
  forall (conn : Type) (tl tl' : thread_local conn) (c : conn)
         (A : Type) (body : M (thread_local conn) A) (r : res A),
    body (set_connection tl c) = (r, tl') ->
    ConnectionContext.scope c body tl
    = (match r with Ok a => Ok (Some a) | Raise e => Raise e end,
       snd (pop_connection tl'))
    /\ (handles tl' = handles tl ++ [c] ->
        snd (ConnectionContext.scope c body tl) = Some (handles tl)
        /\ get_connection (snd (ConnectionContext.scope c body tl))
           = get_connection tl).
Proof.
  intros conn tl tl' c A body r Hbody.
  assert (Hscope : ConnectionContext.scope c body tl
                   = (match r with Ok a => Ok (Some a) | Raise e => Raise e end,
                      snd (pop_connection tl'))).
  { unfold ConnectionContext.scope, with_statement, mbind, try_except,
      ConnectionContext.__enter__, ConnectionContext.__exit__.
    cbn [ConnectionContext.cc_conn]. rewrite Hbody. now destruct r. }
  split; [exact Hscope|].
  intros Hbalanced. rewrite Hscope. cbn [snd].
  assert (Htl' : tl' = Some (handles tl ++ [c])).
  { destruct tl' as [s|]; cbn [handles] in Hbalanced.
    - now rewrite Hbalanced.
    - destruct (handles tl); discriminate. }
  rewrite Htl', pop_connection_app. cbn [snd]. split; [reflexivity|].
  destruct tl as [[|x s]|]; reflexivity.
Qed.

Lemma connection_context_restores_witness :
  ConnectionContext.scope 2 (fun tl => (Raise Vocabulary.division_error, tl))
                          Vocabulary.one_connection
  = (@Raise (option value) Vocabulary.division_error, Some [1])
  /\ get_connection
       (snd (ConnectionContext.scope
               2 (fun tl => (@Raise value Vocabulary.division_error, tl))
               Vocabulary.one_connection))
     = Some 1.
Proof.
  pose proof (@connection_context_restores
                nat Vocabulary.one_connection
                (set_connection Vocabulary.one_connection 2) 2 value
                (fun tl => (Raise Vocabulary.division_error, tl))
                (Raise Vocabulary.division_error) eq_refl) as [H1 H2].
  split; [exact H1 | exact (proj2 (H2 eq_refl))].
Defined.

End ConnectionContextFacts.

(** ** More on the cursor *)

Module CursorMore.

Import Query Vocabulary CursorFacts CursorClaims.

Lemma fetch_position_moves_witness :
  _current_index (at_index cursor_with_two_rows 2)
  = _current_index cursor_with_two_rows + length [[VInt 1]; [VInt 2]]
  /\ _current_index (at_index cursor_with_two_rows 2) <= length two_rows.
Proof.
  exact (proj1 (@fetch_position_moves nat nat cursor_with_two_rows two_rows
                  eq_refl (Nat.le_0_l 2))
               [[VInt 1]; [VInt 2]] (at_index cursor_with_two_rows 2) eq_refl).
Defined.

(** X3. In in-engine mode, when the engine answers a query, [execute]
    succeeds whatever state the cursor was in, and right after it
    [fetchall] returns the engine's rows, in the engine's order, each as
    the tuple of its values; [fetchall_dict] returns the rows themselves;
    [rowcount] is the engine's [nrows], or the number of rows when the
    answer has none; [description] names the keys of the first row, and
    is [None] when there is no row. *)
Theorem engine_rows_come_back :
  forall (conn driver_cursor : Type)
         (wormhole_query : str -> list value -> res query_result)
         (driver_execute : driver_cursor -> str -> list value -> res driver_result)
         (self : WormholeCursor conn driver_cursor)
         (sql : str) (parameters : list value) (result : query_result),
    wormhole_query (to_numbered sql) parameters = Ok result ->
    exists self',
      execute wormhole_query driver_execute true self sql (Some parameters) = Ok self'
      /\ fetchall self'
         = Ok (map values (rows result), at_index self' (length (rows result)))
      /\ fetchall_dict self' = Ok (rows result, self')
      /\ rowcount self'
         = match nrows result with
           | Some n => n
           | None => Z.of_nat (length (rows result))
           end
      /\ option_map (map col_name) (description self')
         = option_map keys (hd_error (rows result)).
Proof.
  intros conn driver_cursor wq de self sql parameters result Hwq.
  unfold execute. rewrite Hwq. cbn [bind]. eexists. split; [reflexivity|].
  repeat apply conj.
  - match goal with
    | |- fetchall ?c = _ => rewrite (@fetchall_spec _ _ c (rows result) eq_refl)
    end.
    cbn [_current_index skipn]. now rewrite Nat.max_0_l.
  - reflexivity.
  - reflexivity.
  - unfold description. cbn [_description].
    destruct (rows result) as [|first_row rest]; [reflexivity|].
    cbn [option_map hd_error]. f_equal. rewrite map_map. cbn [col_name].
    now rewrite map_id.
Qed.

Lemma engine_rows_come_back_witness :
  exists self',
    execute engine_two_rows driver_two_rows true cursor_with_two_rows
            (lit "SELECT id FROM t WHERE id < %s") (Some [VInt 3])
    = Ok self'
    /\ fetchall self' = Ok ([[VInt 1]; [VInt 2]], at_index self' 2)
    /\ rowcount self' = 2%Z.
Proof.
  destruct (@engine_rows_come_back nat nat engine_two_rows driver_two_rows
              cursor_with_two_rows (lit "SELECT id FROM t WHERE id < %s")
              [VInt 3] _ eq_refl) as (self' & H1 & H2 & _ & H4 & _).
  exists self'. exact (conj H1 (conj H2 H4)).
Defined.

Lemma client_fetchall_returns_driver_rows_witness :
  exists self',
    execute engine_two_rows driver_two_rows false Doubles.client_cursor
            (lit "SELECT id FROM t WHERE id < $1") (Some [VInt 3])
    = Ok self'
    /\ fetchall self' = Ok ([[VInt 1]; [VInt 2]], at_index self' 2).
Proof.
  eexists. split; [reflexivity|].
  apply (@client_fetchall_returns_driver_rows nat nat engine_two_rows driver_two_rows
           Doubles.client_cursor _ 0 _
           (lit "SELECT id FROM t WHERE id < $1") [VInt 3] eq_refl eq_refl).
  - eexists. eexists. split; [reflexivity|]. split.
    + repeat constructor. intros [].
    + repeat constructor.
  - reflexivity.
Defined.

(** X6. The tuple accessors and the dict accessors read the same rows:
    [fetchone] returns the values of the row [fetchone_dict] returns and
    moves the cursor to the same place, and [fetchall] returns the values
    of the rows [fetchall_dict] returns. *)
Theorem tuple_and_dict_accessors_agree :
  forall (conn driver_cursor : Type) (self : WormholeCursor conn driver_cursor),
    fetchone self
    = match fetchone_dict self with
      | Ok (r, self') => Ok (option_map values r, self')
      | Raise e => Raise e
      end
    /\ fetchall self
       = match fetchall_dict self with
         | Ok (rows, _) =>
             Ok (map values rows,
                 at_index self (Nat.max (_current_index self) (length (stored self))))
         | Raise e => Raise e
         end.
Proof.
  intros conn driver_cursor self. split.
  - unfold fetchone, fetchone_dict. destruct (_results self) as [rs|]; [|reflexivity].
    destruct (length rs <=? _current_index self); [reflexivity|].
    now destruct (nth_error rs (_current_index self)).
  - rewrite fetchall_dict_spec. unfold stored.
    destruct (_results self) as [rs|] eqn:Hrs.
    + now rewrite (fetchall_spec self Hrs).
    + unfold fetchall. rewrite Hrs, skipn_nil. cbn [map length].
      now rewrite Nat.max_0_r, at_index_same.
Qed.

Lemma firstn_add_skipn {A : Type} (n m : nat) :
  forall l : list A, firstn (n + m) l = firstn n l ++ firstn m (skipn n l).
Proof.
  induction n as [|n IH]; intros l; [reflexivity|].
  destruct l as [|x l].
  - cbn [Nat.add firstn skipn app]. now rewrite firstn_nil.
  - cbn [Nat.add firstn skipn app]. now rewrite IH.
Qed.

(** X7. Fetching [n] rows and then [m] rows returns, put together, what
    fetching [n + m] rows at once returns, and leaves the cursor in the
    same place. *)
Theorem fetchmany_in_two_steps :
  forall (conn driver_cursor : Type) (self : WormholeCursor conn driver_cursor)
         (rs : list row) (n m : Z),
    _results self = Some rs ->
    _current_index self <= length rs ->
    (0 <= n)%Z -> (0 <= m)%Z ->
    (r1 <- fetchmany self (Some n) ;;
     r2 <- fetchmany (snd r1) (Some m) ;;
     Ok (fst r1 ++ fst r2, snd r2))
    = fetchmany self (Some (n + m)%Z).
Proof.
  intros conn driver_cursor self rs n m Hrs Hle Hn Hm. unfold fetchmany.
  rewrite Z2Nat.inj_add by assumption.
  rewrite !(fetchmany_loop_spec _ self [] Hrs Hle). cbn [bind fst snd app].
  set (i := _current_index self) in *. set (a := Z.to_nat n). set (b := Z.to_nat m).
  assert (Hrs' : _results (at_index self (Nat.min (i + a) (length rs))) = Some rs)
    by exact Hrs.
  rewrite (fetchmany_loop_spec _ _ [] Hrs') by (cbn [_current_index at_index]; lia).
  cbn [bind fst snd app _current_index at_index]. rewrite at_index_twice.
  f_equal. f_equal.
  - rewrite firstn_add_skipn. f_equal. f_equal.
    rewrite skipn_map, skipn_skipn.
    destruct (Nat.le_gt_cases (i + a) (length rs)) as [H|H].
    + rewrite Nat.min_l by lia. f_equal. f_equal. lia.
    + rewrite Nat.min_r by lia. now rewrite !skipn_all2 by lia.
  - f_equal. lia.
Qed.

Lemma fetchmany_in_two_steps_witness :
  (r1 <- fetchmany cursor_with_two_rows (Some 1%Z) ;;
   r2 <- fetchmany (snd r1) (Some 4%Z) ;;
   Ok (fst r1 ++ fst r2, snd r2))
  = fetchmany cursor_with_two_rows (Some 5%Z).
Proof.
  exact (@fetchmany_in_two_steps nat nat cursor_with_two_rows two_rows 1%Z 4%Z
           eq_refl (Nat.le_0_l 2) ltac:(discriminate) ltac:(discriminate)).
Defined.

End CursorMore.

(** ** Rows built from the driver's columns *)

Module ClientRows.

Import Query Vocabulary Words Remote.

Lemma keys_dict_set (d : row) (k : str) (v : value) :
  forall k', In k' (keys (dict_set d k v)) <-> In k' (keys d) \/ k' = k.
Proof.
  induction d as [|[k0 v0] d IH]; intros k'; cbn [dict_set keys map fst In].
  - intuition.
  - destruct (str_eq_dec k0 k) as [->|Hne]; cbn [keys map fst In].
    + intuition.
    + unfold keys in IH. rewrite IH. intuition.
Qed.

Lemma nodup_dict_set (d : row) (k : str) (v : value) :
  NoDup (keys d) -> NoDup (keys (dict_set d k v)).
Proof.
  induction d as [|[k0 v0] d IH]; intros Hnd; cbn [dict_set keys map fst].
  - constructor; [intros [] | constructor].
  - destruct (str_eq_dec k0 k) as [->|Hne]; [exact Hnd|].
    cbn [keys map fst] in *. inversion Hnd as [|? ? Hnotin Hnd']; subst.
    constructor; [|now apply IH].
    intros Hin. apply keys_dict_set in Hin as [Hin|Heq]; [now apply Hnotin | congruence].
Qed.

Lemma dict_get_set (d : row) (k : str) (v : value) (k' : str) :
  dict_get (dict_set d k v) k'
  = if str_eq_dec k k' then Some v else dict_get d k'.
Proof.
  induction d as [|[k0 v0] d IH]; cbn [dict_set dict_get].
  - destruct (str_eq_dec k k'); reflexivity.
  - destruct (str_eq_dec k0 k) as [->|Hne]; cbn [dict_get].
    + destruct (str_eq_dec k k'); reflexivity.
    + destruct (str_eq_dec k0 k') as [->|Hne'].
      * destruct (str_eq_dec k k'); [congruence | reflexivity].
      * exact IH.
Qed.

Lemma find_in_app {A : Type} (f : A -> bool) (l1 l2 : list A) :
  find f (l1 ++ l2)
  = match find f l1 with Some x => Some x | None => find f l2 end.
Proof.
  induction l1 as [|x l1 IH]; [reflexivity|].
  cbn [app find]. now destruct (f x).
Qed.

Lemma dict_fold_facts (pairs : list (str * value)) :
  forall acc : row,
    NoDup (keys acc) ->
    let d := fold_left (fun d kv => dict_set d (fst kv) (snd kv)) pairs acc in
    NoDup (keys d)
    /\ (forall k, In k (keys d) -> In k (keys acc) \/ In k (map fst pairs))
    /\ (forall k, dict_get d k
                  = match last_binding pairs k with
                    | Some v => Some v
                    | None => dict_get acc k
                    end).
Proof.
  induction pairs as [|[k0 v0] pairs IH]; intros acc Hnd; cbn zeta.
  - cbn [fold_left]. repeat split; [exact Hnd | now left].
  - cbn [fold_left fst snd].
    destruct (IH (dict_set acc k0 v0) (nodup_dict_set acc k0 v0 Hnd))
      as (H1 & H2 & H3).
    repeat split; [exact H1 | |].
    + intros k Hk. destruct (H2 k Hk) as [Hin|Hin].
      * apply keys_dict_set in Hin as [Hin | ->]; [now left | right; now left].
      * right. now right.
    + intros k. rewrite H3. unfold last_binding. cbn [rev].
      rewrite find_in_app.
      destruct (find _ (rev pairs)) as [kv|]; [reflexivity|].
      cbn [find fst option_map snd]. rewrite dict_get_set.
      destruct (str_eq_dec k0 k); reflexivity.
Qed.

(** X5. In external-client mode [execute] stores one dict a driver row,
    zipped with the column names.  Such a row never holds a column name
    twice and holds no name the description does not have; where the
    driver describes two columns of the same name, the stored row keeps
    one entry for them, with the later column's value. *)
Theorem client_rows_have_distinct_columns :
  forall (conn driver_cursor : Type)
         (wormhole_query : str -> list value -> res query_result)
         (driver_execute : driver_cursor -> str -> list value -> res driver_result)
         (self self' : WormholeCursor conn driver_cursor)
         (real_cursor : driver_cursor) (r : driver_result)
         (sql : str) (parameters : list value) (d : column) (ds : list column),
    _real_cursor self = Some real_cursor ->
    driver_execute real_cursor (to_sequential (length parameters) sql) parameters
    = Ok r ->
    d_description r = Some (d :: ds) ->
    execute wormhole_query driver_execute false self sql (Some parameters) = Ok self' ->
    let columns := map col_name (d :: ds) in
    stored self' = map (fun t => dict (combine columns t)) (d_fetchall r)
    /\ forall t : list value,
        NoDup (keys (dict (combine columns t)))
        /\ incl (keys (dict (combine columns t))) columns
        /\ forall k, dict_get (dict (combine columns t)) k
                     = last_binding (combine columns t) k.
Proof.
  intros conn driver_cursor wq de self self' rc r sql parameters d ds
         Hrc Hde Hdesc. unfold execute. rewrite Hrc, Hde. cbn [bind]. rewrite Hdesc.
  intros [= <-]. cbv zeta. split; [reflexivity|].
  intros t. set (columns := map col_name (d :: ds)). unfold dict.
  destruct (@dict_fold_facts (combine columns t) [] (NoDup_nil _)) as (H1 & H2 & H3).
  repeat split.
  - exact H1.
  - intros k Hk. destruct (H2 k Hk) as [[]|Hin].
    apply in_map_iff in Hin as ((k1 & v1) & <- & Hin).
    now apply in_combine_l in Hin.
  - intros k. rewrite H3. now destruct (last_binding (combine columns t) k).
Qed.

Lemma client_rows_have_distinct_columns_witness :
  exists self',
    execute engine_two_rows Doubles.driver_same_name_twice false Doubles.client_cursor
            (lit "SELECT 1 AS a, 2 AS a") (Some [])
    = Ok self'
    /\ stored self' = [ [(lit "a", VInt 2)] ].
Proof.
  eexists. split; [reflexivity|].
  exact (proj1 (@client_rows_have_distinct_columns
                  nat nat engine_two_rows Doubles.driver_same_name_twice
                  Doubles.client_cursor _ 0 _ (lit "SELECT 1 AS a, 2 AS a") []
                  _ _ eq_refl eq_refl eq_refl eq_refl)).
Defined.

End ClientRows.

(** ** The module-level query helpers *)

Module QueryApiFacts.

Import Query Vocabulary CursorClaims QueryApi.

Section Facts.

Variables conn driver_cursor : Type.
Variable connection_cursor : conn -> res driver_cursor.
Variable wormhole_query : str -> list value -> res query_result.
Variable driver_execute : driver_cursor -> str -> list value -> res driver_result.
Variable driver_close : driver_cursor -> res unit.
Variable server_side : bool.
Variable tl : Connection.thread_local conn.

Local Abbreviation world := (api_world conn driver_cursor).
Local Abbreviation with_cursor_ :=
  (@with_cursor conn driver_cursor connection_cursor driver_close server_side tl).
Local Abbreviation execute_ :=
  (execute wormhole_query driver_execute server_side).
Local Abbreviation m_execute_ :=
  (m_execute wormhole_query driver_execute server_side).

(** What closing the cursor answers, and the calls it makes. *)
Definition closing (cur : WormholeCursor conn driver_cursor) : res unit :=
  match _real_cursor cur with
  | Some rc => driver_close rc
  | None => Ok tt
  end.

Definition closes (cur : WormholeCursor conn driver_cursor)
  : list (api_event driver_cursor) :=
  match _real_cursor cur with
  | Some rc => [Closed rc]
  | None => []
  end.

Lemma execute_keeps_real_cursor (self self' : WormholeCursor conn driver_cursor)
      (sql : str) (parameters : option (list value)) :
  execute_ self sql parameters = Ok self' ->
  _real_cursor self' = _real_cursor self.
Proof.
  unfold execute. destruct server_side.
  - destruct (wormhole_query _ _); cbn [bind]; [|discriminate].
    now intros [= <-].
  - destruct (_real_cursor self) as [rc|] eqn:Hrc; [|discriminate].
    destruct (driver_execute rc _ _) as [r|]; cbn [bind]; [|discriminate].
    destruct (d_description r) as [[|d ds]|]; intros [= <-]; reflexivity.
Qed.

(** The [with] statement around a body that leaves the driver's cursor
    in place: the cursor is closed once, after the body, on both ways
    out; an exception of [close] takes the place of the body's outcome. *)
Lemma with_cursor_outcome {A : Type} (body : M world A)
      (cur0 : WormholeCursor conn driver_cursor) (r : res A) (w1 : world) :
  cursor connection_cursor server_side tl None = Ok cur0 ->
  body {| w_cursor := cur0; w_events := [] |} = (r, w1) ->
  _real_cursor (w_cursor w1) = _real_cursor cur0 ->
  with_cursor_ body
  = (match closing cur0 with
     | Raise e' => Raise e'
     | Ok _ => match r with Ok a => Ok (Some a) | Raise e => Raise e end
     end,
     w_events w1 ++ closes cur0).
Proof.
  intros Hcur Hbody Hrc. unfold with_cursor. rewrite Hcur.
  unfold with_statement, cursor_enter, cursor_exit, mbind, try_except, ret.
  rewrite Hbody. unfold closing, closes, close, raise.
  destruct r as [a|e]; rewrite Hrc;
    destruct (_real_cursor cur0) as [rc|]; cbn [w_events];
    try (destruct (driver_close rc) as [[]|e']; cbn [w_events]);
    rewrite ?app_nil_r; reflexivity.
Qed.

Lemma with_cursor_unbuilt {A : Type} (body : M world A) (e : exn) :
  cursor connection_cursor server_side tl None = Raise e ->
  with_cursor_ body = (Raise e, []).
Proof. intros H. unfold with_cursor. now rewrite H. Qed.

(** The body [cur.execute(sql, args); fetch] of the helpers. *)
Lemma execute_then {A : Type} (fetch : M world A)
      (cur0 : WormholeCursor conn driver_cursor) (sql : str) (args : list value) :
  (m_execute_ sql args ;;; fetch) {| w_cursor := cur0; w_events := [] |}
  = match execute_ cur0 sql (Some args) with
    | Ok cur1 => fetch {| w_cursor := cur1; w_events := [Executed driver_cursor sql args] |}
    | Raise e => (Raise e, {| w_cursor := cur0;
                              w_events := [Executed driver_cursor sql args] |})
    end.
Proof.
  unfold mbind, m_execute. cbn [w_cursor w_events app].
  now destruct (execute_ cur0 sql (Some args)).
Qed.

(** A helper whose fetch, right after [execute], returns [value_of] of
    the cursor and keeps the driver's cursor: the helper's outcome and
    calls. *)
Lemma helper_outcome {A : Type} (fetch : M world A)
      (value_of : WormholeCursor conn driver_cursor -> A) :
  (forall (cur1 : WormholeCursor conn driver_cursor) (ev : list (api_event driver_cursor)),
      _current_index cur1 = 0 ->
      (exists rs, _results cur1 = Some rs) ->
      exists cur2 : WormholeCursor conn driver_cursor,
        fetch {| w_cursor := cur1; w_events := ev |}
        = (Ok (value_of cur1), {| w_cursor := cur2; w_events := ev |})
        /\ _real_cursor cur2 = _real_cursor cur1) ->
  forall (cur0 : WormholeCursor conn driver_cursor) (sql : str) (args : list value),
    cursor connection_cursor server_side tl None = Ok cur0 ->
    with_cursor_ (m_execute_ sql args ;;; fetch)
    = (match closing cur0 with
       | Raise e' => Raise e'
       | Ok _ =>
           match execute_ cur0 sql (Some args) with
           | Ok cur1 => Ok (Some (value_of cur1))
           | Raise e => Raise e
           end
       end,
       Executed driver_cursor sql args :: closes cur0).
Proof.
  intros Hfetch cur0 sql args Hcur.
  pose proof (execute_then fetch cur0 sql args) as Hbody.
  destruct (execute_ cur0 sql (Some args)) as [cur1|e] eqn:Hexec.
  - destruct (execute_resets _ _ _ _ _ _ Hexec) as [Hzero Hrs].
    destruct (Hfetch cur1 [Executed driver_cursor sql args] Hzero Hrs)
      as (cur2 & Hf & Hrc).
    rewrite Hf in Hbody.
    rewrite (with_cursor_outcome _ Hcur Hbody); [reflexivity|].
    cbn [w_cursor]. rewrite Hrc. exact (execute_keeps_real_cursor _ _ _ Hexec).
  - rewrite (with_cursor_outcome _ Hcur Hbody); reflexivity.
Qed.

Lemma fetchall_dict_after_execute :
  forall (cur1 : WormholeCursor conn driver_cursor) (ev : list (api_event driver_cursor)),
    _current_index cur1 = 0 ->
    (exists rs, _results cur1 = Some rs) ->
    exists cur2 : WormholeCursor conn driver_cursor,
      m_fetchall_dict {| w_cursor := cur1; w_events := ev |}
      = (Ok (stored cur1), {| w_cursor := cur2; w_events := ev |})
      /\ _real_cursor cur2 = _real_cursor cur1.
Proof.
  intros cur1 ev Hzero [rs Hrs]. exists cur1. split; [|reflexivity].
  unfold m_fetchall_dict, fetchall_dict, stored. cbn [w_cursor w_events].
  now rewrite Hrs, Hzero.
Qed.

Lemma fetchone_dict_after_execute :
  forall (cur1 : WormholeCursor conn driver_cursor) (ev : list (api_event driver_cursor)),
    _current_index cur1 = 0 ->
    (exists rs, _results cur1 = Some rs) ->
    exists cur2 : WormholeCursor conn driver_cursor,
      m_fetchone_dict {| w_cursor := cur1; w_events := ev |}
      = (Ok (hd_error (stored cur1)), {| w_cursor := cur2; w_events := ev |})
      /\ _real_cursor cur2 = _real_cursor cur1.
Proof.
  intros cur1 ev Hzero [rs Hrs].
  unfold m_fetchone_dict, fetchone_dict, stored. cbn [w_cursor w_events].
  rewrite Hrs, Hzero. destruct rs as [|r rs]; cbn; eexists; split; reflexivity.
Qed.

Lemma first_value_after_execute :
  forall (cur1 : WormholeCursor conn driver_cursor) (ev : list (api_event driver_cursor)),
    _current_index cur1 = 0 ->
    (exists rs, _results cur1 = Some rs) ->
    exists cur2 : WormholeCursor conn driver_cursor,
      (row <<- @m_fetchone conn driver_cursor ;; ret (first_value row))
        {| w_cursor := cur1; w_events := ev |}
      = (Ok (first_value (option_map values (hd_error (stored cur1)))),
         {| w_cursor := cur2; w_events := ev |})
      /\ _real_cursor cur2 = _real_cursor cur1.
Proof.
  intros cur1 ev Hzero [rs Hrs].
  unfold mbind, m_fetchone, fetchone, stored, ret. cbn [w_cursor w_events].
  rewrite Hrs, Hzero. destruct rs as [|r rs]; cbn; eexists; split; reflexivity.
Qed.

Lemma rowcount_after_execute :
  forall (cur1 : WormholeCursor conn driver_cursor) (ev : list (api_event driver_cursor)),
    _current_index cur1 = 0 ->
    (exists rs, _results cur1 = Some rs) ->
    exists cur2 : WormholeCursor conn driver_cursor,
      m_rowcount {| w_cursor := cur1; w_events := ev |}
      = (Ok (rowcount cur1), {| w_cursor := cur2; w_events := ev |})
      /\ _real_cursor cur2 = _real_cursor cur1.
Proof. intros cur1 ev _ _. exists cur1. now split. Qed.

Local Abbreviation query_ :=
  (query connection_cursor wormhole_query driver_execute driver_close server_side tl).
Local Abbreviation query_single_ :=
  (query_single connection_cursor wormhole_query driver_execute driver_close
                server_side tl).
Local Abbreviation query_value_ :=
  (query_value connection_cursor wormhole_query driver_execute driver_close
               server_side tl).
Local Abbreviation execute_statement_ :=
  (execute_statement connection_cursor wormhole_query driver_execute driver_close
                     server_side tl).

(** X8. When its cursor can be constructed, [query] executes the
    statement on it, returns every row the cursor then stores, as dicts
    and in order, and closes the cursor.  An exception of [execute]
    reaches the caller as it is; an exception of [close] reaches the
    caller in place of the rows or of the first exception. *)
Theorem query_returns_stored_rows :
  forall (cur0 : WormholeCursor conn driver_cursor) (sql : str) (args : list value),
    cursor connection_cursor server_side tl None = Ok cur0 ->
    query_ sql args
    = (match closing cur0 with
       | Raise e' => Raise e'
       | Ok _ =>
           match execute_ cur0 sql (Some args) with
           | Ok cur1 => Ok (Some (stored cur1))
           | Raise e => Raise e
           end
       end,
       Executed driver_cursor sql args :: closes cur0).
Proof.
  intros cur0 sql args Hcur. unfold query.
  exact (@helper_outcome _ _ _ fetchall_dict_after_execute cur0 sql args Hcur).
Qed.

(** X9. The module-level [execute] returns the cursor's [rowcount]
    after the statement, under the same conditions. *)
Theorem execute_statement_returns_rowcount :
  forall (cur0 : WormholeCursor conn driver_cursor) (sql : str) (args : list value),
    cursor connection_cursor server_side tl None = Ok cur0 ->
    execute_statement_ sql args
    = (match closing cur0 with
       | Raise e' => Raise e'
       | Ok _ =>
           match execute_ cur0 sql (Some args) with
           | Ok cur1 => Ok (Some (rowcount cur1))
           | Raise e => Raise e
           end
       end,
       Executed driver_cursor sql args :: closes cur0).
Proof.
  intros cur0 sql args Hcur. unfold execute_statement.
  exact (@helper_outcome _ _ _ rowcount_after_execute cur0 sql args Hcur).
Qed.

(** X10. [query_single] returns the first of the rows [query] returns
    for the same statement, [None] when there is none, and raises when
    [query] raises. *)
Theorem query_single_is_first_of_query :
  forall (sql : str) (args : list value),
    fst (query_single_ sql args)
    = match fst (query_ sql args) with
      | Ok (Some rows) => Ok (Some (hd_error rows))
      | Ok None => Ok None
      | Raise e => Raise e
      end.
Proof.
  intros sql args. unfold query, query_single.
  destruct (cursor connection_cursor server_side tl None) as [cur0|e] eqn:Hcur.
  - rewrite (@helper_outcome _ _ _ fetchall_dict_after_execute cur0 sql args Hcur).
    rewrite (@helper_outcome _ _ _ fetchone_dict_after_execute cur0 sql args Hcur).
    cbn [fst]. destruct (closing cur0); [|reflexivity].
    now destruct (execute_ cur0 sql (Some args)).
  - now rewrite !(with_cursor_unbuilt _ Hcur).
Qed.

(** X11. [query_value] returns the first value of the row
    [query_single] returns, and Python's [None] when there is no row or
    the row has no value. *)
Theorem query_value_is_first_of_row :
  forall (sql : str) (args : list value),
    fst (query_value_ sql args)
    = match fst (query_single_ sql args) with
      | Ok (Some r) => Ok (Some (first_value (option_map values r)))
      | Ok None => Ok None
      | Raise e => Raise e
      end.
Proof.
  intros sql args. unfold query_value, query_single.
  destruct (cursor connection_cursor server_side tl None) as [cur0|e] eqn:Hcur.
  - rewrite (@helper_outcome _ _ _ first_value_after_execute cur0 sql args Hcur).
    rewrite (@helper_outcome _ _ _ fetchone_dict_after_execute cur0 sql args Hcur).
    cbn [fst]. destruct (closing cur0); [|reflexivity].
    now destruct (execute_ cur0 sql (Some args)).
  - now rewrite !(with_cursor_unbuilt _ Hcur).
Qed.

(** X12. Every helper that got its cursor calls [execute] once and then
    closes the driver's cursor once, also when [execute] raised; in
    in-engine mode, where there is no driver cursor, nothing is closed. *)
Theorem helpers_close_the_cursor :
  forall (cur0 : WormholeCursor conn driver_cursor) (sql : str) (args : list value),
    cursor connection_cursor server_side tl None = Ok cur0 ->
    let calls := Executed driver_cursor sql args
                 :: match _real_cursor cur0 with
                    | Some rc => [Closed rc]
                    | None => []
                    end in
    snd (query_ sql args) = calls
    /\ snd (query_single_ sql args) = calls
    /\ snd (query_value_ sql args) = calls
    /\ snd (execute_statement_ sql args) = calls
    /\ (server_side = true -> _real_cursor cur0 = None).
Proof.
  intros cur0 sql args Hcur calls.
  unfold query, query_single, query_value, execute_statement.
  rewrite (@helper_outcome _ _ _ fetchall_dict_after_execute cur0 sql args Hcur).
  rewrite (@helper_outcome _ _ _ fetchone_dict_after_execute cur0 sql args Hcur).
  rewrite (@helper_outcome _ _ _ first_value_after_execute cur0 sql args Hcur).
  rewrite (@helper_outcome _ _ _ rowcount_after_execute cur0 sql args Hcur).
  repeat split. intros Hss. unfold cursor, __init__ in Hcur. rewrite Hss in Hcur.
  cbn [negb] in Hcur. now injection Hcur as <-.
Qed.

(** X13. As an external client without any connection, no helper gets a
    cursor: each raises [RuntimeError] with the package's message and
    calls nothing. *)
Theorem helpers_need_a_connection :
  forall (sql : str) (args : list value),
    server_side = false ->
    Connection.get_connection tl = None ->
    let e := Exn RuntimeError no_connection_msg in
    query_ sql args = (Raise e, [])
    /\ query_single_ sql args = (Raise e, [])
    /\ query_value_ sql args = (Raise e, [])
    /\ execute_statement_ sql args = (Raise e, []).
Proof.
  intros sql args Hss Hnone e.
  assert (Hcur : cursor connection_cursor server_side tl None = Raise e).
  { unfold cursor, __init__. rewrite Hss. cbn [negb]. now rewrite Hnone. }
  unfold query, query_single, query_value, execute_statement.
  now rewrite !(with_cursor_unbuilt _ Hcur).
Qed.

End Facts.

Lemma query_returns_stored_rows_witness :
  query cursor_ok engine_two_rows driver_two_rows Doubles.close_ok false one_connection
        (lit "SELECT id FROM t") []
  = (Ok (Some two_rows), [Executed nat (lit "SELECT id FROM t") []; Closed 1]).
Proof.
  exact (@query_returns_stored_rows nat nat cursor_ok engine_two_rows driver_two_rows
           Doubles.close_ok false one_connection _ (lit "SELECT id FROM t") []
           eq_refl).
Defined.

Lemma execute_statement_returns_rowcount_witness :
  execute_statement cursor_ok engine_two_rows driver_two_rows Doubles.close_ok true
                    (Connection.fresh nat) (lit "DELETE FROM t") []
  = (Ok (Some 2%Z), [Executed nat (lit "DELETE FROM t") []]).
Proof.
  exact (@execute_statement_returns_rowcount nat nat cursor_ok engine_two_rows
           driver_two_rows Doubles.close_ok true (Connection.fresh nat) _
           (lit "DELETE FROM t") [] eq_refl).
Defined.

Lemma helpers_close_the_cursor_witness :
  snd (query_value cursor_ok engine_two_rows driver_two_rows Doubles.close_ok false
                   one_connection (lit "SELECT count(*) FROM t") [])
  = [Executed nat (lit "SELECT count(*) FROM t") []; Closed 1].
Proof.
  exact (proj1 (proj2 (proj2
           (@helpers_close_the_cursor nat nat cursor_ok engine_two_rows
              driver_two_rows Doubles.close_ok false one_connection _
              (lit "SELECT count(*) FROM t") [] eq_refl)))).
Defined.

Lemma helpers_need_a_connection_witness :
  query cursor_ok engine_two_rows driver_two_rows Doubles.close_ok false
        (Connection.fresh nat) (lit "SELECT 1") []
  = (Raise (Exn RuntimeError no_connection_msg), []).
Proof.
  exact (proj1 (@helpers_need_a_connection nat nat cursor_ok engine_two_rows
                  driver_two_rows Doubles.close_ok false (Connection.fresh nat)
                  (lit "SELECT 1") [] eq_refl eq_refl)).
Defined.

End QueryApiFacts.

(** ** More on the placeholder loops *)

Module MarkerMore.

Import Query Markers StrFacts ReplaceFacts MarkerFacts.

Lemma numbered_text_has_no_marker (n : nat) (ts : list token) :
  consecutive n ts = true ->
  contains sequential (render_numbered ts) = false.
Proof.
  intros Hc.
  rewrite <- (render_mixed_true (fun j => j <? n + count_marks ts) ts).
  - rewrite (@server_test (n + count_marks ts) ts n Hc (Nat.le_add_r _ _)).
    apply Nat.ltb_irrefl.
  - intros j Hj. pose proof (consecutive_range ts n Hc j Hj). apply Nat.ltb_lt. lia.
Qed.

Lemma unmarked_text_unchanged (sql : str) :
  contains (lit "%s") sql = false -> to_numbered sql = sql.
Proof.
  intros H. unfold to_numbered. destruct (length sql); [reflexivity|].
  cbn [numbered_loop]. now rewrite H.
Qed.

(** X14. The in-engine loop leaves no [%s] in the text it hands to the
    engine, whatever the text was, and running it on its own result
    changes nothing. *)
Theorem to_numbered_leaves_no_marker :
  forall sql : str,
    contains (lit "%s") (to_numbered sql) = false
    /\ to_numbered (to_numbered sql) = to_numbered sql.
Proof.
  intros sql.
  assert (H : contains (lit "%s") (to_numbered sql) = false).
  { rewrite to_numbered_spec, <- read_number.
    exact (numbered_text_has_no_marker 1 _ (read_consecutive sql 1)). }
  split; [exact H | now apply unmarked_text_unchanged].
Qed.

Lemma dollar_free_has_no_numbered (i : nat) (sql : str) :
  existsb (Ascii.eqb "$") sql = false ->
  contains (lit "$" ++ decimal i) sql = false.
Proof.
  induction sql as [|c sql IH]; intros H.
  - reflexivity.
  - cbn [existsb] in H. apply orb_false_iff in H as [Hc H].
    cbn [contains lit list_ascii_of_string app startswith].
    rewrite Hc. cbn [andb orb]. exact (IH H).
Qed.

(** X15. Each mode leaves a text that is already in its own form alone:
    the in-engine loop returns a text without [%s] as it is, and the
    external-client loop, for any number of parameters, returns a text
    without [$] as it is. *)
Theorem native_form_passes_through :
  forall sql : str,
    (contains (lit "%s") sql = false -> to_numbered sql = sql)
    /\ (existsb (Ascii.eqb "$") sql = false ->
        forall nparams, to_sequential nparams sql = sql).
Proof.
  intros sql. split; [apply unmarked_text_unchanged|].
  intros H nparams. unfold to_sequential.
  induction nparams as [|k IH]; [reflexivity|].
  cbn [sequential_loop]. now rewrite dollar_free_has_no_numbered.
Qed.

Lemma native_form_passes_through_witness :
  to_numbered (lit "SELECT * FROM t WHERE a = $1 AND b = $2")
  = lit "SELECT * FROM t WHERE a = $1 AND b = $2"
  /\ to_sequential 2 two_markers = two_markers.
Proof.
  split.
  - exact (proj1 (native_form_passes_through
                    (lit "SELECT * FROM t WHERE a = $1 AND b = $2")) eq_refl).
  - exact (proj2 (native_form_passes_through two_markers) eq_refl 2).
Defined.

End MarkerMore.

(** ** More on remote functions *)

Module RemoteMore.

Import Remote Vocabulary.

Section Facts.

Variable conn : Type.
Variable db : conn -> oracle.
Variable dumps_signature : signature_info -> str.
Variable repr_row : Query.row -> str.
Variable call_args : Type.
Variable dumps_bound : signature_info -> call_args -> res str.

Local Abbreviation call_ := (__call__ db dumps_signature repr_row dumps_bound).

(** The object after [self.func_id = id; self._installed = True]. *)
Definition installed_as (self : RemoteFunction) (id : value) : RemoteFunction :=
  {| func_name := func_name self;
     func_id := id;
     _installed := true;
     source := source self;
     signature := signature self |}.

(** The install call of a function object. *)
Definition install_call (self : RemoteFunction) : db_call :=
  Execute install_sql
          [VStr (func_name self); VStr (source self);
           VStr (dumps_signature (signature self))].

(** X16. Without a connection an invocation raises [RuntimeError] with
    the package's message and does nothing else: no call is made and the
    function object is as it was, installed or not. *)
Theorem invocation_needs_a_connection :
  forall (tl : Connection.thread_local conn) (args : call_args) (w : world),
    Connection.get_connection tl = None ->
    call_ tl args w = (Raise (Exn RuntimeError remote_no_connection_msg), w).
Proof.
  intros tl args w Hnone.
  unfold __call__, _install_on_server, mbind, get_self, raise, ret.
  destruct (_installed (w_self w)) eqn:Hinst; cbn [negb]; rewrite ?Hinst, Hnone;
    reflexivity.
Qed.

(** X17. The first invocation, when the install call is answered with a
    handle, the arguments fit and the engine reports success: the call
    log gains the install call (name, source, signature) and then the
    invoke call, which carries the handle the install call returned; the
    function object keeps that handle and is installed; the value is the
    answer's [result], or [None] when the answer has none. *)
Theorem first_invocation_installs_then_invokes :
  forall (tl : Connection.thread_local conn) (args : call_args) (w : world)
         (c : conn) (reply answer : Query.row) (id : value) (kwargs : str),
    _installed (w_self w) = false ->
    Connection.get_connection tl = Some c ->
    db c (w_log w) (install_call (w_self w)) = Ok reply ->
    dict_get reply (lit "func_id") = Some id ->
    dumps_bound (signature (w_self w)) args = Ok kwargs ->
    db c (w_log w ++ [Called (install_call (w_self w)) (Ok reply)])
       (Execute execute_sql [id; VStr kwargs]) = Ok answer ->
    truthy (dict_get answer (lit "success")) = true ->
    call_ tl args w
    = (Ok (match dict_get answer (lit "result") with Some v => v | None => VNone end),
       {| w_log := w_log w
                   ++ [Called (install_call (w_self w)) (Ok reply);
                       Called (Execute execute_sql [id; VStr kwargs]) (Ok answer)];
          w_self := installed_as (w_self w) id |}).
Proof.
  intros tl args w c reply answer id kwargs Hinst Hbound Hinstall Hid Hkw Hinvoke Hok.
  unfold __call__, _install_on_server, mbind, get_self, set_installed, lift,
    call, raise, ret.
  rewrite Hinst. cbn [negb]. rewrite Hinst, Hbound.
  unfold install_call in *. rewrite Hinstall, Hid.
  cbn [w_self w_log signature func_id]. rewrite Hkw, Hinvoke, Hok. cbn [negb].
  now rewrite <- app_assoc.
Qed.

(** X18. An invocation of an installed function whose engine answer has
    no true [success]: the invoke call is made with the cached handle,
    the caller gets [RuntimeError] with the answer in its message, and
    the function stays installed with the same handle. *)
Theorem failed_envelope_raises :
  forall (tl : Connection.thread_local conn) (args : call_args) (w : world)
         (c : conn) (answer : Query.row) (kwargs : str),
    _installed (w_self w) = true ->
    Connection.get_connection tl = Some c ->
    dumps_bound (signature (w_self w)) args = Ok kwargs ->
    db c (w_log w) (Execute execute_sql [func_id (w_self w); VStr kwargs]) = Ok answer ->
    truthy (dict_get answer (lit "success")) = false ->
    call_ tl args w
    = (Raise (Exn RuntimeError
                (lit "Server-side execution failed: " ++ repr_row answer)),
       {| w_log := w_log w
                   ++ [Called (Execute execute_sql [func_id (w_self w); VStr kwargs])
                              (Ok answer)];
          w_self := w_self w |}).
Proof.
  intros tl args w c answer kwargs Hinst Hbound Hkw Hinvoke Hfail.
  unfold __call__, mbind, get_self, lift, call, raise, ret.
  rewrite Hinst. cbn [negb]. rewrite Hbound, Hkw, Hinvoke, Hfail. reflexivity.
Qed.

(** X19. Arguments that do not fit the signature: the binding error
    reaches the caller and no invoke call is made.  On an installed
    function nothing at all happens; on the first invocation the install
    call has been made before, and the function stays installed. *)
Theorem misfit_arguments_are_not_sent :
  forall (tl : Connection.thread_local conn) (args : call_args) (w : world)
         (c : conn) (e : exn),
    Connection.get_connection tl = Some c ->
    dumps_bound (signature (w_self w)) args = Raise e ->
    (_installed (w_self w) = true -> call_ tl args w = (Raise e, w))
    /\ (forall (reply : Query.row) (id : value),
           _installed (w_self w) = false ->
           db c (w_log w) (install_call (w_self w)) = Ok reply ->
           dict_get reply (lit "func_id") = Some id ->
           call_ tl args w
           = (Raise e,
              {| w_log := w_log w ++ [Called (install_call (w_self w)) (Ok reply)];
                 w_self := installed_as (w_self w) id |})).
Proof.
  intros tl args w c e Hbound Hkw. split.
  - intros Hinst. unfold __call__, mbind, get_self, lift, call, raise, ret.
    rewrite Hinst. cbn [negb]. rewrite Hbound, Hkw. now destruct w.
  - intros reply id Hinst Hinstall Hid.
    unfold __call__, _install_on_server, mbind, get_self, set_installed, lift,
      call, raise, ret.
    rewrite Hinst. cbn [negb]. rewrite Hinst, Hbound.
    unfold install_call in *. rewrite Hinstall, Hid.
    cbn [w_self w_log signature func_id]. now rewrite Hkw.
Qed.

(** X20. A first invocation whose install call raises, or is answered
    without a [func_id]: the call ends there, with the exception of the
    call or with [KeyError]; the install call is the only call made and
    the function object is as it was, not installed. *)
Theorem failed_install_ends_the_call :
  forall (tl : Connection.thread_local conn) (args : call_args) (w : world)
         (c : conn),
    _installed (w_self w) = false ->
    Connection.get_connection tl = Some c ->
    (forall e,
        db c (w_log w) (install_call (w_self w)) = Raise e ->
        call_ tl args w
        = (Raise e,
           {| w_log := w_log w ++ [Called (install_call (w_self w)) (Raise e)];
              w_self := w_self w |}))
    /\ (forall reply,
           db c (w_log w) (install_call (w_self w)) = Ok reply ->
           dict_get reply (lit "func_id") = None ->
           call_ tl args w
           = (Raise (Exn KeyError (lit "'func_id'")),
              {| w_log := w_log w ++ [Called (install_call (w_self w)) (Ok reply)];
                 w_self := w_self w |})).
Proof.
  intros tl args w c Hinst Hbound. split.
  - intros e Hinstall.
    unfold __call__, _install_on_server, mbind, get_self, call, raise, ret.
    rewrite Hinst. cbn [negb]. rewrite Hinst, Hbound.
    unfold install_call in *. now rewrite Hinstall.
  - intros reply Hinstall Hid.
    unfold __call__, _install_on_server, mbind, get_self, call, raise, ret.
    rewrite Hinst. cbn [negb]. rewrite Hinst, Hbound.
    unfold install_call in *. now rewrite Hinstall, Hid.
Qed.

End Facts.

Lemma invocation_needs_a_connection_witness :
  __call__ Doubles.installs_and_runs dumps_signature_stub repr_row_stub dumps_bound_stub
           (Connection.fresh nat) [VInt 1; VInt 2] Doubles.uninstalled_world
  = (Raise (Exn RuntimeError remote_no_connection_msg), Doubles.uninstalled_world).
Proof.
  exact (@invocation_needs_a_connection nat Doubles.installs_and_runs
           dumps_signature_stub repr_row_stub (list value) dumps_bound_stub
           (Connection.fresh nat) [VInt 1; VInt 2] Doubles.uninstalled_world eq_refl).
Defined.

Lemma first_invocation_installs_then_invokes_witness :
  __call__ Doubles.installs_and_runs dumps_signature_stub repr_row_stub dumps_bound_stub
           one_connection [VInt 1; VInt 2] Doubles.uninstalled_world
  = (Ok (VInt 3),
     {| w_log :=
          [Called (Execute install_sql
                     [VStr (lit "add"); VStr (lit "def add(x, y): return x + y");
                      VStr (lit "{}")])
                  (Ok [(lit "func_id", VInt 7); (lit "cached", VBool false)]);
           Called (Execute execute_sql [VInt 7; VStr (lit "{}")])
                  (Ok [(lit "success", VBool true); (lit "result", VInt 3)])];
        w_self := w_self Doubles.installed_world |}).
Proof.
  exact (@first_invocation_installs_then_invokes nat Doubles.installs_and_runs
           dumps_signature_stub repr_row_stub (list value) dumps_bound_stub
           one_connection [VInt 1; VInt 2] Doubles.uninstalled_world 1
           [(lit "func_id", VInt 7); (lit "cached", VBool false)]
           [(lit "success", VBool true); (lit "result", VInt 3)]
           (VInt 7) (lit "{}")
           eq_refl eq_refl eq_refl eq_refl eq_refl eq_refl eq_refl).
Defined.

Lemma failed_envelope_raises_witness :
  __call__ Doubles.installs_and_fails dumps_signature_stub repr_row_stub dumps_bound_stub
           one_connection [VInt 1; VInt 2] Doubles.installed_world
  = (Raise (Exn RuntimeError (lit "Server-side execution failed: {...}")),
     {| w_log :=
          [Called (Execute execute_sql [VInt 7; VStr (lit "{}")])
                  (Ok [(lit "success", VBool false); (lit "error", VStr (lit "boom"))])];
        w_self := w_self Doubles.installed_world |}).
Proof.
  exact (@failed_envelope_raises nat Doubles.installs_and_fails
           dumps_signature_stub repr_row_stub (list value) dumps_bound_stub
           one_connection [VInt 1; VInt 2] Doubles.installed_world 1
           [(lit "success", VBool false); (lit "error", VStr (lit "boom"))]
           (lit "{}") eq_refl eq_refl eq_refl eq_refl eq_refl).
Defined.

Lemma misfit_arguments_are_not_sent_witness :
  __call__ Doubles.installs_and_runs dumps_signature_stub repr_row_stub
           Doubles.dumps_bound_misfit one_connection [VInt 1] Doubles.installed_world
  = (Raise (Exn TypeError (lit "missing a required argument: 'y'")),
     Doubles.installed_world)
  /\ __call__ Doubles.installs_and_runs dumps_signature_stub repr_row_stub
              Doubles.dumps_bound_misfit one_connection [VInt 1]
              Doubles.uninstalled_world
     = (Raise (Exn TypeError (lit "missing a required argument: 'y'")),
        {| w_log :=
             [Called (Execute install_sql
                        [VStr (lit "add"); VStr (lit "def add(x, y): return x + y");
                         VStr (lit "{}")])
                     (Ok [(lit "func_id", VInt 7); (lit "cached", VBool false)])];
           w_self := w_self Doubles.installed_world |}).
Proof.
  split.
  - exact (proj1 (@misfit_arguments_are_not_sent nat Doubles.installs_and_runs
                    dumps_signature_stub repr_row_stub (list value)
                    Doubles.dumps_bound_misfit one_connection [VInt 1]
                    Doubles.installed_world 1 _ eq_refl eq_refl) eq_refl).
  - exact (proj2 (@misfit_arguments_are_not_sent nat Doubles.installs_and_runs
                    dumps_signature_stub repr_row_stub (list value)
                    Doubles.dumps_bound_misfit one_connection [VInt 1]
                    Doubles.uninstalled_world 1 _ eq_refl eq_refl)
                 [(lit "func_id", VInt 7); (lit "cached", VBool false)] (VInt 7)
                 eq_refl eq_refl eq_refl).
Defined.

Lemma failed_install_ends_the_call_witness :
  __call__ Doubles.refuses_statements dumps_signature_stub repr_row_stub
           dumps_bound_stub one_connection [VInt 1; VInt 2] Doubles.uninstalled_world
  = (Raise division_error,
     {| w_log :=
          [Called (Execute install_sql
                     [VStr (lit "add"); VStr (lit "def add(x, y): return x + y");
                      VStr (lit "{}")])
                  (Raise division_error)];
        w_self := add_function |})
  /\ __call__ always_ok dumps_signature_stub repr_row_stub
              dumps_bound_stub one_connection [VInt 1; VInt 2]
              Doubles.uninstalled_world
     = (Raise (Exn KeyError (lit "'func_id'")),
        {| w_log :=
             [Called (Execute install_sql
                        [VStr (lit "add"); VStr (lit "def add(x, y): return x + y");
                         VStr (lit "{}")])
                     (Ok [])];
           w_self := add_function |}).
Proof.
  split.
  - exact (proj1 (@failed_install_ends_the_call nat Doubles.refuses_statements
                    dumps_signature_stub repr_row_stub (list value)
                    dumps_bound_stub one_connection [VInt 1; VInt 2]
                    Doubles.uninstalled_world 1 eq_refl eq_refl)
                 division_error eq_refl).
  - exact (proj2 (@failed_install_ends_the_call nat always_ok
                    dumps_signature_stub repr_row_stub (list value)
                    dumps_bound_stub one_connection [VInt 1; VInt 2]
                    Doubles.uninstalled_world 1 eq_refl eq_refl)
                 [] eq_refl eq_refl).
Defined.

End RemoteMore.

(** ** More on the transaction scopes *)

Module ScopeMore.

Import Transaction ReadOnly Vocabulary StrFacts ContextlibFacts TransactionFacts.

(** [__exit__] answers true only when the generator returned after the
    throw. *)
Lemma exit_true_only_on_return {W F : Type} (g : generator W F) (f : F)
      (e : exn) (w w' : W) :
  __exit__ g f (Some e) w = (Ok true, w') ->
  fst (gen_throw g f e w) = Ok Returned.
Proof.
  unfold __exit__, try_except, leaving, ret, raise.
  destruct (gen_throw g f e w) as [[[f'|]|exc] w1]; cbn [fst].
  - discriminate.
  - reflexivity.
  - destruct (is_class StopIteration exc);
      repeat match goal with
             | |- context [if ?b then _ else _] => destruct b
             end; discriminate.
Qed.

(** A generator that never returns after a throw never swallows the
    exception of the body. *)
Lemma with_never_swallows {W F A : Type} (g : generator W F) (body : M W A) :
  (forall f e w, fst (gen_throw g f e w) <> Ok Returned) ->
  forall w, swallowed (fst (with_ g body w)) = false.
Proof.
  intros Hthrow w. unfold with_, mbind at 1.
  destruct (__enter__ g w) as [[f|e] w1]; [|reflexivity].
  unfold try_except. destruct (body w1) as [[a|e] w2]; unfold mbind.
  - destruct (__exit__ g f None w2) as [[b|e] w3]; reflexivity.
  - destruct (__exit__ g f (Some e) w2) as [[[|]|e'] w3] eqn:Hx; try reflexivity.
    apply exit_true_only_on_return in Hx. now elim (Hthrow f e w2).
Qed.

Section Loop.

Variable conn : Type.
Variable db : conn -> oracle.
Variable max_retries : Z.
Variable retry_delay : Q.

(** The [except] block ends in [raise] or in [continue]: it returns only
    if the loop it goes back to does. *)
Lemma handler_never_returns
      (k : nat -> option exn -> M log (gen_step (frame conn)))
      (c : conn) (a : nat) (le : option exn) (e : exn) (l : log) :
  ((Z.of_nat (a + 1) <= max_retries)%Z ->
   forall le' l', fst (k (a + 1) le' l') <> Ok Returned) ->
  fst (handler db max_retries retry_delay k c a le e l) <> Ok Returned.
Proof.
  intros Hk. unfold handler, mbind, raise.
  destruct (call db c Rollback l) as [[r|e'] l']; [|discriminate].
  destruct (_is_retryable_error e); [|discriminate].
  destruct (Z.leb_spec (Z.of_nat (a + 1)) max_retries) as [Hle|Hgt]; [|discriminate].
  destruct (sleep _ l') as [[u|e'] l'']; [|discriminate].
  now apply Hk.
Qed.

(** A turn of the loop that passes the loop test ends at [yield] or in
    an exception. *)
Lemma loop_never_returns (fuel : nat) :
  forall (c : conn) (a : nat) (le : option exn) (l : log),
    turns max_retries a <= fuel ->
    (Z.of_nat a <= max_retries)%Z ->
    fst (loop db max_retries retry_delay fuel c a le l) <> Ok Returned.
Proof.
  induction fuel as [|fuel IH]; intros c a le l Hfuel Hle.
  - destruct (turns_pos a Hle) as [n Hn]. lia.
  - cbn [loop]. destruct (Z.leb_spec (Z.of_nat a) max_retries); [|lia].
    unfold try_except.
    destruct (call db c Rollback l) as [[r|e] l']; [discriminate|].
    apply handler_never_returns. intros Hle' le' l''.
    apply IH; [|exact Hle']. unfold turns in *. lia.
Qed.

End Loop.

(** X21. None of the three scopes swallows an exception of its body:
    whatever the connection answers and whatever the body does, a [with]
    statement on [transaction], [read_only_transaction] or [savepoint]
    ends with the body's value or with an exception, never silently after
    a body that raised. *)
Theorem scopes_never_swallow :
  forall (conn : Type) (db : conn -> oracle) (tl : Connection.thread_local conn)
         (A : Type) (body : M log A) (l : log),
    (forall (max_retries : Z) (retry_delay : Q),
        swallowed (fst (with_ (transaction db tl max_retries retry_delay) body l))
        = false)
    /\ swallowed (fst (with_ (read_only_transaction db tl) body l)) = false
    /\ (forall name : str,
           swallowed (fst (with_ (savepoint db tl name) body l)) = false).
Proof.
  intros conn db tl A body l. repeat apply conj.
  - intros max_retries retry_delay. apply with_never_swallows.
    intros f e w. cbn [gen_throw transaction].
    apply handler_never_returns. intros Hle le' l'.
    apply loop_never_returns; [lia | exact Hle].
  - apply with_never_swallows. intros c e w.
    cbn [gen_throw read_only_transaction]. unfold read_only_handler, mbind, raise.
    destruct (call db c Rollback w) as [[r|e'] w']; discriminate.
  - intros name. apply with_never_swallows. intros c e w.
    cbn [gen_throw savepoint]. unfold savepoint_handler, mbind, raise.
    destruct (call db c _ w) as [[r|e'] w']; discriminate.
Qed.

(** X22. A [transaction] scope that cannot start: without a connection
    it raises [RuntimeError] with the package's message; with a
    connection and a negative [max_retries] the loop is never entered and
    the [with] statement raises [RuntimeError] for a generator that did
    not yield.  Either way the body is not run and nothing is called on
    the connection. *)
Theorem transaction_refuses_to_start :
  forall (conn : Type) (db : conn -> oracle) (tl : Connection.thread_local conn)
         (max_retries : Z) (retry_delay : Q) (A : Type) (body : M log A) (l0 : log),
    (Connection.get_connection tl = None ->
     with_ (transaction db tl max_retries retry_delay) body l0
     = (Raise (Exn RuntimeError (transaction_no_connection_msg)), l0))
    /\ (forall c : conn,
           Connection.get_connection tl = Some c ->
           (max_retries < 0)%Z ->
           with_ (transaction db tl max_retries retry_delay) body l0
           = (Raise (Exn RuntimeError (lit "generator didn't yield")), l0)).
Proof.
  intros conn db tl max_retries retry_delay A body l0. split.
  - intros Hnone. unfold with_, __enter__, mbind, leaving.
    cbn [gen_start transaction]. now rewrite Hnone.
  - intros c Hbound Hneg. unfold with_, __enter__, mbind, leaving.
    cbn [gen_start transaction]. rewrite Hbound.
    replace (turns max_retries 0) with 0 by (unfold turns; lia).
    reflexivity.
Qed.

Lemma transaction_refuses_to_start_witness :
  with_ (transaction always_ok (Connection.fresh nat) 3 (1 # 10))
        (unit_of_work (fun _ => Ok (VInt 42))) []
  = (Raise (Exn RuntimeError (transaction_no_connection_msg)), [])
  /\ with_ (transaction always_ok one_connection (-1) (1 # 10))
           (unit_of_work (fun _ => Ok (VInt 42))) []
     = (Raise (Exn RuntimeError (lit "generator didn't yield")), []).
Proof.
  split.
  - apply (proj1 (@transaction_refuses_to_start nat always_ok (Connection.fresh nat)
                    3%Z (1 # 10)%Q value (unit_of_work (fun _ => Ok (VInt 42))) [])).
    reflexivity.
  - apply (proj2 (@transaction_refuses_to_start nat always_ok one_connection
                    (-1)%Z (1 # 10)%Q value (unit_of_work (fun _ => Ok (VInt 42))) [])
                 1); [reflexivity | lia].
Defined.

Lemma clean_run_commits_witness :
  with_ (transaction always_ok one_connection 3 (1 # 10))
        (unit_of_work (fun _ => Ok (VInt 42))) []
  = (Ok (Some (VInt 42)),
     [Called Rollback (Ok []); Ran 0; Called Commit (Ok [])]).
Proof.
  apply (@TransactionClaims.clean_run_commits nat always_ok one_connection
           3%Z (1 # 10)%Q value (unit_of_work (fun _ => Ok (VInt 42)))
           1 [] [Called Rollback (Ok []); Ran 0] (VInt 42) [] []);
    first [reflexivity | lia].
Defined.

Lemma no_retry_left_witness :
  with_ (transaction always_ok one_connection 0 (1 # 10))
        (unit_of_work (fun _ => Raise serialization_error)) []
  = (Raise (ExnFrom TransactionRetryError
              (lit "Transaction failed after 0 retries: could not serialize access due to concurrent update")
              serialization_error),
     [Called Rollback (Ok []); Ran 0; Called Rollback (Ok [])]).
Proof.
  apply (@TransactionClaims.no_retry_left nat always_ok one_connection
           (1 # 10)%Q value (unit_of_work (fun _ => Raise serialization_error))
           1 [] [Called Rollback (Ok []); Ran 0] serialization_error [] []);
    reflexivity.
Defined.

Lemma retry_is_never_run_witness :
  with_ (transaction always_ok one_connection 3 (1 # 10))
        (unit_of_work (fun _ => Raise serialization_error)) []
  = (Raise (Exn RuntimeError (lit "generator didn't stop after throw()")),
     [Called Rollback (Ok []); Ran 0] ++
     [Called Rollback (Ok []); Slept ((1 # 10) * inject_Z (2 ^ 0)); Called Rollback (Ok [])]).
Proof.
  apply (@TransactionClaims.retry_is_never_run nat always_ok one_connection
           3%Z (1 # 10)%Q value (unit_of_work (fun _ => Raise serialization_error))
           1 [] [Called Rollback (Ok []); Ran 0] serialization_error [] [] []);
    first [reflexivity | lia | discriminate].
Defined.

(** X26. A conflict met by the opening rollback, before the body has
    run, is retried: the scope rolls back, sleeps the base delay, rolls
    back again and only then runs the body, once; when the body completes
    the scope commits and returns the body's value. *)
Theorem opening_conflict_is_retried :
  forall (conn : Type) (db : conn -> oracle) (tl : Connection.thread_local conn)
         (max_retries : Z) (retry_delay : Q) (A : Type) (body : M log A)
         (c : conn) (l0 l1 : log) (e : exn) (a : A) (r1 r2 r3 : Query.row),
    Connection.get_connection tl = Some c ->
    (1 <= max_retries)%Z ->
    (0 <= retry_delay)%Q ->
    db c l0 Rollback = Raise e ->
    _is_retryable_error e = true ->
    let delay := (retry_delay * inject_Z (2 ^ 0))%Q in
    db c (l0 ++ [Called Rollback (Raise e)]) Rollback = Ok r1 ->
    db c (l0 ++ [Called Rollback (Raise e); Called Rollback (Ok r1); Slept delay])
       Rollback = Ok r2 ->
    body (l0 ++ [Called Rollback (Raise e); Called Rollback (Ok r1); Slept delay;
                 Called Rollback (Ok r2)]) = (Ok a, l1) ->
    db c l1 Commit = Ok r3 ->
    with_ (transaction db tl max_retries retry_delay) body l0
    = (Ok (Some a), l1 ++ [Called Commit (Ok r3)]).
Proof.
  intros conn db tl max_retries retry_delay A body c l0 l1 e a r1 r2 r3
         Hbound Hm Hd Hdb0 He delay Hdb1 Hdb2 Hbody Hdb3.
  assert (Henter : __enter__ (transaction db tl max_retries retry_delay) l0
                   = (Ok {| f_conn := c; attempt := 0 + 1; last_error := Some e |},
                      l0 ++ [Called Rollback (Raise e); Called Rollback (Ok r1);
                             Slept delay; Called Rollback (Ok r2)])).
  { unfold __enter__, mbind, leaving. cbn [gen_start transaction]. rewrite Hbound.
    assert (Hturns : turns max_retries 0 = S (S (Z.to_nat (max_retries - 1)))).
    { unfold turns. rewrite <- !Z2Nat.inj_succ by lia. f_equal. lia. }
    rewrite Hturns. cbn [loop].
    destruct (Z.leb_spec (Z.of_nat 0) max_retries); [|simpl in *; lia].
    unfold try_except, call at 1. rewrite Hdb0.
    unfold handler, mbind, call at 1. rewrite Hdb1, He.
    destruct (Z.leb_spec (Z.of_nat (0 + 1)) max_retries); [|simpl in *; lia].
    change (Z.of_nat (0 + 1) - 1)%Z with 0%Z. fold delay. unfold sleep.
    destruct (Qlt_le_dec delay 0) as [Hneg|_].
    { exfalso. apply (Qlt_not_le _ _ Hneg). unfold delay.
      apply Qmult_le_0_compat; [exact Hd | discriminate]. }
    rewrite <- !app_assoc. cbn [app].
    unfold call. rewrite Hdb2. unfold ret.
    now rewrite <- app_assoc. }
  unfold with_, mbind. rewrite Henter. unfold try_except. rewrite Hbody.
  unfold mbind.
  rewrite (@exit_returned _ _ _ _ _
             (@next_commits conn db tl max_retries retry_delay c (0 + 1) (Some e)
                            l1 r3 Hdb3)).
  reflexivity.
Qed.

Lemma opening_conflict_is_retried_witness :
  with_ (transaction Doubles.conflict_on_first_rollback one_connection 3 (1 # 10))
        (unit_of_work (fun _ => Ok (VInt 42))) []
  = (Ok (Some (VInt 42)),
     [Called Rollback (Raise serialization_error); Called Rollback (Ok []);
      Slept ((1 # 10) * inject_Z (2 ^ 0)); Called Rollback (Ok []); Ran 0]
     ++ [Called Commit (Ok [])]).
Proof.
  apply (@opening_conflict_is_retried nat Doubles.conflict_on_first_rollback
           one_connection 3%Z (1 # 10)%Q value (unit_of_work (fun _ => Ok (VInt 42)))
           1 []
           [Called Rollback (Raise serialization_error); Called Rollback (Ok []);
            Slept ((1 # 10) * inject_Z (2 ^ 0)); Called Rollback (Ok []); Ran 0]
           serialization_error (VInt 42) [] [] []);
    first [reflexivity | lia | discriminate].
Defined.

(** X27. A commit that raises, after a body that completed.  The scope
    rolls back.  When the message is not one the scope retries, the
    caller gets the exception of the commit.  When it is and a retry is
    allowed, the generator sleeps, rolls back and yields a second time:
    the body is not run again and the caller gets [RuntimeError] for a
    generator that did not stop. *)
Theorem failed_commit_is_rolled_back :
  forall (conn : Type) (db : conn -> oracle) (tl : Connection.thread_local conn)
         (max_retries : Z) (retry_delay : Q) (A : Type) (body : M log A)
         (c : conn) (l0 l1 : log) (a : A) (e : exn) (r0 r1 : Query.row),
    Connection.get_connection tl = Some c ->
    (0 <= max_retries)%Z ->
    db c l0 Rollback = Ok r0 ->
    body (l0 ++ [Called Rollback (Ok r0)]) = (Ok a, l1) ->
    db c l1 Commit = Raise e ->
    db c (l1 ++ [Called Commit (Raise e)]) Rollback = Ok r1 ->
    (_is_retryable_error e = false ->
     is_class StopIteration e = false ->
     with_ (transaction db tl max_retries retry_delay) body l0
     = (Raise e, l1 ++ [Called Commit (Raise e); Called Rollback (Ok r1)]))
    /\ (forall r2 : Query.row,
           _is_retryable_error e = true ->
           (1 <= max_retries)%Z ->
           (0 <= retry_delay)%Q ->
           let delay := (retry_delay * inject_Z (2 ^ 0))%Q in
           db c (l1 ++ [Called Commit (Raise e); Called Rollback (Ok r1); Slept delay])
              Rollback = Ok r2 ->
           with_ (transaction db tl max_retries retry_delay) body l0
           = (Raise (Exn RuntimeError (lit "generator didn't stop")),
              l1 ++ [Called Commit (Raise e); Called Rollback (Ok r1); Slept delay;
                     Called Rollback (Ok r2)])).
Proof.
  intros conn db tl max_retries retry_delay A body c l0 l1 a e r0 r1
         Hbound Hm Hdb0 Hbody Hcommit Hdb1.
  split.
  - intros He Hstop. unfold with_, mbind.
    rewrite (@enter_transaction conn db tl max_retries retry_delay c Hbound l0 r0
               Hm Hdb0).
    unfold try_except at 1. rewrite Hbody.
    unfold mbind, __exit__, mbind, leaving. cbn [gen_next transaction f_conn attempt].
    unfold try_except, call at 1. rewrite Hcommit.
    unfold handler, mbind, call. rewrite Hdb1, He. unfold raise. rewrite Hstop.
    now rewrite <- app_assoc.
  - intros r2 He Hm1 Hd delay Hdb2. unfold with_, mbind.
    rewrite (@enter_transaction conn db tl max_retries retry_delay c Hbound l0 r0
               Hm Hdb0).
    unfold try_except at 1. rewrite Hbody.
    unfold mbind, __exit__, mbind, leaving.
    cbn [gen_next transaction f_conn attempt last_error].
    unfold try_except, call at 1. rewrite Hcommit.
    unfold handler, mbind, call at 1. rewrite Hdb1, He.
    destruct (Z.leb_spec (Z.of_nat (0 + 1)) max_retries); [|simpl in *; lia].
    change (Z.of_nat (0 + 1) - 1)%Z with 0%Z. fold delay. unfold sleep.
    destruct (Qlt_le_dec delay 0) as [Hneg|_].
    { exfalso. apply (Qlt_not_le _ _ Hneg). unfold delay.
      apply Qmult_le_0_compat; [exact Hd | discriminate]. }
    destruct (@turns_pos max_retries (0 + 1) ltac:(simpl; lia)) as [n ->].
    rewrite <- !app_assoc. cbn [app].
    rewrite (@loop_yields conn db max_retries retry_delay c n (0 + 1) (Some e) _ r2
               ltac:(simpl; lia) Hdb2).
    now rewrite <- app_assoc.
Qed.

Lemma failed_commit_is_rolled_back_witness :
  with_ (transaction (Doubles.commit_raises division_error) one_connection 3 (1 # 10))
        (unit_of_work (fun _ => Ok (VInt 42))) []
  = (Raise division_error,
     [Called Rollback (Ok []); Ran 0]
     ++ [Called Commit (Raise division_error); Called Rollback (Ok [])])
  /\ with_ (transaction (Doubles.commit_raises serialization_error) one_connection
                        3 (1 # 10))
           (unit_of_work (fun _ => Ok (VInt 42))) []
     = (Raise (Exn RuntimeError (lit "generator didn't stop")),
        [Called Rollback (Ok []); Ran 0]
        ++ [Called Commit (Raise serialization_error); Called Rollback (Ok []);
            Slept ((1 # 10) * inject_Z (2 ^ 0)); Called Rollback (Ok [])]).
Proof.
  split.
  - apply (proj1 (@failed_commit_is_rolled_back nat
                    (Doubles.commit_raises division_error) one_connection
                    3%Z (1 # 10)%Q value (unit_of_work (fun _ => Ok (VInt 42)))
                    1 [] [Called Rollback (Ok []); Ran 0] (VInt 42) division_error
                    [] [] eq_refl ltac:(lia) eq_refl eq_refl eq_refl eq_refl));
      reflexivity.
  - apply (proj2 (@failed_commit_is_rolled_back nat
                    (Doubles.commit_raises serialization_error) one_connection
                    3%Z (1 # 10)%Q value (unit_of_work (fun _ => Ok (VInt 42)))
                    1 [] [Called Rollback (Ok []); Ran 0] (VInt 42)
                    serialization_error
                    [] [] eq_refl ltac:(lia) eq_refl eq_refl eq_refl eq_refl) []);
      first [reflexivity | lia | discriminate].
Defined.

Section ReadOnlyScope.

Variable conn : Type.
Variable db : conn -> oracle.
Variable tl : Connection.thread_local conn.
Variable c : conn.
Hypothesis bound : Connection.get_connection tl = Some c.

(** Entering the read-only scope: a rollback, then the statement that
    makes the transaction read-only. *)
Lemma enter_read_only (l : log) (r0 r1 : Query.row) :
  db c l Rollback = Ok r0 ->
  db c (l ++ [Called Rollback (Ok r0)]) set_read_only = Ok r1 ->
  __enter__ (read_only_transaction db tl) l
  = (Ok c, l ++ [Called Rollback (Ok r0); Called set_read_only (Ok r1)]).
Proof.
  intros H0 H1. unfold __enter__, mbind, leaving.
  cbn [gen_start read_only_transaction]. rewrite bound.
  unfold try_except, mbind, call. rewrite H0, H1. unfold ret.
  now rewrite <- app_assoc.
Qed.

End ReadOnlyScope.

(** X28. [read_only_transaction] with a connection bound and the
    opening calls accepted: it rolls back, issues
    [SET TRANSACTION READ ONLY] and runs the body.  When the body
    completes, the scope commits and returns the body's value.  When the
    body raises, the scope rolls back once and raises that same
    exception, whatever its message: this scope does not sleep and does
    not retry. *)
Theorem read_only_commits_or_rolls_back :
  forall (conn : Type) (db : conn -> oracle) (tl : Connection.thread_local conn)
         (A : Type) (body : M log A) (c : conn) (l0 : log) (r0 r1 : Query.row),
    Connection.get_connection tl = Some c ->
    db c l0 Rollback = Ok r0 ->
    db c (l0 ++ [Called Rollback (Ok r0)]) set_read_only = Ok r1 ->
    let l1 := l0 ++ [Called Rollback (Ok r0); Called set_read_only (Ok r1)] in
    (forall (a : A) (l2 : log) (r2 : Query.row),
        body l1 = (Ok a, l2) ->
        db c l2 Commit = Ok r2 ->
        with_ (read_only_transaction db tl) body l0
        = (Ok (Some a), l2 ++ [Called Commit (Ok r2)]))
    /\ (forall (e : exn) (l2 : log) (r2 : Query.row),
           body l1 = (Raise e, l2) ->
           db c l2 Rollback = Ok r2 ->
           with_ (read_only_transaction db tl) body l0
           = (Raise e, l2 ++ [Called Rollback (Ok r2)])).
Proof.
  intros conn db tl A body c l0 r0 r1 Hbound Hdb0 Hdb1 l1.
  pose proof (@enter_read_only conn db tl c Hbound l0 r0 r1 Hdb0 Hdb1) as Henter.
  fold l1 in Henter. split.
  - intros a l2 r2 Hbody Hdb2.
    unfold with_, mbind. rewrite Henter. unfold try_except. rewrite Hbody.
    unfold mbind. erewrite exit_returned; [reflexivity|].
    cbn [gen_next read_only_transaction]. unfold try_except, call. now rewrite Hdb2.
  - intros e l2 r2 Hbody Hdb2.
    unfold with_, mbind. rewrite Henter. unfold try_except at 1. rewrite Hbody.
    erewrite exit_reraised; [reflexivity|].
    cbn [gen_throw read_only_transaction]. unfold read_only_handler, mbind, call.
    now rewrite Hdb2.
Qed.

Lemma read_only_commits_or_rolls_back_witness :
  with_ (read_only_transaction always_ok one_connection)
        (unit_of_work (fun _ => Ok (VInt 42))) []
  = (Ok (Some (VInt 42)),
     [Called Rollback (Ok []); Called set_read_only (Ok []); Ran 0]
     ++ [Called Commit (Ok [])])
  /\ with_ (read_only_transaction always_ok one_connection)
           (unit_of_work (fun _ => Raise serialization_error)) []
     = (Raise serialization_error,
        [Called Rollback (Ok []); Called set_read_only (Ok []); Ran 0]
        ++ [Called Rollback (Ok [])]).
Proof.
  split.
  - apply (proj1 (@read_only_commits_or_rolls_back nat always_ok one_connection
                    value (unit_of_work (fun _ => Ok (VInt 42))) 1 [] [] []
                    eq_refl eq_refl eq_refl)
                 (VInt 42)
                 [Called Rollback (Ok []); Called set_read_only (Ok []); Ran 0] []);
      reflexivity.
  - apply (proj2 (@read_only_commits_or_rolls_back nat always_ok one_connection
                    value (unit_of_work (fun _ => Raise serialization_error))
                    1 [] [] [] eq_refl eq_refl eq_refl)
                 serialization_error
                 [Called Rollback (Ok []); Called set_read_only (Ok []); Ran 0] []);
      reflexivity.
Defined.

(** X29. [savepoint] and [read_only_transaction] that cannot open.
    Without a connection both raise [RuntimeError] and call nothing.
    With a connection, when the opening statement raises, the scope runs
    its [except] block (the rollback to the savepoint, or the rollback)
    and raises the exception of the statement.  In all these cases the
    body is not run. *)
Theorem scope_that_cannot_open :
  forall (conn : Type) (db : conn -> oracle) (tl : Connection.thread_local conn)
         (A : Type) (body : M log A) (l0 : log),
    (Connection.get_connection tl = None ->
     (forall name : str,
         with_ (savepoint db tl name) body l0
         = (Raise (Exn RuntimeError (lit "No database connection set.")), l0))
     /\ with_ (read_only_transaction db tl) body l0
        = (Raise (Exn RuntimeError (lit "No database connection set.")), l0))
    /\ (forall (c : conn) (name : str) (e : exn) (r : Query.row),
           Connection.get_connection tl = Some c ->
           is_class StopIteration e = false ->
           db c l0 (Execute (lit "SAVEPOINT " ++ name) []) = Raise e ->
           db c (l0 ++ [Called (Execute (lit "SAVEPOINT " ++ name) []) (Raise e)])
              (Execute (lit "ROLLBACK TO SAVEPOINT " ++ name) []) = Ok r ->
           with_ (savepoint db tl name) body l0
           = (Raise e,
              l0 ++ [Called (Execute (lit "SAVEPOINT " ++ name) []) (Raise e);
                     Called (Execute (lit "ROLLBACK TO SAVEPOINT " ++ name) [])
                            (Ok r)]))
    /\ (forall (c : conn) (e : exn) (r0 r1 : Query.row),
           Connection.get_connection tl = Some c ->
           is_class StopIteration e = false ->
           db c l0 Rollback = Ok r0 ->
           db c (l0 ++ [Called Rollback (Ok r0)]) set_read_only = Raise e ->
           db c (l0 ++ [Called Rollback (Ok r0); Called set_read_only (Raise e)])
              Rollback = Ok r1 ->
           with_ (read_only_transaction db tl) body l0
           = (Raise e,
              l0 ++ [Called Rollback (Ok r0); Called set_read_only (Raise e);
                     Called Rollback (Ok r1)])).
Proof.
  intros conn db tl A body l0. repeat apply conj.
  - intros Hnone. split.
    + intros name. unfold with_, __enter__, mbind, leaving.
      cbn [gen_start savepoint]. now rewrite Hnone.
    + unfold with_, __enter__, mbind, leaving.
      cbn [gen_start read_only_transaction]. now rewrite Hnone.
  - intros c name e r Hbound Hstop Hdb0 Hdb1.
    unfold with_, __enter__, mbind, leaving. cbn [gen_start savepoint].
    rewrite Hbound. unfold try_except, call at 1. rewrite Hdb0.
    unfold savepoint_handler, mbind, call. rewrite Hdb1. unfold raise.
    rewrite Hstop. now rewrite <- app_assoc.
  - intros c e r0 r1 Hbound Hstop Hdb0 Hdb1 Hdb2.
    unfold with_, __enter__, mbind, leaving. cbn [gen_start read_only_transaction].
    rewrite Hbound. unfold try_except, mbind, call at 1 2. rewrite Hdb0, Hdb1.
    unfold read_only_handler, mbind, call.
    rewrite <- !app_assoc. cbn [app]. rewrite Hdb2. unfold raise.
    now rewrite Hstop.
Qed.

Lemma scope_that_cannot_open_witness :
  with_ (savepoint Doubles.refuses_first_statement (Connection.fresh nat) (lit "sp1"))
        (unit_of_work (fun _ => Ok (VInt 42))) []
  = (Raise (Exn RuntimeError (lit "No database connection set.")), [])
  /\ with_ (savepoint Doubles.refuses_first_statement one_connection (lit "sp1"))
           (unit_of_work (fun _ => Ok (VInt 42))) []
     = (Raise division_error,
        [] ++ [Called (Execute (lit "SAVEPOINT " ++ lit "sp1") [])
                      (Raise division_error);
               Called (Execute (lit "ROLLBACK TO SAVEPOINT " ++ lit "sp1") [])
                      (Ok [])]).
Proof.
  split.
  - apply (proj1 (proj1 (@scope_that_cannot_open nat Doubles.refuses_first_statement
                           (Connection.fresh nat) value
                           (unit_of_work (fun _ => Ok (VInt 42))) [])
                        eq_refl)).
  - apply (proj1 (proj2 (@scope_that_cannot_open nat Doubles.refuses_first_statement
                           one_connection value
                           (unit_of_work (fun _ => Ok (VInt 42))) []))
                 1 (lit "sp1") division_error []); reflexivity.
Defined.

(** X30. The classification looks at the message only, and a message
    that contains a retryable one is retryable.  So the
    [TransactionRetryError] that the scope raises when the retries are
    used up, whose message ends with the message of the last failure, is
    itself classified as retryable. *)
Theorem exhausted_error_is_retryable :
  forall e : exn,
    _is_retryable_error e = true ->
    (forall (e' : exn) (before after : str),
        exn_str e' = before ++ exn_str e ++ after ->
        _is_retryable_error e' = true)
    /\ (forall max_retries : Z,
           _is_retryable_error
             (ExnFrom TransactionRetryError
                (lit "Transaction failed after " ++ str_of_int max_retries
                     ++ lit " retries: " ++ exn_str e) e) = true).
Proof.
  intros e He.
  assert (Hgen : forall (e' : exn) (before after : str),
             exn_str e' = before ++ exn_str e ++ after ->
             _is_retryable_error e' = true).
  { intros e' before after Hmsg.
    apply is_retryable_iff in He as (cond & a & b & Hin & Hab).
    apply is_retryable_iff. exists cond, (lower before ++ a), (b ++ lower after).
    split; [exact Hin|].
    rewrite Hmsg. unfold lower in *. rewrite !map_app, Hab.
    now rewrite <- !app_assoc. }
  split; [exact Hgen|].
  intros max_retries.
  apply (Hgen _ (lit "Transaction failed after " ++ str_of_int max_retries
                     ++ lit " retries: ") []).
  cbn [exn_str]. now rewrite app_nil_r, <- !app_assoc.
Qed.

Lemma exhausted_error_is_retryable_witness :
  _is_retryable_error
    (ExnFrom TransactionRetryError
       (lit "Transaction failed after " ++ str_of_int 3
            ++ lit " retries: " ++ exn_str serialization_error)
       serialization_error) = true.
Proof.
  exact (proj2 (exhausted_error_is_retryable serialization_error eq_refl) 3%Z).
Defined.

End ScopeMore.
